(** * mikrobot: the RouterOS API protocol engine, embedded and verified

    A shallow embedding of

    - [src/core/api_protocol.py]  (wire codec, response parser, MD5 login helper),
    - [src/core/router_client.py] (multiplexed protocol engine),
    - [src/core/router_manager.py] (connection lifecycle manager),

    followed by the theorems that settle the claims of the specification.

    Conventions.  Python [int] is [Z].  Python [bytes] is [list byte].  Python
    [str] is a list of Unicode code points, each a [Z].  A call that may raise
    returns a [result]: [Ok v] for a normal return, [Raise e] for an exception.
    Loops are written with fuel and [OutOfFuel] is the third outcome.  The
    pure functions are proved never to produce it; a coroutine produces it
    only while it is still suspended at the end of the schedule it is run
    on. *)

From Stdlib Require Import ZArith List Lia Strings.Byte String Ascii.
From stdpp Require Import gmap list.

Open Scope Z_scope.

(* ===================================================================== *)
(** * Part I.  The embedding                                              *)
(* ===================================================================== *)

(** ** Python values shared by all modules *)

Module Py.

Definition bytes := list byte.

(** A Python [str]: its code points in order. *)
Definition str := list Z.

(** A value stored in a response's [attrs]: the text of an [=key=value]
    word, or [True] for a query word. *)
Inductive attr_value :=
  | AStr (s : str)
  | ATrue.

(** A Python [dict] with [str] keys: the items in insertion order, each key
    once. *)
Abbreviation dict V := (list (str * V)).

(** [d.get(key)] *)
Fixpoint dict_get {V} (d : dict V) (key : str) : option V :=
  match d with
  | [] => None
  | (k, v) :: d' => if decide (k = key) then Some v else dict_get d' key
  end.

(** [d[key] = value]: a key already present keeps its place and takes the
    new value, a new key goes last. *)
Fixpoint dict_set {V} (d : dict V) (key : str) (value : V) : dict V :=
  match d with
  | [] => [(key, value)]
  | (k, v) :: d' =>
      if decide (k = key) then (k, value) :: d'
      else (k, v) :: dict_set d' key value
  end.

(** [del d[key]]: the key is gone, the other items keep their order. *)
Fixpoint dict_del {V} (d : dict V) (key : str) : dict V :=
  match d with
  | [] => []
  | (k, v) :: d' =>
      if decide (k = key) then dict_del d' key else (k, v) :: dict_del d' key
  end.

(** [list(d.keys())] *)
Definition dict_keys {V} (d : dict V) : list str := map fst d.

(** The text an [APIError] carries.  The source formats some of them from a
    whole [attrs] dict ([str(attrs)] and f-strings); those are kept unformatted. *)
Inductive api_message :=
  | Message (v : attr_value)
  | StrOfAttrs (attrs : dict attr_value)
  | LoginRejected (attrs : dict attr_value)
  | AuthenticationFailed (attrs : dict attr_value).

(** The exceptions the modelled code raises or lets escape.  [APIError] is
    the class of [router_client.py]; its second field is [category]. *)
Inductive exn :=
  | IndexError
  | StructError
  | BufferError
  | ValueError
  | TypeError
  | UnicodeEncodeError
  | TimeoutError
  | ConnectionError
  | CancelledError
  | GeneratorExit
  | OSError (winerror : option Z)
  | APIError (message : api_message) (category : attr_value).

Inductive result (A : Type) :=
  | Ok (a : A)
  | Raise (e : exn)
  | OutOfFuel.
Arguments Ok {A} a.
Arguments Raise {A} e.
Arguments OutOfFuel {A}.

Definition bind {A B} (m : result A) (k : A -> result B) : result B :=
  match m with
  | Ok a => k a
  | Raise e => Raise e
  | OutOfFuel => OutOfFuel
  end.

#[global] Instance result_ret : MRet result := fun A a => Ok a.
#[global] Instance result_bind : MBind result := fun A B k m => bind m k.

(** [len(x)] *)
Definition len {A} (l : list A) : Z := Z.of_nat (length l).

(** One end of a slice [x[lo:hi]], clamped the way Python clamps it:
    a negative index counts from the end. *)
Definition slice_bound (n i : Z) : Z :=
  if i <? 0 then Z.max 0 (i + n) else Z.min i n.

(** [x[lo:hi]] *)
Definition slice {A} (l : list A) (lo hi : Z) : list A :=
  let a := slice_bound (len l) lo in
  let b := slice_bound (len l) hi in
  take (Z.to_nat (b - a)) (drop (Z.to_nat a) l).

(** [x[lo:]] *)
Definition slice_from {A} (l : list A) (lo : Z) : list A :=
  drop (Z.to_nat (slice_bound (len l) lo)) l.

(** [x[i]]: raises [IndexError] out of range. *)
Definition index {A} (l : list A) (i : Z) : result A :=
  let j := if i <? 0 then i + len l else i in
  if (0 <=? j) && (j <? len l) then
    match l !! Z.to_nat j with
    | Some x => Ok x
    | None => Raise IndexError
    end
  else Raise IndexError.

(** The value of a byte, and the byte of a value (taken modulo 256). *)
Definition b2z (b : byte) : Z := Z.of_N (Byte.to_N b).

Definition z2b (z : Z) : byte :=
  match Byte.of_N (Z.to_N (z mod 256)) with
  | Some b => b
  | None => x00
  end.

(** A string literal of the source as a Python [str] (ASCII only). *)
Fixpoint lit (s : string) : str :=
  match s with
  | EmptyString => []
  | String c s' => Z.of_N (N_of_ascii c) :: lit s'
  end.

(** [str(n)] for an [int]: the decimal numeral. *)
Fixpoint digits_of (fuel : nat) (n : Z) (acc : str) : str :=
  match fuel with
  | O => acc
  | S fuel' =>
      let acc' := (48 + n mod 10) :: acc in
      if n <? 10 then acc' else digits_of fuel' (n / 10) acc'
  end.

Definition str_of_int (n : Z) : str :=
  if n <? 0 then 45 :: digits_of (S (Z.to_nat (Z.log2 (- n)))) (- n) []
  else digits_of (S (Z.to_nat (Z.log2 n))) n [].

(** The position of the first [c] in [s], if any. *)
Fixpoint find_char (c : Z) (s : str) : option Z :=
  match s with
  | [] => None
  | x :: s' => if x =? c then Some 0 else (fun i => i + 1) <$> find_char c s'
  end.

(** [s.index(c, start)] for a one-character [c]: raises [ValueError] when
    there is none at or after [start]. *)
Definition str_index (s : str) (c : Z) (start : Z) : result Z :=
  match find_char c (slice_from s start) with
  | Some i => Ok (slice_bound (len s) start + i)
  | None => Raise ValueError
  end.

(** The builtin [int] on plain ASCII decimal numerals with an optional sign,
    the numerals the device sends in [.tag=] words.  It is the instance the
    worked examples use; the theorems hold for every [int]. *)
Fixpoint digits_value (acc : Z) (s : str) : option Z :=
  match s with
  | [] => Some acc
  | c :: s' =>
      if (48 <=? c) && (c <=? 57) then digits_value (10 * acc + (c - 48)) s'
      else None
  end.

Definition int_decimal (s : str) : option Z :=
  match s with
  | [] => None
  | [_] => digits_value 0 s
  | c :: ds =>
      if c =? 45 then Z.opp <$> digits_value 0 ds
      else if c =? 43 then digits_value 0 ds
      else digits_value 0 s
  end.

(** [s.startswith(prefix)] *)
Fixpoint startswith (s prefix : str) {struct prefix} : bool :=
  match prefix, s with
  | [], _ => true
  | p :: prefix', c :: s' => (c =? p) && startswith s' prefix'
  | _ :: _, [] => false
  end.

End Py.
Export Py.

(** ** The [struct] module: the three formats the codec uses *)

Module struct.

(** [struct.pack("B", v)] *)
Definition pack_B (v : Z) : result bytes :=
  if (0 <=? v) && (v <=? 0xFF) then Ok [z2b v] else Raise StructError.

(** [struct.pack(">H", v)] *)
Definition pack_H (v : Z) : result bytes :=
  if (0 <=? v) && (v <=? 0xFFFF) then Ok [z2b (Z.shiftr v 8); z2b v]
  else Raise StructError.

(** [struct.pack(">I", v)] *)
Definition pack_I (v : Z) : result bytes :=
  if (0 <=? v) && (v <=? 0xFFFFFFFF) then
    Ok [z2b (Z.shiftr v 24); z2b (Z.shiftr v 16); z2b (Z.shiftr v 8); z2b v]
  else Raise StructError.

(** [struct.unpack(">H", data)[0]]: the buffer must hold exactly 2 bytes. *)
Definition unpack_H (data : bytes) : result Z :=
  match data with
  | [b0; b1] => Ok (b2z b0 * 256 + b2z b1)
  | _ => Raise StructError
  end.

(** [struct.unpack(">I", data)[0]]: the buffer must hold exactly 4 bytes. *)
Definition unpack_I (data : bytes) : result Z :=
  match data with
  | [b0; b1; b2; b3] =>
      Ok (((b2z b0 * 256 + b2z b1) * 256 + b2z b2) * 256 + b2z b3)
  | _ => Raise StructError
  end.

End struct.

(** ** The UTF-8 codec behind [str.encode("utf-8")] and
       [bytes.decode("utf-8", errors="replace")] *)

Module utf8.

(** A code point that [str.encode("utf-8")] accepts: a Unicode scalar value. *)
Definition is_scalar (c : Z) : bool :=
  (0 <=? c) && (c <=? 0x10FFFF) && negb ((0xD800 <=? c) && (c <=? 0xDFFF)).

Definition encode_char (c : Z) : list Z :=
  if c <? 0x80 then [c]
  else if c <? 0x800 then [0xC0 + c / 64; 0x80 + c mod 64]
  else if c <? 0x10000 then
    [0xE0 + c / 4096; 0x80 + (c / 64) mod 64; 0x80 + c mod 64]
  else
    [0xF0 + c / 262144; 0x80 + (c / 4096) mod 64; 0x80 + (c / 64) mod 64;
     0x80 + c mod 64].

(** [s.encode("utf-8")]: a lone surrogate raises [UnicodeEncodeError]. *)
Fixpoint encode (s : str) : result bytes :=
  match s with
  | [] => Ok []
  | c :: s' =>
      if is_scalar c then
        rest ← encode s';
        Ok (map z2b (encode_char c) ++ rest)
      else Raise UnicodeEncodeError
  end.

(** U+FFFD, the replacement character. *)
Definition REPLACEMENT : Z := 0xFFFD.

Definition is_continuation (b : Z) : bool := (0x80 <=? b) && (b <=? 0xBF).

(** The second byte of a three-byte sequence: [E0] excludes overlong forms,
    [ED] excludes the surrogates. *)
Definition second_of_3 (b0 b1 : Z) : bool :=
  is_continuation b1 &&
  (if b0 =? 0xE0 then 0xA0 <=? b1 else if b0 =? 0xED then b1 <? 0xA0 else true).

(** The second byte of a four-byte sequence: [F0] excludes overlong forms,
    [F4] excludes code points above U+10FFFF. *)
Definition second_of_4 (b0 b1 : Z) : bool :=
  is_continuation b1 &&
  (if b0 =? 0xF0 then 0x90 <=? b1 else if b0 =? 0xF4 then b1 <? 0x90 else true).

(** The decoder with [errors="replace"]: every maximal ill-formed run of
    bytes becomes one U+FFFD and decoding resumes after it. *)
Fixpoint decode_values (bs : list Z) : str :=
  match bs with
  | [] => []
  | b0 :: r0 =>
      if b0 <? 0x80 then b0 :: decode_values r0
      else if b0 <? 0xC2 then REPLACEMENT :: decode_values r0
      else if b0 <? 0xE0 then
        match r0 with
        | [] => [REPLACEMENT]
        | b1 :: r1 =>
            if is_continuation b1 then
              ((b0 - 0xC0) * 64 + (b1 - 0x80)) :: decode_values r1
            else REPLACEMENT :: decode_values r0
        end
      else if b0 <? 0xF0 then
        match r0 with
        | [] => [REPLACEMENT]
        | b1 :: r1 =>
            if second_of_3 b0 b1 then
              match r1 with
              | [] => [REPLACEMENT]
              | b2 :: r2 =>
                  if is_continuation b2 then
                    (((b0 - 0xE0) * 64 + (b1 - 0x80)) * 64 + (b2 - 0x80))
                      :: decode_values r2
                  else REPLACEMENT :: decode_values r1
              end
            else REPLACEMENT :: decode_values r0
        end
      else if b0 <? 0xF5 then
        match r0 with
        | [] => [REPLACEMENT]
        | b1 :: r1 =>
            if second_of_4 b0 b1 then
              match r1 with
              | [] => [REPLACEMENT]
              | b2 :: r2 =>
                  if is_continuation b2 then
                    match r2 with
                    | [] => [REPLACEMENT]
                    | b3 :: r3 =>
                        if is_continuation b3 then
                          ((((b0 - 0xF0) * 64 + (b1 - 0x80)) * 64 + (b2 - 0x80)) * 64
                             + (b3 - 0x80)) :: decode_values r3
                        else REPLACEMENT :: decode_values r2
                    end
                  else REPLACEMENT :: decode_values r1
              end
            else REPLACEMENT :: decode_values r0
        end
      else REPLACEMENT :: decode_values r0
  end.

(** [data.decode("utf-8", errors="replace")]: never raises. *)
Definition decode_replace (data : bytes) : str := decode_values (map b2z data).

End utf8.

(** ** [hashlib.md5] and [bytes.fromhex] *)

Module hashlib.

Definition K : list Z :=
    [0xd76aa478; 0xe8c7b756; 0x242070db; 0xc1bdceee;
     0xf57c0faf; 0x4787c62a; 0xa8304613; 0xfd469501;
     0x698098d8; 0x8b44f7af; 0xffff5bb1; 0x895cd7be;
     0x6b901122; 0xfd987193; 0xa679438e; 0x49b40821;
     0xf61e2562; 0xc040b340; 0x265e5a51; 0xe9b6c7aa;
     0xd62f105d; 0x02441453; 0xd8a1e681; 0xe7d3fbc8;
     0x21e1cde6; 0xc33707d6; 0xf4d50d87; 0x455a14ed;
     0xa9e3e905; 0xfcefa3f8; 0x676f02d9; 0x8d2a4c8a;
     0xfffa3942; 0x8771f681; 0x6d9d6122; 0xfde5380c;
     0xa4beea44; 0x4bdecfa9; 0xf6bb4b60; 0xbebfbc70;
     0x289b7ec6; 0xeaa127fa; 0xd4ef3085; 0x04881d05;
     0xd9d4d039; 0xe6db99e5; 0x1fa27cf8; 0xc4ac5665;
     0xf4292244; 0x432aff97; 0xab9423a7; 0xfc93a039;
     0x655b59c3; 0x8f0ccc92; 0xffeff47d; 0x85845dd1;
     0x6fa87e4f; 0xfe2ce6e0; 0xa3014314; 0x4e0811a1;
     0xf7537e82; 0xbd3af235; 0x2ad7d2bb; 0xeb86d391].

Definition shifts : list Z :=
    [7; 12; 17; 22; 7; 12; 17; 22; 7; 12; 17; 22; 7; 12; 17; 22;
     5; 9; 14; 20; 5; 9; 14; 20; 5; 9; 14; 20; 5; 9; 14; 20;
     4; 11; 16; 23; 4; 11; 16; 23; 4; 11; 16; 23; 4; 11; 16; 23;
     6; 10; 15; 21; 6; 10; 15; 21; 6; 10; 15; 21; 6; 10; 15; 21].

Definition w32 (x : Z) : Z := x mod 2 ^ 32.

Definition rotl32 (x c : Z) : Z :=
  Z.lor (w32 (Z.shiftl x c)) (Z.shiftr x (32 - c)).

Definition not32 (x : Z) : Z := Z.lxor x 0xFFFFFFFF.

(** The four-word chaining state. *)
Record state := State { sA : Z; sB : Z; sC : Z; sD : Z }.

Definition init : state :=
  State 0x67452301 0xefcdab89 0x98badcfe 0x10325476.

(** One of the 64 operations of a block; [M] holds its sixteen words. *)
Definition step (M : list Z) (st : state) (i : nat) : state :=
  let '(State A B C D) := st in
  let iz := Z.of_nat i in
  let '(F, g) :=
    if iz <? 16 then (Z.lor (Z.land B C) (Z.land (not32 B) D), iz)
    else if iz <? 32 then
      (Z.lor (Z.land D B) (Z.land (not32 D) C), (5 * iz + 1) mod 16)
    else if iz <? 48 then (Z.lxor B (Z.lxor C D), (3 * iz + 5) mod 16)
    else (Z.lxor C (Z.lor B (not32 D)), (7 * iz) mod 16) in
  let F' := w32 (F + A + nth i K 0 + nth (Z.to_nat g) M 0) in
  State D (w32 (B + rotl32 F' (nth i shifts 0))) B C.

(** Little-endian word of four byte values. *)
Definition le32 (bs : list Z) : Z :=
  nth 0 bs 0 + nth 1 bs 0 * 2 ^ 8 + nth 2 bs 0 * 2 ^ 16 + nth 3 bs 0 * 2 ^ 24.

Definition words_of_block (block : list Z) : list Z :=
  map (fun j => le32 (take 4 (drop (4 * j) block))) (seq 0 16).

Definition compress (st : state) (block : list Z) : state :=
  let '(State A B C D) := st in
  let '(State A' B' C' D') := fold_left (step (words_of_block block)) (seq 0 64) st in
  State (w32 (A + A')) (w32 (B + B')) (w32 (C + C')) (w32 (D + D')).

Fixpoint blocks (n : nat) (msg : list Z) (st : state) : state :=
  match n with
  | O => st
  | S n' => blocks n' (drop 64 msg) (compress st (take 64 msg))
  end.

(** Little-endian bytes of a value, [n] of them. *)
Fixpoint le_bytes (n : nat) (v : Z) : list Z :=
  match n with
  | O => []
  | S n' => v mod 256 :: le_bytes n' (v / 256)
  end.

Definition pad (msg : list Z) : list Z :=
  let l := len msg in
  msg ++ [0x80] ++ repeat 0 (Z.to_nat ((55 - l) mod 64))
      ++ le_bytes 8 ((8 * l) mod 2 ^ 64).

(** The 16-byte digest of a message. *)
Definition md5_digest (msg : bytes) : bytes :=
  let p := pad (map b2z msg) in
  let '(State A B C D) := blocks (length p / 64) p init in
  map z2b (le_bytes 4 A ++ le_bytes 4 B ++ le_bytes 4 C ++ le_bytes 4 D).

Definition hex_digit (v : Z) : Z := if v <? 10 then 48 + v else 87 + v.

(** [data.hex()]: two lowercase hexadecimal digits per byte. *)
Definition hex (data : bytes) : str :=
  flat_map (fun b => [hex_digit (b2z b / 16); hex_digit (b2z b mod 16)]) data.

(** A hash object: the bytes it has been fed so far. *)
Definition md5 := bytes.
Definition new : md5 := [].
Definition update (h : md5) (data : bytes) : md5 := h ++ data.
Definition hexdigest (h : md5) : str := hex (md5_digest h).

(** The value of a hexadecimal digit. *)
Definition hex_value (c : Z) : option Z :=
  if (48 <=? c) && (c <=? 57) then Some (c - 48)
  else if (97 <=? c) && (c <=? 102) then Some (c - 87)
  else if (65 <=? c) && (c <=? 70) then Some (c - 55)
  else None.

Definition is_space (c : Z) : bool := ((9 <=? c) && (c <=? 13)) || (c =? 32).

(** [bytes.fromhex(s)]: pairs of hexadecimal digits, ASCII whitespace
    allowed between pairs; anything else raises [ValueError]. *)
Fixpoint fromhex (s : str) : result bytes :=
  match s with
  | [] => Ok []
  | c :: r =>
      if is_space c then fromhex r
      else
        match hex_value c, r with
        | Some top, d :: r' =>
            match hex_value d with
            | Some bot =>
                rest ← fromhex r';
                Ok (z2b (top * 16 + bot) :: rest)
            | None => Raise ValueError
            end
        | _, _ => Raise ValueError
        end
  end.

End hashlib.

(** ** [src/core/api_protocol.py] *)

Module api_protocol.

(** *** Length encoding *)

Definition encode_length (length : Z) : result bytes :=
  if length <? 0x80 then
    struct.pack_B length
  else if length <? 0x4000 then
    struct.pack_H (Z.lor length 0x8000)
  else if length <? 0x200000 then
    b ← struct.pack_I (Z.lor length 0xC00000);
    Ok (slice_from b 1)
  else if length <? 0x10000000 then
    struct.pack_I (Z.lor length 0xE0000000)
  else
    b ← struct.pack_I length;
    Ok (xf0 :: b).

(** Returns [(length, new_offset)]. *)
Definition decode_length (data : bytes) (offset : Z) : result (Z * Z) :=
  b ← index data offset;
  let b := b2z b in
  if b <? 0x80 then
    Ok (b, offset + 1)
  else if b <? 0xC0 then
    v ← struct.unpack_H (slice data offset (offset + 2));
    Ok (Z.land v 0x3FFF, offset + 2)
  else if b <? 0xE0 then
    let raw := x00 :: slice data offset (offset + 3) in
    v ← struct.unpack_I raw;
    Ok (Z.land v 0x1FFFFF, offset + 3)
  else if b <? 0xF0 then
    v ← struct.unpack_I (slice data offset (offset + 4));
    Ok (Z.land v 0x0FFFFFFF, offset + 4)
  else
    v ← struct.unpack_I (slice data (offset + 1) (offset + 5));
    Ok (v, offset + 5).

(** *** Word / sentence encoding *)

Definition encode_word (word : str) : result bytes :=
  data ← utf8.encode word;
  l ← encode_length (len data);
  Ok (l ++ data).

(** [b"".join(encode_word(w) for w in words)] *)
Fixpoint join_words (words : list str) : result bytes :=
  match words with
  | [] => Ok []
  | w :: ws =>
      e ← encode_word w;
      rest ← join_words ws;
      Ok (e ++ rest)
  end.

Definition build_sentence (words : list str) : result bytes :=
  body ← join_words words;
  Ok (body ++ [x00]).

(** *** Sentence decoding *)

(** The [while] loop of [decode_sentence]. *)
Fixpoint decode_sentence_loop (fuel : nat) (data : bytes) (words : list str)
    (offset : Z) : result (list str * Z) :=
  match fuel with
  | O => OutOfFuel
  | S fuel' =>
      if offset <? len data then
        if len data <=? offset then Ok (words, offset)
        else
          '(length, offset) ← decode_length data offset;
          if length =? 0 then Ok (words, offset)
          else if len data <? offset + length then Raise BufferError
          else
            let word := utf8.decode_replace (slice data offset (offset + length)) in
            decode_sentence_loop fuel' data (words ++ [word]) (offset + length)
      else Ok (words, offset)
  end.

(** Decode one sentence from a byte buffer.  Returns [(words, new_offset)].
    Every iteration moves [offset] forward, so the fuel given is enough. *)
Definition decode_sentence (data : bytes) (offset : Z) : result (list str * Z) :=
  decode_sentence_loop (S (Z.to_nat (len data - offset))) data [] offset.

(** *** Responses *)

Inductive tag_value :=
  | TagInt (n : Z)
  | TagStr (s : str).

(** The dict [{"type": ..., "tag": ..., "attrs": {...}}]. *)
Record response := Response {
  r_type : option str;
  r_tag : option tag_value;
  r_attrs : dict attr_value;
}.

Section parse.

(** The builtin [int] on a [str]: [None] stands for [ValueError]. *)
Variable int : str -> option Z.

(** The body of the [for] loop of [parse_response]. *)
Definition parse_word (result : response) (word : str) : Py.result response :=
  if startswith word (lit "!") then
    Ok (Response (Some word) (r_tag result) (r_attrs result))
  else if startswith word (lit ".tag=") then
    match int (slice_from word 5) with
    | Some n => Ok (Response (r_type result) (Some (TagInt n)) (r_attrs result))
    | None =>
        Ok (Response (r_type result) (Some (TagStr (slice_from word 5)))
              (r_attrs result))
    end
  else if startswith word (lit "=") then
    eq2 ← str_index word 61 1;
    let key := slice word 1 eq2 in
    let value := slice_from word (eq2 + 1) in
    Ok (Response (r_type result) (r_tag result)
          (dict_set (r_attrs result) key (AStr value)))
  else if startswith word (lit "?") then
    Ok (Response (r_type result) (r_tag result)
          (dict_set (r_attrs result) word ATrue))
  else Ok result.

Fixpoint parse_words (result : response) (words : list str) : Py.result response :=
  match words with
  | [] => Ok result
  | word :: words' =>
      result' ← parse_word result word;
      parse_words result' words'
  end.

Definition parse_response (words : list str) : Py.result response :=
  parse_words (Response None None []) words.

End parse.

(** *** MD5 login helper *)

(** The challenge comes out of an [attrs] dict, so it is an [attr_value];
    [bytes.fromhex(True)] raises [TypeError]. *)
Definition md5_challenge_response (password : str) (challenge_hex : attr_value)
    : result str :=
  challenge_bytes ←
    match challenge_hex with
    | AStr s => hashlib.fromhex s
    | ATrue => Raise TypeError
    end;
  let h := hashlib.new in
  let h := hashlib.update h [x00] in
  pw ← utf8.encode password;
  let h := hashlib.update h pw in
  let h := hashlib.update h challenge_bytes in
  Ok (hashlib.hexdigest h).

End api_protocol.

(** ** [src/core/router_client.py] *)

Module router_client.
Import api_protocol.

(** An [asyncio.Queue] object, by identity. *)
Definition qid := nat.

(** The mutable fields of a [RouterAPIClient]. *)
Record engine := Engine {
  connected : bool;  (* [_connected] *)
  has_reader : bool;  (* [_reader is not None] *)
  writer : option (list bytes);  (* [_writer]: what was written to it *)
  locked : bool;  (* [_lock] is held *)
  tag_counter : Z;  (* [_tag_counter] *)
  pending : gmap Z qid;  (* [_pending]: tag to queue *)
  queues : gmap qid (list response);  (* the [asyncio.Queue] objects and their items *)
  next_queue : qid;  (* the next fresh queue *)
  buf : bytes;  (* [_buf] *)
  conn_gen : Z;  (* [_conn_gen] *)
}.

Definition set_connected (v : bool) (e : engine) : engine :=
  Engine v (has_reader e) (writer e) (locked e) (tag_counter e) (pending e)
    (queues e) (next_queue e) (buf e) (conn_gen e).
Definition set_has_reader (v : bool) (e : engine) : engine :=
  Engine (connected e) v (writer e) (locked e) (tag_counter e) (pending e)
    (queues e) (next_queue e) (buf e) (conn_gen e).
Definition set_writer (v : option (list bytes)) (e : engine) : engine :=
  Engine (connected e) (has_reader e) v (locked e) (tag_counter e) (pending e)
    (queues e) (next_queue e) (buf e) (conn_gen e).
Definition set_locked (v : bool) (e : engine) : engine :=
  Engine (connected e) (has_reader e) (writer e) v (tag_counter e) (pending e)
    (queues e) (next_queue e) (buf e) (conn_gen e).
Definition set_tag_counter (v : Z) (e : engine) : engine :=
  Engine (connected e) (has_reader e) (writer e) (locked e) v (pending e)
    (queues e) (next_queue e) (buf e) (conn_gen e).
Definition set_pending (v : gmap Z qid) (e : engine) : engine :=
  Engine (connected e) (has_reader e) (writer e) (locked e) (tag_counter e) v
    (queues e) (next_queue e) (buf e) (conn_gen e).
Definition set_queues (v : gmap qid (list response)) (e : engine) : engine :=
  Engine (connected e) (has_reader e) (writer e) (locked e) (tag_counter e)
    (pending e) v (next_queue e) (buf e) (conn_gen e).
Definition set_next_queue (v : qid) (e : engine) : engine :=
  Engine (connected e) (has_reader e) (writer e) (locked e) (tag_counter e)
    (pending e) (queues e) v (buf e) (conn_gen e).
Definition set_buf (v : bytes) (e : engine) : engine :=
  Engine (connected e) (has_reader e) (writer e) (locked e) (tag_counter e)
    (pending e) (queues e) (next_queue e) v (conn_gen e).
Definition set_conn_gen (v : Z) (e : engine) : engine :=
  Engine (connected e) (has_reader e) (writer e) (locked e) (tag_counter e)
    (pending e) (queues e) (next_queue e) (buf e) v.

(** The constructor's arguments that the modelled methods read. *)
Record config := Config {
  username : str;
  password : str;
  ros_version : Z;
}.

(** The state [__init__] leaves. *)
Definition init : engine := Engine false false None false 0 ∅ ∅ 0%nat [] 0.

(** *** Cooperative scheduling

    A coroutine runs until it awaits.  While it is suspended the other tasks
    run: [others] is what they did to the engine, [outcome] is how the awaited
    operation ends.  A [script] lists the suspensions of one coroutine in
    order; a coroutine that is still suspended when its script ends answers
    [OutOfFuel]. *)

Inductive await_outcome :=
  | Completes
  | Reads (chunk : bytes)
  | Fails (e : exn).

Record wake := Wake {
  others : engine -> engine;
  outcome : await_outcome;
}.

Definition script := list wake.

Definition M (A : Type) : Type := script -> engine -> result A * script * engine.

Definition ret {A} (a : A) : M A := fun s e => (Ok a, s, e).

Definition raise {A} (x : exn) : M A := fun s e => (Raise x, s, e).

Definition out_of_fuel {A} : M A := fun s e => (OutOfFuel, s, e).

Definition seq {A B} (m : M A) (k : A -> M B) : M B := fun s e =>
  let '(r, s1, e1) := m s e in
  match r with
  | Ok a => k a s1 e1
  | Raise x => (Raise x, s1, e1)
  | OutOfFuel => (OutOfFuel, s1, e1)
  end.

#[global] Instance M_ret : MRet M := @ret.
#[global] Instance M_bind : MBind M := fun A B k m => seq m k.

(** A pure call that may raise. *)
Definition lift {A} (r : result A) : M A := fun s e => (r, s, e).

Definition get : M engine := fun s e => (Ok e, s, e).

Definition modify (f : engine -> engine) : M unit := fun s e => (Ok tt, s, f e).

(** Loops get one more unit of fuel than the script has suspensions. *)
Definition with_fuel {A} (f : nat -> M A) : M A := fun s e => f (S (length s)) s e.

(** One suspension. *)
Definition suspend : M await_outcome := fun s e =>
  match s with
  | [] => (OutOfFuel, [], e)
  | w :: s' => (Ok (outcome w), s', others w e)
  end.

(** An await with no value: [drain()], [sleep()], [open_connection()], ... *)
Definition await_unit : M unit :=
  o ← suspend;
  match o with
  | Fails x => raise x
  | _ => ret tt
  end.

(** [await self._reader.read(_RECV_BUF)]; [b""] is the end of the stream. *)
Definition read : M bytes :=
  o ← suspend;
  match o with
  | Fails x => raise x
  | Reads chunk => ret chunk
  | Completes => ret []
  end.

(** [try: body finally: fin].  An exception of [fin] replaces the outcome of
    [body]. *)
Definition try_finally {A} (body : M A) (fin : M unit) : M A := fun s e =>
  let '(r, s1, e1) := body s e in
  match r with
  | OutOfFuel => (OutOfFuel, s1, e1)
  | _ =>
      let '(rf, s2, e2) := fin s1 e1 in
      match rf with
      | Ok _ => (r, s2, e2)
      | Raise x => (Raise x, s2, e2)
      | OutOfFuel => (OutOfFuel, s2, e2)
      end
  end.

(** The exceptions that derive from [Exception]; [CancelledError] and
    [GeneratorExit] derive from [BaseException] only. *)
Definition is_Exception (x : exn) : bool :=
  match x with
  | CancelledError | GeneratorExit => false
  | _ => true
  end.

(** [try: body except Exception: handler] *)
Definition try_except_Exception {A} (body : M A) (handler : exn -> M A) : M A :=
  fun s e =>
    let '(r, s1, e1) := body s e in
    match r with
    | Raise x => if is_Exception x then handler x s1 e1 else (Raise x, s1, e1)
    | _ => (r, s1, e1)
    end.

(** The queue operations. *)

(** [asyncio.Queue()] *)
Definition new_queue : M qid :=
  e ← get;
  let q := next_queue e in
  modify (fun e => set_next_queue (S q) (set_queues (<[q := []]> (queues e)) e));;
  ret q.

(** [q.put_nowait(item)], and [await q.put(item)] on an unbounded queue,
    which never suspends. *)
Definition put (q : qid) (item : response) (e : engine) : engine :=
  set_queues (alter (fun items => items ++ [item]) q (queues e)) e.

(** [await asyncio.wait_for(q.get(), timeout)]: suspended until the queue
    holds an item; the timeout and a cancellation arrive as [Fails]. *)
Fixpoint wait_for_get (fuel : nat) (q : qid) : M response :=
  match fuel with
  | O => out_of_fuel
  | S fuel' =>
      o ← suspend;
      match o with
      | Fails x => raise x
      | _ =>
          e ← get;
          match queues e !! q with
          | Some (item :: rest) =>
              modify (fun e => set_queues (<[q := rest]> (queues e)) e);;
              ret item
          | _ => wait_for_get fuel' q
          end
      end
  end.

(** [async with self._lock: body] *)
Fixpoint acquire (fuel : nat) : M unit :=
  match fuel with
  | O => out_of_fuel
  | S fuel' =>
      e ← get;
      if locked e then await_unit;; acquire fuel'
      else modify (set_locked true)
  end.

Definition with_lock {A} (body : M A) : M A :=
  with_fuel acquire;;
  try_finally body (modify (set_locked false)).

(** *** Internal *)

Definition _next_tag : M Z :=
  e ← get;
  let t := (tag_counter e + 1) mod 65535 in
  modify (set_tag_counter t);;
  ret t.

(** The words of the [for k, v in params.items()] loop. *)
Definition param_word (kv : str * option str) : str :=
  match kv with
  | (k, Some v) =>
      if decide (v = []) then lit "=" ++ k ++ lit "="
      else lit "=" ++ k ++ lit "=" ++ v
  | (k, None) => lit "=" ++ k ++ lit "="
  end.

Definition _build_words (path : str) (params : option (dict (option str)))
    (queries : option (list str)) (tag : Z) : list str :=
  let words := [path] in
  let words :=
    match params with
    | Some ((_ :: _) as items) => words ++ map param_word items
    | _ => words
    end in
  let words :=
    match queries with
    | Some ((_ :: _) as qs) => words ++ qs
    | _ => words
    end in
  words ++ [lit ".tag=" ++ str_of_int tag].

Definition _send_raw (data : bytes) : M unit :=
  e ← get;
  match connected e, writer e with
  | true, Some written =>
      modify (set_writer (Some (written ++ [data])));;
      await_unit
  | _, _ => raise ConnectionError
  end.

Definition pending_pop (tag : Z) : M unit :=
  modify (fun e => set_pending (delete tag (pending e)) e).

Definition pending_set (tag : Z) (q : qid) : M unit :=
  modify (fun e => set_pending (<[tag := q]> (pending e)) e).

(** Wait for the next response for a specific tag (used during login). *)
Definition _read_one (tag : Z) : M response :=
  q ← new_queue;
  pending_set tag q;;
  try_finally (with_fuel (fun fuel => wait_for_get fuel q)) (pending_pop tag).

(** [resp["type"] == s] *)
Definition type_is (resp : response) (s : string) : bool :=
  bool_decide (r_type resp = Some (lit s)).

(** [attrs.get(key, default)] *)
Definition attrs_get (attrs : dict attr_value) (key : string) (default : attr_value)
    : attr_value :=
  match dict_get attrs (lit key) with
  | Some v => v
  | None => default
  end.

Section client.

Variable int : str -> option Z.
Variable cfg : config.

(** *** Authentication *)

(** The second sentence of the MD5 login. *)
Definition login_response_words (digest : str) (tag2 : Z) : list str :=
  [lit "/login";
   lit "=name=" ++ username cfg;
   lit "=response=00" ++ digest;
   lit ".tag=" ++ str_of_int tag2].

(** ROS6: two-step MD5 challenge login. *)
Definition _login_ros6 : M unit :=
  tag ← _next_tag;
  sentence ← lift (build_sentence [lit "/login"; lit ".tag=" ++ str_of_int tag]);
  _send_raw sentence;;
  resp ← _read_one tag;
  if type_is resp "!trap" then
    raise (APIError (LoginRejected (r_attrs resp)) (AStr []))
  else
    let challenge := attrs_get (r_attrs resp) "ret" (AStr []) in
    digest ← lift (md5_challenge_response (password cfg) challenge);
    tag2 ← _next_tag;
    sentence2 ← lift (build_sentence (login_response_words digest tag2));
    _send_raw sentence2;;
    resp2 ← _read_one tag2;
    if type_is resp2 "!trap" then
      raise (APIError (AuthenticationFailed (r_attrs resp2)) (AStr []))
    else ret tt.

(** [if challenge:] *)
Definition truthy (v : attr_value) : bool :=
  match v with
  | AStr [] => false
  | _ => true
  end.

(** ROS7: single-step plain+MD5 login (tries plain first). *)
Definition _login_ros7 : M unit :=
  tag ← _next_tag;
  sentence ← lift (build_sentence
    [lit "/login";
     lit "=name=" ++ username cfg;
     lit "=password=" ++ password cfg;
     lit ".tag=" ++ str_of_int tag]);
  _send_raw sentence;;
  resp ← _read_one tag;
  if type_is resp "!trap" then
    let challenge := attrs_get (r_attrs resp) "ret" (AStr []) in
    if truthy challenge then
      digest ← lift (md5_challenge_response (password cfg) challenge);
      tag2 ← _next_tag;
      sentence2 ← lift (build_sentence (login_response_words digest tag2));
      _send_raw sentence2;;
      resp2 ← _read_one tag2;
      if type_is resp2 "!trap" then
        raise (APIError (AuthenticationFailed (r_attrs resp2)) (AStr []))
      else ret tt
    else raise (APIError (AuthenticationFailed (r_attrs resp)) (AStr []))
  else ret tt.

Definition _login : M unit :=
  if 7 <=? ros_version cfg then _login_ros7 else _login_ros6.

(** *** Receiving *)

(** The [while] loop of [_dispatch_buf]; returns the final [offset]. *)
Fixpoint dispatch_while (fuel : nat) (offset : Z) : M Z :=
  match fuel with
  | O => out_of_fuel
  | S fuel' =>
      e ← get;
      if offset <? len (buf e) then
        match decode_sentence (buf e) offset with
        | Raise BufferError => ret offset
        | Raise x => raise x
        | OutOfFuel => out_of_fuel
        | Ok ([], _) => dispatch_while fuel' (offset + 1)
        | Ok (words, new_offset) =>
            resp ← lift (parse_response int words);
            match r_tag resp with
            | Some (TagInt tag) =>
                match pending e !! tag with
                | Some q => modify (put q resp)
                | None => ret tt
                end
            | _ => ret tt
            end;;
            dispatch_while fuel' new_offset
        end
      else ret offset
  end.

(** Extract complete sentences from buffer and dispatch. *)
Definition _dispatch_buf : M unit :=
  e ← get;
  offset ← dispatch_while (S (length (buf e))) 0;
  modify (fun e => set_buf (slice_from (buf e) offset) e).

(** [{"type": "!fatal", "tag": None, "attrs": {"message": "disconnected"}}] *)
Definition fatal_response : response :=
  Response (Some (lit "!fatal")) None [(lit "message", AStr (lit "disconnected"))].

(** The [winerror] attribute of an [OSError]; [ConnectionError] is one of
    its subclasses. *)
Definition as_OSError (x : exn) : option (option Z) :=
  match x with
  | OSError winerror => Some winerror
  | ConnectionError => Some None
  | _ => None
  end.

Definition _TRANSIENT_WINERRORS : list Z := [64; 121; 995].
Definition _MAX_TRANSIENT_RETRIES : Z := 5.

Definition is_transient (winerror : option Z) : bool :=
  match winerror with
  | Some w => bool_decide (w ∈ _TRANSIENT_WINERRORS)
  | None => false
  end.

(** [try: m except OSError as e: ...]: the value of [m], or the [winerror]
    of the [OSError] it raised. *)
Definition catch_OSError {A} (m : M A) : M (A + option Z) := fun s e =>
  let '(r, s1, e1) := m s e in
  match r with
  | Ok a => (Ok (inl a), s1, e1)
  | Raise x =>
      match as_OSError x with
      | Some winerror => (Ok (inr winerror), s1, e1)
      | None => (Raise x, s1, e1)
      end
  | OutOfFuel => (OutOfFuel, s1, e1)
  end.

(** The [while] loop of [_receiver_loop]. *)
Fixpoint receiver_while (fuel : nat) (gen : Z) (transient_retries : Z) : M unit :=
  match fuel with
  | O => out_of_fuel
  | S fuel' =>
      e ← get;
      if connected e && has_reader e && (conn_gen e =? gen) then
        r ← catch_OSError read;
        match r with
        | inr winerror =>
            if is_transient winerror
               && (transient_retries <? _MAX_TRANSIENT_RETRIES)
            then
              await_unit;;
              receiver_while fuel' gen (transient_retries + 1)
            else ret tt
        | inl [] => ret tt
        | inl chunk =>
            modify (fun e => set_buf (buf e ++ chunk) e);;
            _dispatch_buf;;
            receiver_while fuel' gen 0
        end
      else ret tt
  end.

(** The [try] block of [_receiver_loop] with its two [except] clauses. *)
Definition receiver_try (gen : Z) : M unit := fun s e =>
  let '(r, s1, e1) := with_fuel (fun fuel => receiver_while fuel gen 0) s e in
  match r with
  | Raise CancelledError => (Ok tt, s1, e1)
  | Raise x => if is_Exception x then (Ok tt, s1, e1) else (Raise x, s1, e1)
  | _ => (r, s1, e1)
  end.

(** The [finally] block of [_receiver_loop]: only mark disconnected if this
    loop still owns the current connection. *)
Definition receiver_finally (gen : Z) (e : engine) : engine :=
  if conn_gen e =? gen then
    let e := set_connected false e in
    foldl (fun e q => put q fatal_response e) e (map snd (map_to_list (pending e)))
  else e.

(** Background task: reads bytes, decodes sentences, dispatches to queues. *)
Definition _receiver_loop (gen : Z) : M unit :=
  try_finally (receiver_try gen) (modify (receiver_finally gen)).

(** *** Connection *)

(** What [connect] does between the return of [open_connection] and the
    login: a new transport, an empty buffer, the next generation.  The
    receiver task it creates runs among the other tasks. *)
Definition established (e : engine) : engine :=
  let e := set_writer (Some []) (set_has_reader true e) in
  let e := set_connected true e in
  let e := set_buf [] e in
  set_conn_gen (conn_gen e + 1) e.

Definition connect : M bool :=
  try_except_Exception
    (await_unit;;
     modify established;;
     e ← get;
     let my_gen := conn_gen e in
     _login;;
     e ← get;
     if negb (connected e) || negb (conn_gen e =? my_gen) then ret false
     else ret true)
    (fun _ => modify (set_connected false);; ret false).

Definition close : M unit :=
  modify (set_connected false);;
  e ← get;
  match writer e with
  | Some _ => try_except_Exception await_unit (fun _ => ret tt)
  | None => ret tt
  end.

(** *** Command execution *)

(** The [while True] loop of [command]. *)
Fixpoint command_while (fuel : nat) (q : qid) (results : list (dict attr_value))
    : M (list (dict attr_value)) :=
  match fuel with
  | O => out_of_fuel
  | S fuel' =>
      resp ← with_fuel (fun fuel => wait_for_get fuel q);
      if type_is resp "!re" then
        command_while fuel' q (results ++ [r_attrs resp])
      else if type_is resp "!done" then ret results
      else if type_is resp "!trap" || type_is resp "!fatal" then
        let msg :=
          match dict_get (r_attrs resp) (lit "message") with
          | Some v => Message v
          | None => StrOfAttrs (r_attrs resp)
          end in
        let cat := attrs_get (r_attrs resp) "category" (AStr []) in
        raise (APIError msg cat)
      else command_while fuel' q results
  end.

(** Execute a command and return all [!re] responses. *)
Definition command (path : str) (params : option (dict (option str)))
    (queries : option (list str)) : M (list (dict attr_value)) :=
  tag ← _next_tag;
  let words := _build_words path params queries tag in
  q ← new_queue;
  pending_set tag q;;
  try_finally
    (with_lock (sentence ← lift (build_sentence words); _send_raw sentence);;
     with_fuel (fun fuel => command_while fuel q []))
    (pending_pop tag).

(** Execute and return first result or None. *)
Definition command_one (path : str) (params : option (dict (option str)))
    : M (option (dict attr_value)) :=
  results ← command path params None;
  ret (head results).

(** *** Streaming

    [stream] is an async generator.  Its states: created and not yet run,
    suspended at the [yield] inside the loop, and finished. *)
Inductive generator :=
  | Created (path : str) (params : option (dict (option str)))
      (queries : option (list str))
  | Suspended (tag : Z) (q : qid)
  | Finished.

(** [stream(path, params, queries)]: calling an async generator function
    runs none of its body. *)
Definition stream (path : str) (params : option (dict (option str)))
    (queries : option (list str)) : generator :=
  Created path params queries.

(** What one resumption hands back: an item, the end ([StopAsyncIteration]),
    or an exception. *)
Inductive delivery :=
  | Item (attrs : dict attr_value)
  | Stop
  | Throws (x : exn).

(** The words of the cancel sentence. *)
Definition cancel_words (tag cancel_tag : Z) : list str :=
  [lit "/cancel";
   lit "=tag=" ++ str_of_int tag;
   lit ".tag=" ++ str_of_int cancel_tag].

(** The guarded send of the [finally] block: [try: ... except Exception:
    pass]. *)
Definition send_cancel (tag : Z) : M unit :=
  try_except_Exception
    (cancel_tag ← _next_tag;
     sentence ← lift (build_sentence (cancel_words tag cancel_tag));
     _send_raw sentence)
    (fun _ => ret tt).

(** The [finally] block of [stream]. *)
Definition stream_finally (tag : Z) : M unit :=
  send_cancel tag;;
  pending_pop tag.

(** The [while True] loop of [stream], up to the next [yield] or the end. *)
Fixpoint stream_while (fuel : nat) (q : qid) : M (option (dict attr_value)) :=
  match fuel with
  | O => out_of_fuel
  | S fuel' =>
      resp ← with_fuel (fun fuel => wait_for_get fuel q);
      if type_is resp "!re" then ret (Some (r_attrs resp))
      else if type_is resp "!done" then ret None
      else if type_is resp "!trap" || type_is resp "!fatal" then
        let msg :=
          match dict_get (r_attrs resp) (lit "message") with
          | Some v => Message v
          | None => StrOfAttrs (r_attrs resp)
          end in
        raise (APIError msg (AStr []))
      else stream_while fuel' q
  end.

(** Run the generator body from inside the [try] until it yields or leaves
    the [try]; leaving runs the [finally] block. *)
Definition stream_run (tag : Z) (q : qid) (body : M (option (dict attr_value)))
    : script -> engine -> generator * result delivery * script * engine :=
  fun s e =>
    let '(r, s1, e1) := body s e in
    match r with
    | OutOfFuel => (Suspended tag q, OutOfFuel, s1, e1)
    | Ok (Some attrs) => (Suspended tag q, Ok (Item attrs), s1, e1)
    | _ =>
        let '(rf, s2, e2) := stream_finally tag s1 e1 in
        match rf, r with
        | OutOfFuel, _ => (Suspended tag q, OutOfFuel, s2, e2)
        | Raise x, _ => (Finished, Ok (Throws x), s2, e2)
        | Ok _, Raise x => (Finished, Ok (Throws x), s2, e2)
        | Ok _, _ => (Finished, Ok Stop, s2, e2)
        end
    end.

(** [await gen.__anext__()] *)
Definition anext (g : generator)
    : script -> engine -> generator * result delivery * script * engine :=
  fun s e =>
    match g with
    | Created path params queries =>
        let '(r, s1, e1) :=
          (tag ← _next_tag;
           let words := _build_words path params queries tag in
           q ← new_queue;
           pending_set tag q;;
           ret (tag, words, q)) s e in
        match r with
        | Ok (tag, words, q) =>
            stream_run tag q
              (with_lock (sentence ← lift (build_sentence words);
                          _send_raw sentence);;
               with_fuel (fun fuel => stream_while fuel q)) s1 e1
        | Raise x => (Finished, Ok (Throws x), s1, e1)
        | OutOfFuel => (g, OutOfFuel, s1, e1)
        end
    | Suspended tag q =>
        stream_run tag q (with_fuel (fun fuel => stream_while fuel q)) s e
    | Finished => (Finished, Ok Stop, s, e)
    end.


End client.

End router_client.

(** ** [src/core/router_manager.py] *)

Module router_manager.

(** A router object ([RouterROS6] or [RouterROS7]), by identity. *)
Definition rid := nat.

Record RouterEntry := Entry {
  alias : str;
  host : str;
  username : str;
  password : str;
  port : Z;
  use_ssl : bool;
  ros_version : Z;
  standalone : bool;
  owner_id : Z;
  router : option rid;
  detected_version : Z;
}.

(** What the manager can observe of a router object: its class, whether
    [connect()] succeeded on it, and whether [close()] was called on it. *)
Record router_obj := RouterObj {
  variant : Z;
  is_connected : bool;
  closed : bool;
}.

Record manager := Manager {
  _entries : gmap Z (dict RouterEntry);  (* user_id -> {alias -> RouterEntry} *)
  _active : gmap Z (option str);         (* user_id -> active alias *)
  routers : gmap rid router_obj;         (* the router objects created so far *)
  next_router : rid;                     (* the next fresh router object *)
  registry : gmap Z (dict RouterEntry);  (* the contents of REGISTRY_FILE *)
}.

Definition set_entries (v : gmap Z (dict RouterEntry)) (m : manager) : manager :=
  Manager v (_active m) (routers m) (next_router m) (registry m).
Definition set_active (v : gmap Z (option str)) (m : manager) : manager :=
  Manager (_entries m) v (routers m) (next_router m) (registry m).
Definition set_routers (v : gmap rid router_obj) (m : manager) : manager :=
  Manager (_entries m) (_active m) v (next_router m) (registry m).
Definition set_next_router (v : rid) (m : manager) : manager :=
  Manager (_entries m) (_active m) (routers m) v (registry m).
Definition set_registry (v : gmap Z (dict RouterEntry)) (m : manager) : manager :=
  Manager (_entries m) (_active m) (routers m) (next_router m) v.

(** What the network answers to one connection attempt of
    [_create_and_connect]. *)
Inductive attempt :=
  | ConnectRaises (x : exn)             (* [router.connect()] raised *)
  | ConnectFails                        (* [router.connect()] returned [False] *)
  | ResourceRaises (x : exn)            (* connected; [get_system_resource()] raised *)
  | Resource (res : dict attr_value).   (* connected; its result *)

(** The outside world of one call: the answer to an attempt with each
    protocol version, and the exception of the registry write, if any. *)
Record world := World {
  attempt_with : Z -> attempt;
  save_raises : option exn;
}.

(** [c in s] for a one-character [c]. *)
Definition contains (s : str) (c : Z) : bool := bool_decide (c ∈ s).

(** ["ros-version" in res and "7" in str(res.get("ros-version", ""))] *)
Definition reports_ros7 (res : dict attr_value) : bool :=
  match dict_get res (lit "ros-version") with
  | Some (AStr v) => contains v 55
  | Some ATrue => contains (lit "True") 55
  | None => false
  end.

(** The [for ver in versions_to_try] loop of [_create_and_connect]. *)
Fixpoint try_versions (w : world) (versions : list Z) (m : manager)
    : result (option rid * Z) * manager :=
  match versions with
  | [] => (Ok (None, 0), m)
  | ver :: versions' =>
      let r := next_router m in
      let obj := RouterObj (if ver =? 7 then 7 else 6) false false in
      let m := set_next_router (S r) (set_routers (<[r := obj]> (routers m)) m) in
      match attempt_with w ver with
      | ConnectRaises x =>
          if router_client.is_Exception x then try_versions w versions' m
          else (Raise x, m)
      | ConnectFails => try_versions w versions' m
      | ResourceRaises x =>
          let m := set_routers (<[r := RouterObj (variant obj) true false]> (routers m)) m in
          if router_client.is_Exception x then try_versions w versions' m
          else (Raise x, m)
      | Resource res =>
          match res with
          | [] =>
              (* [await router.close()] *)
              let m := set_routers (<[r := RouterObj (variant obj) false true]> (routers m)) m in
              try_versions w versions' m
          | _ :: _ =>
              let m := set_routers (<[r := RouterObj (variant obj) true false]> (routers m)) m in
              (Ok (Some r, if reports_ros7 res then 7 else ver), m)
          end
      end
  end.

(** Auto-detect ROS version and connect. Returns [(router, version)]. *)
Definition _create_and_connect (w : world) (entry : RouterEntry) (m : manager)
    : result (option rid * Z) * manager :=
  let versions_to_try :=
    if (ros_version entry =? 6) || (ros_version entry =? 7)
    then [ros_version entry] else [7; 6] in
  try_versions w versions_to_try m.

(** [RouterEntry.to_dict] followed by [from_dict]: what a saved entry is. *)
Definition saved_entry (e : RouterEntry) : RouterEntry :=
  Entry (alias e) (host e) (username e) (password e) (port e) (use_ssl e)
    (ros_version e) (standalone e) (owner_id e) None 0.

Definition _save_registry (w : world) (m : manager) : result unit * manager :=
  match save_raises w with
  | Some x => (Raise x, m)
  | None =>
      (Ok tt,
       set_registry
         ((fun routers_ => map (fun kv => (kv.1, saved_entry kv.2)) routers_)
            <$> _entries m) m)
  end.

(** The two messages of [add_router]. *)
Inductive message :=
  | CannotConnect (host : str) (port : Z)
  | ConnectedTo (host : str) (version : Z) (alias : str).

(** The lines of [add_router] between its two awaits: they run without
    suspension. *)
Definition commit_entry (user_id : Z) (entry : RouterEntry) (m : manager) : manager :=
  let m :=
    match _entries m !! user_id with
    | None => set_entries (<[user_id := []]> (_entries m)) m
    | Some _ => m
    end in
  let m :=
    set_entries
      (<[user_id := dict_set (default [] (_entries m !! user_id)) (alias entry) entry]>
         (_entries m)) m in
  match _active m !! user_id with
  | None => set_active (<[user_id := Some (alias entry)]> (_active m)) m
  | Some _ => m
  end.

(** Add and connect to a router. Returns [(success, message)]. *)
Definition add_router (w : world) (user_id : Z) (alias_ host_ username_ password_ : str)
    (port_ : Z) (use_ssl_ : bool) (ros_version_ : Z) (standalone_ : bool)
    (m : manager) : result (bool * message) * manager :=
  let entry :=
    Entry alias_ host_ username_ password_ port_ use_ssl_ ros_version_ standalone_
      user_id None 0 in
  let '(r, m) := _create_and_connect w entry m in
  match r with
  | Raise x => (Raise x, m)
  | OutOfFuel => (OutOfFuel, m)
  | Ok (None, _) => (Ok (false, CannotConnect host_ port_), m)
  | Ok (Some router_, version) =>
      let entry :=
        Entry alias_ host_ username_ password_ port_ use_ssl_ ros_version_
          standalone_ user_id (Some router_) version in
      let m := commit_entry user_id entry m in
      let '(r, m) := _save_registry w m in
      match r with
      | Ok _ => (Ok (true, ConnectedTo host_ version alias_), m)
      | Raise x => (Raise x, m)
      | OutOfFuel => (OutOfFuel, m)
      end
  end.

(** [switch_router] *)
Definition switch_router (user_id : Z) (alias_ : str) (m : manager) : bool * manager :=
  match _entries m !! user_id with
  | Some routers_ =>
      match dict_get routers_ alias_ with
      | Some _ => (true, set_active (<[user_id := Some alias_]> (_active m)) m)
      | None => (false, m)
      end
  | None => (false, m)
  end.

(** [get_active_entry] *)
Definition get_active_entry (user_id : Z) (m : manager) : option RouterEntry :=
  match _active m !! user_id with
  | Some (Some ((_ :: _) as alias_)) =>
      dict_get (default [] (_entries m !! user_id)) alias_
  | _ => None
  end.

(** [RouterBase.close()] as the manager sees it. *)
Definition close_router (r : rid) (m : manager) : manager :=
  set_routers (alter (fun o => RouterObj (variant o) false true) r (routers m)) m.

(** [remove_router].  [close_raises] is what [entry.router.close()] raises,
    if anything: [RouterAPIClient.close] swallows every [Exception], so it can
    only be a cancellation. *)
Definition remove_router (w : world) (close_raises : option exn) (user_id : Z)
    (alias_ : str) (m : manager) : result bool * manager :=
  match _entries m !! user_id with
  | None => (Ok false, m)
  | Some routers_ =>
      match dict_get routers_ alias_ with
      | None => (Ok false, m)
      | Some entry =>
          let closing :=
            match router entry with
            | Some r =>
                (match close_raises with Some x => Raise x | None => Ok tt end,
                 close_router r m)
            | None => (Ok tt, m)
            end in
          match closing with
          | (Raise x, m) => (Raise x, m)
          | (OutOfFuel, m) => (OutOfFuel, m)
          | (Ok _, m) =>
              let m :=
                set_entries (<[user_id := dict_del routers_ alias_]> (_entries m)) m in
              let m :=
                if decide (default None (_active m !! user_id) = Some alias_) then
                  let remaining := dict_keys (default [] (_entries m !! user_id)) in
                  set_active (<[user_id := head remaining]> (_active m)) m
                else m in
              let '(r, m) := _save_registry w m in
              match r with
              | Ok _ => (Ok true, m)
              | Raise x => (Raise x, m)
              | OutOfFuel => (OutOfFuel, m)
              end
          end
      end
  end.

(** [get_active] *)
Definition get_active (user_id : Z) (m : manager) : option rid :=
  match _active m !! user_id with
  | Some (Some ((_ :: _) as alias_)) =>
      match dict_get (default [] (_entries m !! user_id)) alias_ with
      | Some entry => router entry
      | None => None
      end
  | _ => None
  end.

(** [has_routers] *)
Definition has_routers (user_id : Z) (m : manager) : bool :=
  match _entries m !! user_id with
  | Some (_ :: _) => true
  | _ => false
  end.

End router_manager.

(* ===================================================================== *)
(** * Part II.  The vocabulary of the claims                              *)
(* ===================================================================== *)

Module Spec.
Import api_protocol router_client router_manager.

(** ** The wire codec *)

(** The number of bytes the documentation gives each class of length. *)
Definition documented_width (n : Z) : Z :=
  if n <? 0x80 then 1
  else if n <? 0x4000 then 2
  else if n <? 0x200000 then 3
  else if n <? 0x10000000 then 4
  else 5.

(** The class marker in the first byte: the documented top bits. *)
Definition documented_marker (n : Z) (first : Z) : Prop :=
  if n <? 0x80 then first / 128 = 0
  else if n <? 0x4000 then first / 64 = 2
  else if n <? 0x200000 then first / 32 = 6
  else if n <? 0x10000000 then first / 16 = 14
  else first = 0xF0.

(** A [str] the strict encoder accepts. *)
Definition encodable (s : str) : Prop := Forall (fun c => utf8.is_scalar c = true) s.


(** A word the wire format can carry: not empty (the empty word is the
    terminator), accepted by the strict encoder, and of a length that fits
    the five-byte class. *)
Definition wire_word (w : str) : Prop :=
  w <> [] /\ exists data, utf8.encode w = Ok data /\ len data < 2 ^ 32.

(** Text made of ASCII characters only. *)
Definition all_ascii (w : str) : bool :=
  forallb (fun c => (0 <=? c) && (c <? 128)) w.

(** ** Responses *)

Definition is_kind (w : str) : bool := startswith w (lit "!").
Definition is_tag (w : str) : bool := startswith w (lit ".tag=").
Definition is_attr (w : str) : bool := startswith w (lit "=").
Definition is_query (w : str) : bool := startswith w (lit "?").

(** A word beginning with [=] is of the form [=key=value]. *)
Definition well_formed (w : str) : Prop :=
  is_attr w = true -> exists key value, w = lit "=" ++ key ++ lit "=" ++ value.

(** [s] cut at its first [=]: the text before it and the text after it. *)
Fixpoint split_eq (s : str) : option (str * str) :=
  match s with
  | [] => None
  | c :: s' =>
      if c =? 61 then Some ([], s')
      else (fun kv => (c :: kv.1, kv.2)) <$> split_eq s'
  end.

(** The entry a word adds to [attrs], if it adds one: an [=key=value] word
    adds [value] under [key], a [?] word adds [True] under the word itself. *)
Definition attr_of (w : str) : option (str * attr_value) :=
  match w with
  | c :: rest =>
      if c =? 61 then (fun kv => (kv.1, AStr kv.2)) <$> split_eq rest
      else if c =? 63 then Some (w, ATrue)
      else None
  | [] => None
  end.

(** The tag a [.tag=] word carries. *)
Definition tag_of (int : str -> option Z) (w : str) : tag_value :=
  match int (slice_from w 5) with
  | Some n => TagInt n
  | None => TagStr (slice_from w 5)
  end.

(** The mapping a list of writes amounts to: the last write of a key wins. *)
Definition last_write (writes : list (str * attr_value)) (key : str)
    : option attr_value :=
  (list_to_map (reverse writes) : gmap str attr_value) !! key.

(** ** The engine *)

(** The number of tags under which a queue is registered. *)
Definition registrations (e : engine) (q : qid) : nat :=
  length (filter (fun q' => q' = q) (map snd (map_to_list (pending e)))).



(** Other tasks that leave the transport and the tag counter alone. *)
Definition quiet (f : engine -> engine) : Prop :=
  forall e, connected (f e) = connected e /\ writer (f e) = writer e /\
            tag_counter (f e) = tag_counter e.

Definition quiet_script (s : script) : Prop := Forall (fun w => quiet (others w)) s.

(** What a quiet script preserves. *)
Definition same_transport (e e' : engine) : Prop :=
  connected e' = connected e /\ writer e' = writer e /\ tag_counter e' = tag_counter e.

(** The first round of the MD5 login: lines 148-150 of [_login_ros6]. *)
Definition first_round : M response :=
  tag ← _next_tag;
  sentence ← lift (build_sentence [lit "/login"; lit ".tag=" ++ str_of_int tag]);
  _send_raw sentence;;
  _read_one tag.

(** Its second round: lines 151-166. *)
Definition second_round (cfg : config) (resp : response) : M unit :=
  if type_is resp "!trap" then
    raise (APIError (LoginRejected (r_attrs resp)) (AStr []))
  else
    let challenge := attrs_get (r_attrs resp) "ret" (AStr []) in
    digest ← lift (md5_challenge_response (router_client.password cfg) challenge);
    tag2 ← _next_tag;
    sentence2 ← lift (build_sentence (login_response_words cfg digest tag2));
    _send_raw sentence2;;
    resp2 ← _read_one tag2;
    if type_is resp2 "!trap" then
      raise (APIError (AuthenticationFailed (r_attrs resp2)) (AStr []))
    else ret tt.

(** One turn of the receiver task seen from another coroutine: the chunk is
    appended to the buffer and dispatched. *)
Definition deliver (int : str -> option Z) (chunk : bytes) (e : engine) : engine :=
  ((modify (fun e => set_buf (buf e ++ chunk) e);; _dispatch_buf int) [] e).2.

(** A computation is orderly when it only consumes its script from the front
    and answers [OutOfFuel] only with the script used up: [OutOfFuel] then
    means "still suspended", never "the loop was cut short". *)
Definition orderly_at {A} (m : M A) (s : script) : Prop :=
  forall e r s' e',
    m s e = (r, s', e') ->
    (length s' <= length s)%nat /\ (r = OutOfFuel -> s' = []).

Definition orderly {A} (m : M A) : Prop := forall s, orderly_at m s.

(** It moreover suspends at least once before it returns a value. *)
Definition suspending_at {A} (m : M A) (s : script) : Prop :=
  forall e a s' e', m s e = (Ok a, s', e') -> (length s' < length s)%nat.

(** ** The manager *)

(** Every router object in the store was created before [next_router]. *)
Definition fresh_ids (m : manager) : Prop :=
  forall r, is_Some (routers m !! r) -> (r < next_router m)%nat.

(** [entries[user_id][alias]], if there is one. *)
Definition entry_of (m : manager) (user_id : Z) (alias_ : str) : option RouterEntry :=
  dict_get (default [] (_entries m !! user_id)) alias_.

(** What [_create_and_connect] leaves alone: the entries, the active
    aliases, the registry and every router object created earlier. *)
Definition creates_only (m m' : manager) (r : result (option rid * Z)) : Prop :=
  _entries m' = _entries m /\ _active m' = _active m /\ registry m' = registry m /\
  (next_router m <= next_router m')%nat /\
  (forall r0, (r0 < next_router m)%nat -> routers m' !! r0 = routers m !! r0) /\
  (forall rid v, r = Ok (Some rid, v) ->
     (next_router m <= rid < next_router m')%nat).

(** ** More vocabulary of the wire codec *)

(** The number of bytes of a length prefix, read off its first byte. *)
Definition length_width (first : Z) : Z :=
  if first <? 0x80 then 1
  else if first <? 0xC0 then 2
  else if first <? 0xE0 then 3
  else if first <? 0xF0 then 4
  else 5.

(** The lengths a prefix with that first byte can carry lie below this. *)
Definition length_bound (first : Z) : Z :=
  if first <? 0x80 then 0x80
  else if first <? 0xC0 then 0x4000
  else if first <? 0xE0 then 0x200000
  else if first <? 0xF0 then 0x10000000
  else 2 ^ 32.

(** A word [encode_word] accepts: the strict encoder takes it and its bytes
    are fewer than 2^32.  The empty word is one. *)
Definition fits (w : str) : Prop :=
  exists data, utf8.encode w = Ok data /\ len data < 2 ^ 32.

(** A word [parse_response] looks at. *)
Definition relevant (w : str) : bool := is_kind w || is_tag w || is_attr w || is_query w.

(** A lowercase hexadecimal digit. *)
Definition lower_hex (c : Z) : bool :=
  ((48 <=? c) && (c <=? 57)) || ((97 <=? c) && (c <=? 102)).

(** ** More vocabulary of the engine *)

(** [n] calls of [_next_tag] in a row, and the tags they return. *)
Fixpoint next_tags (n : nat) : M (list Z) :=
  match n with
  | O => ret []
  | S n' => t ← _next_tag; ts ← next_tags n'; ret (t :: ts)
  end.

(** The entries the words of [_build_words] stand for: each parameter with
    its value ([None] counts as the empty text), then each query word as a
    flag. *)
Definition sent_attrs (params : dict (option str)) (qs : list str) : dict attr_value :=
  map (fun kv => (kv.1, AStr (default [] kv.2))) params ++ map (fun q => (q, ATrue)) qs.

(** [d[k] = v] for each [(k, v)] of a list, in order. *)
Definition writes_all (d : dict attr_value) (ws : dict attr_value) : dict attr_value :=
  foldl (fun d kv => dict_set d kv.1 kv.2) d ws.

(** What [_dispatch_buf] may change besides the buffer: the queues, and
    those only by appending. *)
Definition delivered (e e' : engine) : Prop :=
  connected e' = connected e /\ has_reader e' = has_reader e /\
  writer e' = writer e /\ locked e' = locked e /\ tag_counter e' = tag_counter e /\
  pending e' = pending e /\ next_queue e' = next_queue e /\ conn_gen e' = conn_gen e /\
  forall q,
    match queues e !! q with
    | Some items => exists more, queues e' !! q = Some (items ++ more)
    | None => queues e' !! q = None
    end.

(** Where [_dispatch_buf] puts a response: into the queue registered under
    its integer tag, if there is one; otherwise the response is dropped. *)
Definition route (resp : response) (e : engine) : engine :=
  match r_tag resp with
  | Some (TagInt tag) =>
      match pending e !! tag with
      | Some q => put q resp e
      | None => e
      end
  | _ => e
  end.

(** A wake-up during which the receiver task puts [resp] into queue [q]. *)
Definition arrives (q : qid) (resp : response) : wake := Wake (put q resp) Completes.

(** A response [command] and [stream] take a row from. *)
Definition is_row (resp : response) : bool := type_is resp "!re".

(** A response that ends [command] and [stream]. *)
Definition terminal (resp : response) : bool :=
  type_is resp "!done" || type_is resp "!trap" || type_is resp "!fatal".

(** The [APIError] that [command] raises on a trap or fatal response: the
    [message] attribute, or else the text of all attributes, with the
    [category] attribute, or else the empty text. *)
Definition error_of (resp : response) : exn :=
  APIError
    (match dict_get (r_attrs resp) (lit "message") with
     | Some v => Message v
     | None => StrOfAttrs (r_attrs resp)
     end)
    (attrs_get (r_attrs resp) "category" (AStr [])).

(** How [command] ends on the response that ends it, with the rows it has
    collected. *)
Definition answer_of (rows : list (dict attr_value)) (fin : response)
    : result (list (dict attr_value)) :=
  if type_is fin "!done" then Ok rows else Raise (error_of fin).

(** Every registered queue was created earlier. *)
Definition registered_before (e : engine) : Prop :=
  forall t q, pending e !! t = Some q -> (q < next_queue e)%nat.

(** The engine after one round of a login: [sentence] written and drained,
    the response read from a fresh queue registered under [tag], and the tag
    released. *)
Definition after_round (tag : Z) (sentence : bytes) (written : list bytes) (e : engine)
    : engine :=
  set_pending (delete tag (<[tag := next_queue e]> (pending e)))
    (set_next_queue (S (next_queue e))
       (set_queues (<[next_queue e := []]> (queues e))
          (set_writer (Some (written ++ [sentence])) e))).


(** ** More vocabulary of the manager *)

(** An active alias names an entry of its user. *)
Definition active_valid (m : manager) : Prop :=
  forall u a, _active m !! u = Some (Some a) -> is_Some (entry_of m u a).

End Spec.
Export Spec.

(* ===================================================================== *)
(** * Part III.  Verification                                             *)
(* ===================================================================== *)

Import api_protocol.

(** ** Arithmetic and list lemmas *)

Ltac dm := Z.div_mod_to_equations; lia.

(** Decide every comparison of the goal, closing the impossible side. *)
Ltac cmp :=
  repeat match goal with
  | |- context [?a <? ?b] => destruct (Z.ltb_spec a b); try lia
  | |- context [?a <=? ?b] => destruct (Z.leb_spec a b); try lia
  | |- context [?a =? ?b] => destruct (Z.eqb_spec a b); try lia
  end.

Ltac run := cbn [mbind mret result_bind result_ret bind andb orb negb].

Lemma b2z_range b : 0 <= b2z b < 256.
Proof. unfold b2z. pose proof (Byte.to_N_bounded b). lia. Qed.

Lemma b2z_z2b z : b2z (z2b z) = z mod 256.
Proof.
  unfold b2z, z2b.
  assert (Hr : 0 <= z mod 256 < 256) by (apply Z.mod_pos_bound; lia).
  destruct (Byte.of_N (Z.to_N (z mod 256))) as [b|] eqn:E.
  - apply Byte.to_of_N in E. rewrite E. lia.
  - apply Byte.of_N_None_iff in E. lia.
Qed.

Lemma b2z_z2b_small z : 0 <= z < 256 -> b2z (z2b z) = z.
Proof. intros. rewrite b2z_z2b. apply Z.mod_small. lia. Qed.

Lemma z2b_b2z b : z2b (b2z b) = b.
Proof.
  unfold z2b, b2z. pose proof (Byte.to_N_bounded b).
  rewrite Z.mod_small by lia. rewrite N2Z.id, Byte.of_to_N. reflexivity.
Qed.

Lemma land_low_high n m k :
  0 <= k -> 0 <= n < 2 ^ k -> Z.land n (m * 2 ^ k) = 0.
Proof.
  intros Hk Hn. apply Z.bits_inj'. intros i Hi.
  rewrite Z.land_spec, Z.bits_0.
  destruct (Z.lt_ge_cases i k) as [Hlt|Hge].
  - rewrite Z.mul_pow2_bits_low by lia. apply andb_false_r.
  - assert (Z.testbit n i = false) as ->; [|reflexivity].
    destruct (Z.eq_dec n 0) as [->|Hne]; [apply Z.bits_0|].
    apply Z.bits_above_log2; [lia|].
    apply Z.lt_le_trans with k; [|lia].
    apply Z.log2_lt_pow2; lia.
Qed.

(** Or-ing a class marker above the value's bits adds it. *)
Lemma lor_marker n m k :
  0 <= k -> 0 <= n < 2 ^ k -> Z.lor n (m * 2 ^ k) = n + m * 2 ^ k.
Proof.
  intros. symmetry. apply Z.add_nocarry_lor. apply land_low_high; lia.
Qed.

Lemma len_nonneg {A} (l : list A) : 0 <= len l.
Proof. unfold len. lia. Qed.

Lemma len_app {A} (l1 l2 : list A) : len (l1 ++ l2) = len l1 + len l2.
Proof. unfold len. rewrite length_app. lia. Qed.

Lemma len_cons {A} (x : A) l : len (x :: l) = 1 + len l.
Proof. unfold len. cbn [length]. lia. Qed.

Lemma len_nil {A} : len (@nil A) = 0.
Proof. reflexivity. Qed.

Lemma slice_bound_id n i : 0 <= i <= n -> slice_bound n i = i.
Proof. intros. unfold slice_bound. cmp. Qed.

(** The element right after a prefix. *)
Lemma index_at {A} (pre : list A) x post :
  index (pre ++ x :: post) (len pre) = Ok x.
Proof.
  unfold index. pose proof (len_nonneg pre). rewrite len_app, len_cons.
  pose proof (len_nonneg post). cmp. run.
  unfold len. rewrite Nat2Z.id.
  rewrite lookup_app_r by lia. rewrite Nat.sub_diag. reflexivity.
Qed.

Lemma index_at_app {A} (pre : list A) x l post :
  index (pre ++ (x :: l) ++ post) (len pre) = Ok x.
Proof. apply index_at. Qed.

(** The slice that starts [a] after a prefix and spans the list [l]. *)
Lemma slice_at {A} (pre l0 l post : list A) a k :
  a = len l0 -> k = len l0 + len l ->
  slice (pre ++ l0 ++ l ++ post) (len pre + a) (len pre + k) = l.
Proof.
  intros -> ->. unfold slice. rewrite !len_app.
  pose proof (len_nonneg pre). pose proof (len_nonneg l0).
  pose proof (len_nonneg l). pose proof (len_nonneg post).
  rewrite !slice_bound_id by lia.
  replace (len pre + (len l0 + len l) - (len pre + len l0)) with (len l) by lia.
  replace (Z.to_nat (len pre + len l0)) with (length (pre ++ l0))
    by (rewrite length_app; unfold len; lia).
  rewrite (app_assoc pre l0), drop_app_length.
  unfold len. rewrite Nat2Z.id. apply take_app_length.
Qed.

Lemma slice_at0 {A} (pre l post : list A) k :
  k = len l -> slice (pre ++ l ++ post) (len pre) (len pre + k) = l.
Proof.
  intros ->. replace (len pre) with (len pre + 0) at 1 by lia.
  apply (slice_at pre [] l post); reflexivity.
Qed.

(** ** The length codec *)

Lemma encode_length_1 n : 0 <= n < 0x80 -> encode_length n = Ok [z2b n].
Proof. intros. unfold encode_length, struct.pack_B. cmp. reflexivity. Qed.

Lemma encode_length_2 n : 0x80 <= n < 0x4000 ->
  encode_length n = Ok [z2b ((n + 0x8000) / 256); z2b (n + 0x8000)].
Proof.
  intros. unfold encode_length, struct.pack_H.
  change 0x8000 with (1 * 2 ^ 15). rewrite lor_marker by lia.
  rewrite Z.shiftr_div_pow2 by lia. cmp. reflexivity.
Qed.

Lemma encode_length_3 n : 0x4000 <= n < 0x200000 ->
  encode_length n =
    Ok [z2b ((n + 0xC00000) / 65536); z2b ((n + 0xC00000) / 256); z2b (n + 0xC00000)].
Proof.
  intros. unfold encode_length, struct.pack_I.
  change 0xC00000 with (6 * 2 ^ 21). rewrite lor_marker by lia.
  rewrite !Z.shiftr_div_pow2 by lia. cmp. reflexivity.
Qed.

Lemma encode_length_4 n : 0x200000 <= n < 0x10000000 ->
  encode_length n =
    Ok [z2b ((n + 0xE0000000) / 16777216); z2b ((n + 0xE0000000) / 65536);
        z2b ((n + 0xE0000000) / 256); z2b (n + 0xE0000000)].
Proof.
  intros. unfold encode_length, struct.pack_I.
  change 0xE0000000 with (14 * 2 ^ 28). rewrite lor_marker by lia.
  rewrite !Z.shiftr_div_pow2 by lia. cmp. reflexivity.
Qed.

Lemma encode_length_5 n : 0x10000000 <= n < 2 ^ 32 ->
  encode_length n =
    Ok [xf0; z2b (n / 16777216); z2b (n / 65536); z2b (n / 256); z2b n].
Proof.
  intros. unfold encode_length, struct.pack_I.
  rewrite !Z.shiftr_div_pow2 by lia. cmp. reflexivity.
Qed.

(** Decoding an encoded length wherever it stands in a buffer. *)
Lemma decode_encode_length n l pre post :
  0 <= n < 2 ^ 32 -> encode_length n = Ok l ->
  decode_length (pre ++ l ++ post) (len pre) = Ok (n, len pre + len l).
Proof.
  intros Hn He. unfold decode_length.
  destruct (Z.lt_ge_cases n 0x80) as [H1|H1];
    [|destruct (Z.lt_ge_cases n 0x4000) as [H2|H2];
      [|destruct (Z.lt_ge_cases n 0x200000) as [H3|H3];
        [|destruct (Z.lt_ge_cases n 0x10000000) as [H4|H4]]]].
  - rewrite encode_length_1 in He by lia. injection He as <-.
    rewrite index_at_app. run. rewrite b2z_z2b_small by lia. cmp.
    reflexivity.
  - rewrite encode_length_2 in He by lia. injection He as <-.
    set (v := n + 0x8000). assert (0x8000 <= v < 0xC000) by (unfold v; lia).
    rewrite index_at_app. run. rewrite b2z_z2b.
    assert (Hq : (v / 256) mod 256 = v / 256) by dm. rewrite Hq.
    assert (0x80 <= v / 256 < 0xC0) by dm. cmp.
    rewrite (slice_at0 pre [_; _] post) by reflexivity.
    cbn [struct.unpack_H]. run. rewrite !b2z_z2b, Hq.
    change 0x3FFF with (Z.ones 14). rewrite Z.land_ones by lia.
    change (len [_; _]) with 2. f_equal. f_equal. unfold v in *. dm.
  - rewrite encode_length_3 in He by lia. injection He as <-.
    set (v := n + 0xC00000). assert (0xC00000 <= v < 0xE00000) by (unfold v; lia).
    rewrite index_at_app. run. rewrite b2z_z2b.
    assert (Hq : (v / 65536) mod 256 = v / 65536) by dm. rewrite Hq.
    assert (0xC0 <= v / 65536 < 0xE0) by dm. cmp.
    rewrite (slice_at0 pre [_; _; _] post) by reflexivity.
    cbn [struct.unpack_I]. run. rewrite !b2z_z2b, Hq.
    change (b2z "000") with 0.
    change 0x1FFFFF with (Z.ones 21). rewrite Z.land_ones by lia.
    change (len [_; _; _]) with 3. f_equal. f_equal. unfold v in *. dm.
  - rewrite encode_length_4 in He by lia. injection He as <-.
    set (v := n + 0xE0000000).
    assert (0xE0000000 <= v < 0xF0000000) by (unfold v; lia).
    rewrite index_at_app. run. rewrite b2z_z2b.
    assert (Hq : (v / 16777216) mod 256 = v / 16777216) by dm. rewrite Hq.
    assert (0xE0 <= v / 16777216 < 0xF0) by dm. cmp.
    rewrite (slice_at0 pre [_; _; _; _] post) by reflexivity.
    cbn [struct.unpack_I]. run. rewrite !b2z_z2b, Hq.
    change 0x0FFFFFFF with (Z.ones 28). rewrite Z.land_ones by lia.
    change (len [_; _; _; _]) with 4. f_equal. f_equal. unfold v in *. dm.
  - rewrite encode_length_5 in He by lia. injection He as <-.
    rewrite index_at_app. run. change (b2z xf0) with 0xF0. cmp.
    change (pre ++ [xf0; ?a; ?b; ?c; ?d] ++ post)
      with (pre ++ [xf0] ++ [a; b; c; d] ++ post).
    rewrite (slice_at pre [_] [_; _; _; _] post) by reflexivity.
    cbn [struct.unpack_I]. run. rewrite !b2z_z2b.
    change (len [_; _; _; _; _]) with 5. f_equal. f_equal. dm.
Qed.

Lemma encode_length_class n :
  0 <= n < 2 ^ 32 ->
  exists first rest,
    encode_length n = Ok (first :: rest) /\
    len (first :: rest) = documented_width n /\
    documented_marker n (b2z first).
Proof.
  intros Hn. unfold documented_width, documented_marker.
  destruct (Z.ltb_spec n 0x80); [|destruct (Z.ltb_spec n 0x4000);
    [|destruct (Z.ltb_spec n 0x200000); [|destruct (Z.ltb_spec n 0x10000000)]]].
  - rewrite encode_length_1 by lia. eexists _, _. split; [reflexivity|].
    split; [reflexivity|]. rewrite b2z_z2b. dm.
  - rewrite encode_length_2 by lia. eexists _, _. split; [reflexivity|].
    split; [reflexivity|]. rewrite b2z_z2b. dm.
  - rewrite encode_length_3 by lia. eexists _, _. split; [reflexivity|].
    split; [reflexivity|]. rewrite b2z_z2b. dm.
  - rewrite encode_length_4 by lia. eexists _, _. split; [reflexivity|].
    split; [reflexivity|]. rewrite b2z_z2b. dm.
  - rewrite encode_length_5 by lia. eexists _, _. split; [reflexivity|].
    split; reflexivity.
Qed.

(** ** The UTF-8 codec *)

Lemma is_scalar_spec c :
  utf8.is_scalar c = true <-> (0 <= c <= 0x10FFFF /\ ~ (0xD800 <= c <= 0xDFFF)).
Proof.
  unfold utf8.is_scalar. cmp; cbn; intuition (try lia; try discriminate).
Qed.

(** One encoded code point decodes to itself, whatever follows it. *)
Lemma decode_encode_char c rest :
  utf8.is_scalar c = true ->
  utf8.decode_values (utf8.encode_char c ++ rest) = c :: utf8.decode_values rest.
Proof.
  intros Hc. apply is_scalar_spec in Hc. unfold utf8.encode_char.
  destruct (Z.ltb_spec c 0x80);
    [|destruct (Z.ltb_spec c 0x800); [|destruct (Z.ltb_spec c 0x10000)]].
  - cbn [app utf8.decode_values]. cmp. reflexivity.
  - assert (Hq : 2 <= c / 64 < 32) by dm.
    assert (Hr : 0 <= c mod 64 < 64) by dm.
    assert (Hc' : c = 64 * (c / 64) + c mod 64) by dm.
    generalize dependent (c / 64). generalize dependent (c mod 64).
    intros r Hr q Hq Hc'.
    cbn [app utf8.decode_values]. unfold utf8.is_continuation. cmp.
    cbn [andb]. f_equal. lia.
  - assert (Hq : 0 <= c / 4096 < 16) by dm.
    assert (Hm : 0 <= (c / 64) mod 64 < 64) by dm.
    assert (Hr : 0 <= c mod 64 < 64) by dm.
    assert (Hc' : c = 4096 * (c / 4096) + 64 * ((c / 64) mod 64) + c mod 64) by dm.
    generalize dependent (c / 4096). generalize dependent ((c / 64) mod 64).
    generalize dependent (c mod 64). intros r Hr m Hm q Hq Hc'.
    cbn [app utf8.decode_values]. unfold utf8.second_of_3, utf8.is_continuation.
    cmp; cbn [andb]; f_equal; lia.
  - assert (Hq : 0 <= c / 262144 < 5) by dm.
    assert (Hn : 0 <= (c / 4096) mod 64 < 64) by dm.
    assert (Hm : 0 <= (c / 64) mod 64 < 64) by dm.
    assert (Hr : 0 <= c mod 64 < 64) by dm.
    assert (Hc' : c = 262144 * (c / 262144) + 4096 * ((c / 4096) mod 64)
                      + 64 * ((c / 64) mod 64) + c mod 64) by dm.
    generalize dependent (c / 262144). generalize dependent ((c / 4096) mod 64).
    generalize dependent ((c / 64) mod 64).
    generalize dependent (c mod 64). intros r Hr m Hm n Hn q Hq Hc'.
    cbn [app utf8.decode_values]. unfold utf8.second_of_4, utf8.is_continuation.
    cmp; cbn [andb]; f_equal; lia.
Qed.

(** The decoder on ill-formed input, as CPython answers it: a truncated
    sequence is one U+FFFD, an encoded surrogate and an overlong form are one
    U+FFFD per byte, and decoding resumes at the byte that broke a sequence. *)
Lemma decode_replace_examples :
  utf8.decode_replace [xe2; x82; xac] = [0x20AC] /\
  utf8.decode_replace [xe2; x82] = [0xFFFD] /\
  utf8.decode_replace [xed; xa0; x80] = [0xFFFD; 0xFFFD; 0xFFFD] /\
  utf8.decode_replace [xc0; x80] = [0xFFFD; 0xFFFD] /\
  utf8.decode_replace [xf0; x9f; x98; x41] = [0xFFFD; 0x41] /\
  utf8.decode_replace [xf4; x90; x80; x80] = [0xFFFD; 0xFFFD; 0xFFFD; 0xFFFD].
Proof. repeat split. Qed.

(** Every value the encoder produces is a byte. *)
Lemma encode_char_bytes c :
  utf8.is_scalar c = true ->
  map b2z (map z2b (utf8.encode_char c)) = utf8.encode_char c.
Proof.
  intros Hc. apply is_scalar_spec in Hc. unfold utf8.encode_char.
  cmp; cbn [map]; rewrite !b2z_z2b; repeat f_equal; dm.
Qed.

Lemma encode_char_nonempty c : utf8.encode_char c <> [].
Proof. unfold utf8.encode_char. cmp; discriminate. Qed.

Lemma encode_ok s :
  encodable s -> exists data, utf8.encode s = Ok data /\ utf8.decode_replace data = s
    /\ (s <> [] -> data <> []).
Proof.
  induction 1 as [|c s Hc Hs IH]; cbn [utf8.encode].
  - exists []. repeat split; congruence.
  - destruct IH as (data & -> & Hd & _). rewrite Hc. run.
    eexists. split; [reflexivity|]. split.
    + unfold utf8.decode_replace in *. rewrite map_app, encode_char_bytes by done.
      rewrite decode_encode_char by done. congruence.
    + intros _ E. apply app_eq_nil in E as [E _].
      apply map_eq_nil in E. by apply encode_char_nonempty in E.
Qed.

Lemma encode_encodable s data : utf8.encode s = Ok data -> encodable s.
Proof.
  revert data. induction s as [|c s IH]; intros data; cbn [utf8.encode].
  - constructor.
  - destruct (utf8.is_scalar c) eqn:Hc; [|discriminate].
    destruct (utf8.encode s) eqn:E; run; try discriminate.
    intros _. constructor; [done|]. by apply (IH a).
Qed.

(** ** Sentences *)

Lemma encode_word_ok w :
  wire_word w ->
  exists l data,
    encode_word w = Ok (l ++ data) /\ encode_length (len data) = Ok l /\
    utf8.decode_replace data = w /\ 0 < len data < 2 ^ 32 /\ l <> [].
Proof.
  intros (Hne & data & He & Hlen).
  destruct (encode_ok w (encode_encodable _ _ He)) as (data' & He' & Hd & Hn).
  rewrite He in He'. injection He' as <-.
  assert (0 < len data).
  { specialize (Hn Hne). destruct data; [done|]. rewrite len_cons.
    pose proof (len_nonneg data). lia. }
  destruct (encode_length_class (len data)) as (first & rest & El & _); [lia|].
  exists (first :: rest), data. unfold encode_word. rewrite He. run.
  rewrite El. run. repeat split; try done; lia.
Qed.

(** A sentence standing anywhere in a buffer is decoded whole: all its
    words in order, up to and including its terminator. *)
Lemma decode_loop_sentence ws :
  Forall wire_word ws ->
  forall body pre post acc fuel,
    join_words ws = Ok body ->
    (length ws < fuel)%nat ->
    decode_sentence_loop fuel (pre ++ body ++ x00 :: post) acc (len pre)
      = Ok (acc ++ ws, len pre + len body + 1).
Proof.
  induction 1 as [|w ws Hw Hws IH]; intros body pre post acc fuel Hj Hf.
  - injection Hj as <-. destruct fuel as [|fuel]; [cbn in Hf; lia|].
    cbn [decode_sentence_loop app]. rewrite len_app, len_cons.
    pose proof (len_nonneg pre). pose proof (len_nonneg post). cmp.
    unfold decode_length. rewrite index_at. run. change (b2z x00) with 0.
    cmp. run. cmp. rewrite app_nil_r. rewrite len_nil. do 2 f_equal. lia.
  - destruct (encode_word_ok w Hw) as (l & d & Ew & El & Hd & Hlen & Hl).
    cbn [join_words] in Hj. rewrite Ew in Hj. run.
    destruct (join_words ws) as [body'| |] eqn:Ej; run; try discriminate.
    injection Hj as <-.
    destruct fuel as [|fuel]; [cbn in Hf; lia|].
    cbn [decode_sentence_loop].
    pose proof (len_nonneg pre). pose proof (len_nonneg post).
    pose proof (len_nonneg l). pose proof (len_nonneg body').
    assert (Hdata : len (pre ++ ((l ++ d) ++ body') ++ x00 :: post)
              = len pre + len l + len d + len body' + 1 + len post).
    { rewrite !len_app, len_cons. lia. }
    rewrite Hdata. cmp.
    replace (pre ++ ((l ++ d) ++ body') ++ x00 :: post)
      with (pre ++ l ++ (d ++ body' ++ x00 :: post))
      by (rewrite <- !app_assoc; reflexivity).
    rewrite (decode_encode_length (len d) l pre) by (done || lia). run.
    cmp.
    replace (pre ++ l ++ d ++ body' ++ x00 :: post)
      with (pre ++ l ++ d ++ (body' ++ x00 :: post)) by reflexivity.
    replace (len pre + len l + len d) with (len pre + (len l + len d)) by lia.
    rewrite (slice_at pre l d) by reflexivity. rewrite Hd.
    replace (pre ++ l ++ d ++ body' ++ x00 :: post)
      with ((pre ++ l ++ d) ++ body' ++ x00 :: post)
      by (rewrite <- !app_assoc; reflexivity).
    replace (len pre + (len l + len d)) with (len (pre ++ l ++ d))
      by (rewrite !len_app; lia).
    rewrite (IH body' (pre ++ l ++ d) post (acc ++ [w]) fuel eq_refl)
      by (cbn in Hf; lia).
    rewrite <- app_assoc. cbn [app]. do 2 f_equal. rewrite !len_app. lia.
Qed.

Lemma join_words_length ws body :
  Forall wire_word ws -> join_words ws = Ok body -> (length ws <= length body)%nat.
Proof.
  intros H. revert body. induction H as [|w ws Hw Hws IH]; intros body Hj.
  - cbn. lia.
  - destruct (encode_word_ok w Hw) as (l & d & Ew & El & Hd & Hlen & Hl).
    cbn [join_words] in Hj. rewrite Ew in Hj. run.
    destruct (join_words ws) as [body'| |] eqn:Ej; run; try discriminate.
    injection Hj as <-. specialize (IH body' eq_refl).
    rewrite !length_app. cbn [length]. destruct l; [done|]. cbn [length]. lia.
Qed.

Lemma join_words_ok ws :
  Forall wire_word ws -> exists body, join_words ws = Ok body.
Proof.
  induction 1 as [|w ws Hw Hws [body IH]]; cbn [join_words]; [by eexists|].
  destruct (encode_word_ok w Hw) as (l & d & -> & _). run. rewrite IH. run.
  by eexists.
Qed.

Lemma unpack_H_nonneg l v : struct.unpack_H l = Ok v -> 0 <= v.
Proof.
  destruct l as [|b0 [|b1 [|]]]; try discriminate. intros [= <-].
  pose proof (b2z_range b0). pose proof (b2z_range b1). lia.
Qed.

Lemma unpack_I_nonneg l v : struct.unpack_I l = Ok v -> 0 <= v.
Proof.
  destruct l as [|b0 [|b1 [|b2 [|b3 [|]]]]]; try discriminate. intros [= <-].
  pose proof (b2z_range b0). pose proof (b2z_range b1).
  pose proof (b2z_range b2). pose proof (b2z_range b3). lia.
Qed.

(** A decoded length is not negative and the offset moves forward. *)
Lemma decode_length_progress data o n o' :
  decode_length data o = Ok (n, o') -> 0 <= n /\ o < o'.
Proof.
  unfold decode_length. destruct (index data o) as [b| |]; run; try discriminate.
  pose proof (b2z_range b).
  destruct (b2z b <? 0x80); [intros [= <- <-]; lia|].
  destruct (b2z b <? 0xC0).
  { destruct (struct.unpack_H _) as [v| |] eqn:E; run; try discriminate.
    intros [= <- <-]. apply unpack_H_nonneg in E.
    split; [apply Z.land_nonneg|]; lia. }
  destruct (b2z b <? 0xE0).
  { destruct (struct.unpack_I _) as [v| |] eqn:E; run; try discriminate.
    intros [= <- <-]. apply unpack_I_nonneg in E.
    split; [apply Z.land_nonneg|]; lia. }
  destruct (b2z b <? 0xF0).
  { destruct (struct.unpack_I _) as [v| |] eqn:E; run; try discriminate.
    intros [= <- <-]. apply unpack_I_nonneg in E.
    split; [apply Z.land_nonneg|]; lia. }
  destruct (struct.unpack_I _) as [v| |] eqn:E; run; try discriminate.
  intros [= <- <-]. apply unpack_I_nonneg in E. lia.
Qed.

Lemma decode_length_fuel data o : decode_length data o <> OutOfFuel.
Proof.
  unfold decode_length. destruct (index data o) as [b| |] eqn:Ei; run; try discriminate.
  - repeat match goal with
    | |- context [if ?c then _ else _] => destruct c
    | |- context [struct.unpack_H ?l] =>
        let E := fresh in destruct (struct.unpack_H l) eqn:E; run;
        [| |destruct l as [|? [|? [|]]]; discriminate]
    | |- context [struct.unpack_I ?l] =>
        let E := fresh in destruct (struct.unpack_I l) eqn:E; run;
        [| |destruct l as [|? [|? [|? [|? [|]]]]]; discriminate]
    end; discriminate.
  - unfold index in Ei.
    destruct (_ && _); [|discriminate].
    match type of Ei with match ?x with _ => _ end = _ => destruct x end;
      discriminate.
Qed.

(** The loop of [decode_sentence] ends within the fuel it is given. *)
Lemma decode_sentence_loop_total fuel : forall data acc o,
  (0 < fuel)%nat -> len data - o < Z.of_nat fuel ->
  decode_sentence_loop fuel data acc o <> OutOfFuel.
Proof.
  induction fuel as [|fuel IH]; intros data acc o Hpos Hf; [lia|].
  cbn [decode_sentence_loop].
  destruct (o <? len data) eqn:Ho; [|discriminate].
  destruct (len data <=? o); [discriminate|].
  destruct (decode_length data o) as [[n o']| |] eqn:Ed; run; try discriminate.
  - apply decode_length_progress in Ed as [Hn Ho'].
    destruct (Z.eqb_spec n 0); [discriminate|].
    destruct (Z.ltb_spec (len data) (o' + n)); [discriminate|].
    apply IH; lia.
  - by apply decode_length_fuel in Ed.
Qed.

Lemma decode_sentence_total data o : decode_sentence data o <> OutOfFuel.
Proof.
  unfold decode_sentence. apply decode_sentence_loop_total; lia.
Qed.

(** A sentence cut right before its terminator is read to the end of the
    buffer and returned as if it were complete. *)
Lemma decode_loop_unterminated ws :
  Forall wire_word ws ->
  forall body pre acc fuel,
    join_words ws = Ok body ->
    (length ws < fuel)%nat ->
    decode_sentence_loop fuel (pre ++ body) acc (len pre)
      = Ok (acc ++ ws, len pre + len body).
Proof.
  induction 1 as [|w ws Hw Hws IH]; intros body pre acc fuel Hj Hf.
  - injection Hj as <-. destruct fuel as [|fuel]; [cbn in Hf; lia|].
    cbn [decode_sentence_loop]. rewrite (app_nil_r pre), (app_nil_r acc).
    cmp. do 2 f_equal. change (len []) with 0. lia.
  - destruct (encode_word_ok w Hw) as (l & d & Ew & El & Hd & Hlen & Hl).
    cbn [join_words] in Hj. rewrite Ew in Hj. run.
    destruct (join_words ws) as [body'| |] eqn:Ej; run; try discriminate.
    injection Hj as <-.
    destruct fuel as [|fuel]; [cbn in Hf; lia|].
    cbn [decode_sentence_loop].
    pose proof (len_nonneg pre). pose proof (len_nonneg l).
    pose proof (len_nonneg body').
    assert (Hdata : len (pre ++ (l ++ d) ++ body')
              = len pre + len l + len d + len body').
    { rewrite !len_app. lia. }
    rewrite Hdata. cmp.
    replace (pre ++ (l ++ d) ++ body') with (pre ++ l ++ (d ++ body'))
      by (rewrite <- !app_assoc; reflexivity).
    rewrite (decode_encode_length (len d) l pre) by (done || lia). run.
    cmp.
    replace (len pre + len l + len d) with (len pre + (len l + len d)) by lia.
    rewrite (slice_at pre l d) by reflexivity. rewrite Hd.
    replace (pre ++ l ++ d ++ body') with ((pre ++ l ++ d) ++ body')
      by (rewrite <- !app_assoc; reflexivity).
    replace (len pre + (len l + len d)) with (len (pre ++ l ++ d))
      by (rewrite !len_app; lia).
    rewrite (IH body' (pre ++ l ++ d) (acc ++ [w]) fuel eq_refl)
      by (cbn in Hf; lia).
    rewrite <- app_assoc. cbn [app]. do 2 f_equal. rewrite !len_app. lia.
Qed.

(** ** The claims about the wire codec *)

(** C2.  For every length [0 <= n < 2^32] (the first four classes cover
    [n < 2^28], the fifth the rest), [encode_length n] succeeds,
    [decode_length] of its bytes at offset 0 returns [n] together with the
    number of bytes, that number is the documented width of the class of [n]
    (1, 2, 3, 4 or 5), and the first byte carries the documented marker
    (top bits 0, 10, 110, 1110, or the byte 0xF0).  In particular 127 is the
    single byte 0x7F, 128 is two bytes with top bits 10 and 16384 is three
    bytes with top bits 110. *)
Theorem length_roundtrip (n : Z) :
  0 <= n < 2 ^ 32 ->
  (exists first rest,
      encode_length n = Ok (first :: rest) /\
      decode_length (first :: rest) 0 = Ok (n, len (first :: rest)) /\
      len (first :: rest) = documented_width n /\
      documented_marker n (b2z first)) /\
  encode_length 127 = Ok [x7f] /\
  (exists b, encode_length 128 = Ok [x80; b] /\ b2z x80 / 64 = 2) /\
  (exists b c, encode_length 16384 = Ok [xc0; b; c] /\ b2z xc0 / 32 = 6).
Proof.
  intros Hn. split.
  - destruct (encode_length_class n Hn) as (first & rest & He & Hw & Hm).
    exists first, rest. repeat split; try done.
    pose proof (decode_encode_length n (first :: rest) [] [] Hn He) as Hd.
    rewrite app_nil_r in Hd. exact Hd.
  - split; [reflexivity|]. split; [by eexists|by eexists _, _].
Qed.

Lemma length_roundtrip_witness :
  0 <= 16384 < 2 ^ 32 /\
  exists first rest,
    encode_length 16384 = Ok (first :: rest) /\
    decode_length (first :: rest) 0 = Ok (16384, len (first :: rest)).
Proof.
  assert (H : 0 <= 16384 < 2 ^ 32) by lia.
  split; [exact H|].
  destruct (length_roundtrip 16384 H) as [(first & rest & He & Hd & _) _].
  exists first, rest. split; assumption.
Defined.

(** C3, as the code has it.  For every list [W] of words the wire format
    can carry (each encodable as UTF-8, not empty, shorter than 2^32 bytes),
    [build_sentence W] succeeds and [decode_sentence] of its bytes at offset
    0 returns exactly [W] and the number of bytes built, terminator
    included. *)
Theorem sentence_roundtrip (W : list str) :
  Forall wire_word W ->
  exists bs,
    build_sentence W = Ok bs /\
    decode_sentence bs 0 = Ok (W, len bs).
Proof.
  intros HW. destruct (join_words_ok W HW) as [body Hj].
  exists (body ++ [x00]). unfold build_sentence. rewrite Hj. run.
  split; [reflexivity|]. unfold decode_sentence.
  pose proof (decode_loop_sentence W HW body [] [] []) as H.
  cbn [app] in H. rewrite len_nil in H.
  rewrite H; [|done|].
  - rewrite len_app. reflexivity.
  - pose proof (join_words_length W body HW Hj).
    rewrite Z.sub_0_r. unfold len. rewrite Nat2Z.id, length_app. cbn. lia.
Qed.

Lemma wire_word_ab : wire_word (lit "ab").
Proof.
  split; [discriminate|]. eexists. split; [reflexivity|]. reflexivity.
Defined.

Lemma sentence_roundtrip_witness :
  exists bs,
    build_sentence [lit "ab"] = Ok bs /\
    decode_sentence bs 0 = Ok ([lit "ab"], len bs).
Proof.
  apply (sentence_roundtrip [lit "ab"]).
  constructor; [exact wire_word_ab|constructor].
Defined.

(** A word of 2^32 bytes or more has no length prefix: [struct.pack(">I", ...)]
    refuses the length. *)
Lemma encode_replicate_a n : utf8.encode (replicate n 97) = Ok (replicate n x61).
Proof.
  induction n as [|n IH]; [reflexivity|].
  cbn [replicate utf8.encode]. rewrite IH. reflexivity.
Qed.

Lemma encode_length_oversized n : 2 ^ 32 <= n -> encode_length n = Raise StructError.
Proof. intros Hn. unfold encode_length, struct.pack_I. cmp. reflexivity. Qed.

Lemma build_sentence_oversized n ws :
  2 ^ 32 <= Z.of_nat n ->
  build_sentence (replicate n 97 :: ws) = Raise StructError.
Proof.
  intros Hn. unfold build_sentence. cbn [join_words]. unfold encode_word.
  rewrite encode_replicate_a. run.
  rewrite encode_length_oversized; [reflexivity|].
  unfold len. by rewrite length_replicate.
Qed.

(** C3 as stated fails on an empty string: its encoding is the terminator
    byte, so decoding stops there.  It also fails on a word of 2^32 bytes
    ("a" repeated 2^32 times): no sentence is built. *)
Lemma sentence_roundtrip_counterexample :
  (exists bs,
     build_sentence [lit "a"; []; lit "b"] = Ok bs /\
     len bs = 6 /\
     decode_sentence bs 0 = Ok ([lit "a"], 3) /\
     decode_sentence bs 0 <> Ok ([lit "a"; []; lit "b"], len bs)) /\
  build_sentence [replicate (Z.to_nat (2 ^ 32)) 97] = Raise StructError.
Proof.
  split.
  - eexists. split; [reflexivity|]. split; [reflexivity|].
    split; [reflexivity|]. vm_compute. discriminate.
  - apply build_sentence_oversized. rewrite Z2Nat.id; lia.
Qed.

(** C4 fails on the code.  A strict prefix of an encoded sentence is not
    always answered [BufferError]:
    - the prefix that stops right before the terminator is decoded as a
      complete sentence (for every sentence of wire words);
    - a prefix that stops inside a multi-byte length raises [struct.error];
    - the empty prefix returns an empty list of words.
    Only a prefix that stops inside the bytes of a word is answered
    [BufferError]. *)
Theorem prefix_decoded_as_sentence (W : list str) (body : bytes) :
  Forall wire_word W -> join_words W = Ok body ->
  build_sentence W = Ok (body ++ [x00]) /\
  decode_sentence body 0 = Ok (W, len body) /\
  decode_sentence [x02; x61; x62] 0 = Ok ([lit "ab"], 3) /\
  decode_sentence [x81] 0 = Raise StructError /\
  decode_sentence [] 0 = Ok ([], 0) /\
  decode_sentence [x02; x61] 0 = Raise BufferError.
Proof.
  intros HW Hj. split; [unfold build_sentence; by rewrite Hj|].
  split; [|repeat split; reflexivity].
  unfold decode_sentence.
  pose proof (decode_loop_unterminated W HW body [] []) as H.
  cbn [app] in H. rewrite len_nil in H. apply H; [done|].
  pose proof (join_words_length W body HW Hj).
  rewrite Z.sub_0_r. unfold len. rewrite Nat2Z.id. lia.
Qed.

Lemma prefix_decoded_as_sentence_witness :
  build_sentence [lit "ab"] = Ok ([x02; x61; x62] ++ [x00]) /\
  decode_sentence [x02; x61; x62] 0 = Ok ([lit "ab"], len [x02; x61; x62]).
Proof.
  assert (HW : Forall wire_word [lit "ab"])
    by (constructor; [exact wire_word_ab|constructor]).
  destruct (prefix_decoded_as_sentence [lit "ab"] [x02; x61; x62] HW eq_refl)
    as (H1 & H2 & _).
  split; assumption.
Defined.

Import router_client.

(** ** Responses *)

Section parse_facts.
Variable int : str -> option Z.

Lemma split_eq_app key value : exists k v, split_eq (key ++ 61 :: value) = Some (k, v).
Proof.
  induction key as [|c key (k & v & IH)]; cbn [app split_eq]; [by eexists _, _|].
  destruct (c =? 61); [by eexists _, _|]. rewrite IH. by eexists _, _.
Qed.

Lemma slice_from_nonneg {A} (l : list A) i :
  0 <= i <= len l -> slice_from l i = drop (Z.to_nat i) l.
Proof. intros. unfold slice_from. by rewrite slice_bound_id. Qed.

Lemma slice_nonneg {A} (l : list A) a b :
  0 <= a <= b -> b <= len l ->
  slice l a b = take (Z.to_nat (b - a)) (drop (Z.to_nat a) l).
Proof. intros. unfold slice. by rewrite !slice_bound_id by lia. Qed.

Lemma split_eq_find rest k v :
  split_eq rest = Some (k, v) ->
  find_char 61 rest = Some (len k) /\ rest = k ++ 61 :: v.
Proof.
  revert k v. induction rest as [|c rest IH]; intros k v; cbn [split_eq find_char]; [done|].
  destruct (Z.eqb_spec c 61) as [->|Hc].
  - intros [= <- <-]. done.
  - destruct (split_eq rest) as [[k' v']|]; [|done]. cbn. intros [= <- <-].
    destruct (IH k' v' eq_refl) as [-> ->]. cbn. split; [|done].
    rewrite len_cons. f_equal. lia.
Qed.

(** What the code's [index] and slices compute on a well-formed word. *)
Lemma attr_slices rest k v :
  split_eq rest = Some (k, v) ->
  str_index (61 :: rest) 61 1 = Ok (1 + len k) /\
  slice (61 :: rest) 1 (1 + len k) = k /\
  slice_from (61 :: rest) (1 + len k + 1) = v.
Proof.
  intros H. apply split_eq_find in H as [Hf ->].
  pose proof (len_nonneg k). pose proof (len_nonneg v).
  assert (Hl : len (61 :: k ++ 61 :: v) = 2 + len k + len v)
    by (rewrite len_cons, len_app, len_cons; lia).
  unfold str_index. rewrite slice_from_nonneg by lia.
  change (Z.to_nat 1) with 1%nat. cbn [drop]. rewrite !drop_0, Hf.
  rewrite slice_bound_id by lia. split; [reflexivity|]. split.
  - rewrite slice_nonneg by lia. change (Z.to_nat 1) with 1%nat. cbn [drop].
    rewrite ?drop_0.
    replace (Z.to_nat (1 + len k - 1)) with (length k) by (unfold len; lia).
    by rewrite take_app_length.
  - rewrite slice_from_nonneg by lia.
    replace (Z.to_nat (1 + len k + 1)) with (S (length k + 1)) by (unfold len; lia).
    cbn [drop]. rewrite Nat.add_1_r. cbn [drop].
    change (k ++ 61 :: v) with (k ++ [61] ++ v). rewrite app_assoc.
    rewrite drop_app_length'; [done|]. rewrite length_app. cbn. lia.
Qed.

Lemma dict_get_set {V} (d : dict V) k v k' :
  dict_get (dict_set d k v) k' = if decide (k = k') then Some v else dict_get d k'.
Proof.
  induction d as [|[k0 v0] d IH]; cbn [dict_set dict_get].
  - destruct (decide (k = k')); reflexivity.
  - destruct (decide (k0 = k)) as [->|Hne]; cbn [dict_get].
    + destruct (decide (k = k')); reflexivity.
    + rewrite IH. destruct (decide (k0 = k')) as [->|]; [|reflexivity].
      destruct (decide (k = k')); [congruence|reflexivity].
Qed.

(** The four kinds of word are told apart by their first character. *)
Lemma word_kinds w :
  match w with
  | c :: _ =>
      is_kind w = (c =? 33) /\ is_attr w = (c =? 61) /\ is_query w = (c =? 63) /\
      (is_tag w = true -> c = 46)
  | [] => is_kind w = false /\ is_attr w = false /\ is_query w = false /\ is_tag w = false
  end.
Proof.
  destruct w as [|c w]; [done|]. unfold is_kind, is_attr, is_query, is_tag.
  cbn [lit startswith]. change (Z.of_N (N_of_ascii "!")) with 33.
  change (Z.of_N (N_of_ascii "=")) with 61. change (Z.of_N (N_of_ascii "?")) with 63.
  change (Z.of_N (N_of_ascii ".")) with 46.
  rewrite ?andb_true_r. repeat split.
  destruct (Z.eqb_spec c 46); [done|]. cbn. discriminate.
Qed.

(** The effect of one word on the response under construction. *)
Lemma parse_word_spec acc w :
  well_formed w ->
  exists acc',
    parse_word int acc w = Ok acc' /\
    r_type acc' = (if is_kind w then Some w else r_type acc) /\
    r_tag acc' = (if is_tag w then Some (tag_of int w) else r_tag acc) /\
    forall key,
      dict_get (r_attrs acc') key =
        match attr_of w with
        | Some (k, v) => if decide (k = key) then Some v else dict_get (r_attrs acc) key
        | None => dict_get (r_attrs acc) key
        end.
Proof.
  intros Hwf. unfold parse_word. fold (is_kind w) (is_tag w) (is_attr w) (is_query w).
  pose proof (word_kinds w) as Hk. unfold attr_of.
  destruct w as [|c w]; [destruct Hk as (-> & -> & -> & ->); by eexists|].
  destruct Hk as (-> & Ha & -> & Ht).
  destruct (Z.eqb_spec c 33) as [->|H33].
  { destruct (is_tag (33 :: w)) eqn:E; [specialize (Ht eq_refl); lia|].
    eexists. split; [reflexivity|]. cbn. done. }
  destruct (is_tag (c :: w)) eqn:E.
  { specialize (Ht eq_refl). subst c. cbn [Z.eqb Pos.eqb].
    unfold tag_of. destruct (int _); eexists; (split; [reflexivity|]); cbn; done. }
  rewrite Ha. destruct (Z.eqb_spec c 61) as [->|H61].
  { destruct (Hwf Ha) as (key & value & Hw). cbn [lit app] in Hw.
    change (Z.of_N (N_of_ascii "=")) with 61 in Hw. injection Hw as ->.
    destruct (split_eq_app key value) as (k & v & Hs).
    destruct (attr_slices _ _ _ Hs) as (Hi & Hkey & Hval).
    rewrite Hi. run. rewrite Hkey, Hval, Hs. cbn [fmap option_fmap option_map fst snd].
    eexists. split; [reflexivity|]. cbn [r_type r_tag r_attrs].
    split; [done|]. split; [done|]. intros key'. apply dict_get_set. }
  destruct (Z.eqb_spec c 63) as [->|H63].
  { eexists. split; [reflexivity|]. cbn [r_type r_tag r_attrs].
    split; [done|]. split; [done|]. intros key'. apply dict_get_set. }
  eexists. split; [reflexivity|]. done.
Qed.

(** The last element of a list. *)
Lemma last_filter_cons {A} (P : A -> bool) x l :
  last (filter P (x :: l))
  = match last (filter P l) with
    | Some y => Some y
    | None => if P x then Some x else None
    end.
Proof.
  rewrite filter_cons. destruct (decide (P x)) as [HP|HP].
  - rewrite (Is_true_eq_true _ HP). destruct (filter P l) as [|y l']; [done|].
    rewrite last_cons. destruct (last (y :: l')) eqn:E; [done|].
    by apply last_None in E.
  - destruct (P x); [by exfalso; apply HP|]. by destruct (last (filter P l)).
Qed.

Lemma last_write_cons k v writes key :
  last_write ((k, v) :: writes) key
  = match last_write writes key with
    | Some x => Some x
    | None => if decide (k = key) then Some v else None
    end.
Proof.
  unfold last_write. rewrite reverse_cons.
  induction (reverse writes) as [|[k0 v0] l IH]; cbn [app list_to_map foldr].
  - rewrite lookup_insert, !lookup_empty. reflexivity.
  - rewrite !lookup_insert. cbn [fst snd].
    destruct (decide (k0 = key)); [done|]. exact IH.
Qed.

Lemma parse_words_spec words : forall acc,
  Forall well_formed words ->
  exists r,
    parse_words int acc words = Ok r /\
    r_type r = match last (filter is_kind words) with
               | Some w => Some w | None => r_type acc end /\
    r_tag r = match last (filter is_tag words) with
              | Some w => Some (tag_of int w) | None => r_tag acc end /\
    forall key,
      dict_get (r_attrs r) key
      = match last_write (omap attr_of words) key with
        | Some v => Some v | None => dict_get (r_attrs acc) key end.
Proof.
  induction words as [|w words IH]; intros acc Hwf.
  - exists acc. done.
  - apply Forall_cons in Hwf as [Hw Hwf].
    destruct (parse_word_spec acc w Hw) as (acc' & Hp & Hty & Htg & Hat).
    destruct (IH acc' Hwf) as (r & Hr & Hty' & Htg' & Hat').
    exists r. cbn [parse_words]. rewrite Hp. run. split; [exact Hr|].
    rewrite !last_filter_cons, Hty', Htg', Hty, Htg.
    split; [by destruct (last (filter is_kind words)), (is_kind w)|].
    split; [by destruct (last (filter is_tag words)), (is_tag w)|].
    intros key. rewrite Hat', Hat. cbn [omap list_omap].
    destruct (attr_of w) as [[k v]|].
    + rewrite last_write_cons.
      by destruct (last_write (omap attr_of words) key), (decide (k = key)).
    + done.
Qed.

(** C7, as the code has it.  For every list of words in which each word
    beginning with [=] has the form [=key=value], [parse_response] returns a
    response such that: its kind is the last word beginning with [!] (the one
    such word when there is exactly one); its tag is the one carried by the
    last [.tag=] word, an integer when the suffix is one, and [None] when
    there is no such word; its [attrs] map every key to the value of the last
    word that writes it, where an [=key=value] word writes [value] under [key]
    and a word beginning with [?] writes [True] under the word itself. *)
Theorem parse_response_classifies (words : list str) :
  Forall well_formed words ->
  exists r,
    parse_response int words = Ok r /\
    r_type r = last (filter is_kind words) /\
    (forall w, filter is_kind words = [w] -> r_type r = Some w) /\
    r_tag r = tag_of int <$> last (filter is_tag words) /\
    (filter is_tag words = [] -> r_tag r = None) /\
    (forall w n, last (filter is_tag words) = Some w ->
       int (slice_from w 5) = Some n -> r_tag r = Some (TagInt n)) /\
    (forall key, dict_get (r_attrs r) key = last_write (omap attr_of words) key) /\
    (forall w key value, attr_of w = Some (key, value) ->
       (is_attr w = true /\ exists v, value = AStr v /\ w = lit "=" ++ key ++ lit "=" ++ v)
       \/ (is_query w = true /\ key = w /\ value = ATrue)).
Proof.
  intros Hwf. destruct (parse_words_spec words (Response None None []) Hwf)
    as (r & Hr & Hty & Htg & Hat).
  exists r. split; [exact Hr|]. cbn [r_type r_tag r_attrs dict_get] in *.
  assert (Hty' : r_type r = last (filter is_kind words))
    by (rewrite Hty; by destruct (last (filter is_kind words))).
  assert (Htg' : r_tag r = tag_of int <$> last (filter is_tag words))
    by (rewrite Htg; by destruct (last (filter is_tag words))).
  split; [exact Hty'|]. split; [intros w Hw; by rewrite Hty', Hw|].
  split; [exact Htg'|]. split; [intros Hn; by rewrite Htg', Hn|].
  split.
  { intros w n Hl Hn. rewrite Htg', Hl. cbn. unfold tag_of. by rewrite Hn. }
  split.
  { intros key. rewrite Hat. by destruct (last_write (omap attr_of words) key). }
  intros w key value. unfold attr_of. pose proof (word_kinds w) as Hk.
  destruct w as [|c w]; [done|]. destruct Hk as (_ & -> & -> & _).
  destruct (Z.eqb_spec c 61) as [->|].
  - destruct (split_eq w) as [[k v]|] eqn:Hs; [|done]. cbn. intros [= <- <-].
    left. split; [done|]. exists v. split; [done|].
    apply split_eq_find in Hs as [_ ->]. reflexivity.
  - destruct (Z.eqb_spec c 63) as [->|]; [|done]. intros [= <- <-]. by right.
Qed.
End parse_facts.

Lemma well_formed_sample :
  Forall well_formed
    [lit "!re"; lit "=name=ether1"; lit "=name=ether2"; lit "?running"; lit ".tag=7"].
Proof.
  repeat constructor; intros H; try discriminate H.
  - by exists (lit "name"), (lit "ether1").
  - by exists (lit "name"), (lit "ether2").
Defined.

Lemma parse_response_classifies_witness :
  exists r,
    parse_response int_decimal
      [lit "!re"; lit "=name=ether1"; lit "=name=ether2"; lit "?running"; lit ".tag=7"]
    = Ok r /\
    r_type r = Some (lit "!re") /\
    r_tag r = Some (TagInt 7) /\
    dict_get (r_attrs r) (lit "name") = Some (AStr (lit "ether2")) /\
    dict_get (r_attrs r) (lit "?running") = Some ATrue.
Proof.
  destruct (parse_response_classifies int_decimal _ well_formed_sample)
    as (r & Hr & Hty & _ & Htg & _ & _ & Hat & _).
  exists r. split; [exact Hr|]. split; [exact Hty|]. split; [exact Htg|].
  split; rewrite Hat; reflexivity.
Defined.

(** C7 as stated fails on a word that begins with [=] and has no second
    [=]: [word.index("=", 1)] raises [ValueError] and no response is built.
    And with no word of the form [.tag=<int>] the tag need not be [None]: a
    [.tag=] word whose suffix is not an integer sets the tag to that text. *)
Lemma parse_response_counterexample :
  parse_response int_decimal [lit "!re"; lit "=abc"; lit ".tag=7"] = Raise ValueError /\
  parse_response int_decimal [lit "!done"; lit ".tag=abc"]
  = Ok (Response (Some (lit "!done")) (Some (TagStr (lit "abc"))) []).
Proof. split; reflexivity. Qed.

(** ** ASCII words and numerals *)

Lemma all_ascii_app a b : all_ascii (a ++ b) = all_ascii a && all_ascii b.
Proof. apply forallb_app. Qed.

Lemma encode_ascii w : all_ascii w = true -> utf8.encode w = Ok (map z2b w).
Proof.
  induction w as [|c w IH]; cbn [all_ascii forallb utf8.encode map]; [done|].
  intros [Hc Hw]%andb_prop. fold (all_ascii w) in Hw. rewrite (IH Hw).
  assert (0 <= c < 128) by lia.
  assert (utf8.is_scalar c = true) as -> by (apply is_scalar_spec; lia).
  run. unfold utf8.encode_char. cmp. reflexivity.
Qed.

Lemma wire_word_ascii w :
  w <> [] -> all_ascii w = true -> len w < 2 ^ 32 -> wire_word w.
Proof.
  intros Hne Ha Hl. split; [done|]. exists (map z2b w).
  split; [by apply encode_ascii|]. unfold len in *. by rewrite length_map.
Qed.

Lemma digits_of_ascii fuel : forall n acc,
  0 <= n -> all_ascii acc = true -> all_ascii (digits_of fuel n acc) = true.
Proof.
  induction fuel as [|fuel IH]; intros n acc Hn Ha; cbn [digits_of]; [done|].
  assert (Ha' : all_ascii ((48 + n mod 10) :: acc) = true).
  { cbn [all_ascii forallb]. fold (all_ascii acc). rewrite Ha.
    assert (0 <= n mod 10 < 10) by (apply Z.mod_pos_bound; lia).
    apply andb_true_intro. split; [|done]. lia. }
  destruct (n <? 10); [done|]. apply IH; [|done]. apply Z.div_pos; lia.
Qed.

Lemma digits_of_length fuel : forall n acc,
  (length acc <= length (digits_of fuel n acc) <= fuel + length acc)%nat.
Proof.
  induction fuel as [|fuel IH]; intros n acc; cbn [digits_of]; [lia|].
  destruct (n <? 10); [cbn [length]; lia|].
  specialize (IH (n / 10) ((48 + n mod 10) :: acc)). cbn [length] in IH. lia.
Qed.

Lemma digits_of_nonempty fuel n acc : digits_of (S fuel) n acc <> [].
Proof.
  cbn [digits_of]. destruct (n <? 10); [done|].
  pose proof (digits_of_length fuel (n / 10) ((48 + n mod 10) :: acc)) as H.
  cbn [length] in H. intros E. rewrite E in H. cbn in H. lia.
Qed.

Lemma str_of_int_tag n :
  0 <= n < 65535 ->
  all_ascii (str_of_int n) = true /\ str_of_int n <> [] /\ len (str_of_int n) <= 17.
Proof.
  intros Hn. unfold str_of_int. destruct (Z.ltb_spec n 0); [lia|].
  split; [by apply digits_of_ascii|]. split; [apply digits_of_nonempty|].
  pose proof (digits_of_length (S (Z.to_nat (Z.log2 n))) n []) as Hl.
  cbn [length] in Hl. unfold len.
  assert (Z.log2 n < 16).
  { destruct (Z.eq_dec n 0) as [->|]; [cbn; lia|]. apply Z.log2_lt_pow2; lia. }
  pose proof (Z.log2_nonneg n). lia.
Qed.

Lemma join_words_wire ws :
  Forall wire_word ws -> exists bs, build_sentence ws = Ok bs.
Proof.
  intros H. destruct (join_words_ok ws H) as [body Hb].
  unfold build_sentence. rewrite Hb. run. by eexists.
Qed.

Lemma wire_word_lit_tag (prefix : str) n :
  prefix <> [] -> all_ascii prefix = true -> len prefix < 1000 ->
  0 <= n < 65535 -> wire_word (prefix ++ str_of_int n).
Proof.
  intros Hp Ha Hl Hn. destruct (str_of_int_tag n Hn) as (Hd & _ & Hlen).
  apply wire_word_ascii.
  - destruct prefix; done.
  - rewrite all_ascii_app, Ha, Hd. done.
  - rewrite len_app. lia.
Qed.


Lemma hex_digit_ascii v : 0 <= v < 16 ->
  (0 <=? hashlib.hex_digit v) && (hashlib.hex_digit v <? 128) = true.
Proof. intros. unfold hashlib.hex_digit. cmp; reflexivity. Qed.

Lemma hex_ascii data : all_ascii (hashlib.hex data) = true.
Proof.
  induction data as [|b data IH]; [done|].
  cbn [hashlib.hex flat_map app all_ascii forallb].
  pose proof (b2z_range b).
  rewrite !hex_digit_ascii by dm. exact IH.
Qed.

Lemma hex_length data : len (hashlib.hex data) = 2 * len data.
Proof.
  induction data as [|b data IH]; [done|].
  cbn [hashlib.hex flat_map app]. rewrite !len_cons.
  unfold hashlib.hex in IH. rewrite IH. lia.
Qed.

Lemma md5_digest_length msg : len (hashlib.md5_digest msg) = 16.
Proof.
  unfold hashlib.md5_digest. destruct (hashlib.blocks _ _ _) as [A B C D].
  unfold len. rewrite length_map, !length_app. reflexivity.
Qed.


(** ** Scheduling: the fuel of the loops is enough *)

Lemma orderly_ret {A} (a : A) : orderly (ret a).
Proof. intros s e r s' e' [= <- <- <-]. done. Qed.

Lemma orderly_raise {A} x : orderly (raise (A := A) x).
Proof. intros s e r s' e' [= <- <- <-]. done. Qed.

Lemma orderly_lift {A} (v : result A) : v <> OutOfFuel -> orderly (lift v).
Proof. intros Hv s e r s' e' [= <- <- <-]. done. Qed.

Lemma orderly_get : orderly get.
Proof. intros s e r s' e' [= <- <- <-]. done. Qed.

Lemma orderly_modify f : orderly (modify f).
Proof. intros s e r s' e' [= <- <- <-]. done. Qed.

Lemma orderly_suspend : orderly suspend.
Proof.
  intros [|w s] e r s' e'; cbn; intros [= <- <- <-]; [done|].
  split; [lia|done].
Qed.

Lemma orderly_seq_at {A B} (m : M A) (k : A -> M B) s :
  orderly_at m s ->
  (forall a s1, (length s1 <= length s)%nat -> orderly_at (k a) s1) ->
  orderly_at (seq m k) s.
Proof.
  intros Hm Hk e r s' e'. unfold seq.
  destruct (m s e) as [[r1 s1] e1] eqn:E. destruct (Hm _ _ _ _ E) as [Hl Hf].
  destruct r1 as [a| |].
  - intros H. destruct (Hk a s1 Hl _ _ _ _ H) as [Hl' Hf']. split; [lia|done].
  - intros [= <- <- <-]. done.
  - intros [= <- <- <-]. split; [lia|]. intros _. by apply Hf.
Qed.

Lemma orderly_seq {A B} (m : M A) (k : A -> M B) :
  orderly m -> (forall a, orderly (k a)) -> orderly (seq m k).
Proof. intros Hm Hk s. apply orderly_seq_at; [apply Hm|]. intros a s1 _. apply Hk. Qed.

Lemma orderly_bind {A B} (m : M A) (k : A -> M B) :
  orderly m -> (forall a, orderly (k a)) -> orderly (m ≫= k).
Proof. apply orderly_seq. Qed.

Lemma orderly_try_finally {A} (body : M A) fin :
  orderly body -> orderly fin -> orderly (try_finally body fin).
Proof.
  intros Hb Hf s e r s' e'. unfold try_finally.
  destruct (body s e) as [[r1 s1] e1] eqn:E. destruct (Hb _ _ _ _ _ E) as [Hl Ho].
  destruct r1 as [a| x|].
  - destruct (fin s1 e1) as [[rf s2] e2] eqn:F. destruct (Hf _ _ _ _ _ F) as [Hl' Ho'].
    destruct rf; intros [= <- <- <-]; (split; [lia|]);
      first [done | intros _; by apply Ho'].
  - destruct (fin s1 e1) as [[rf s2] e2] eqn:F. destruct (Hf _ _ _ _ _ F) as [Hl' Ho'].
    destruct rf; intros [= <- <- <-]; (split; [lia|]);
      first [done | intros _; by apply Ho'].
  - intros [= <- <- <-]. split; [lia|]. intros _. by apply Ho.
Qed.

Lemma orderly_try_except {A} (body : M A) handler :
  orderly body -> (forall x, orderly (handler x)) ->
  orderly (try_except_Exception body handler).
Proof.
  intros Hb Hh s e r s' e'. unfold try_except_Exception.
  destruct (body s e) as [[r1 s1] e1] eqn:E. destruct (Hb _ _ _ _ _ E) as [Hl Ho].
  destruct r1 as [a| x|].
  - intros [= <- <- <-]. done.
  - destruct (is_Exception x).
    + intros H. destruct (Hh x _ _ _ _ _ H) as [Hl' Ho']. split; [lia|done].
    + intros [= <- <- <-]. done.
  - intros [= <- <- <-]. split; [lia|]. intros _. by apply Ho.
Qed.

Lemma orderly_await_unit : orderly await_unit.
Proof.
  apply orderly_bind; [apply orderly_suspend|].
  intros [| |x]; [apply orderly_ret..|apply orderly_raise].
Qed.

Lemma orderly_read : orderly read.
Proof.
  apply orderly_bind; [apply orderly_suspend|].
  intros [| |x]; [apply orderly_ret..|apply orderly_raise].
Qed.

Lemma suspending_read s : suspending_at read s.
Proof.
  intros e a s' e'. cbv [read suspend mbind M_bind seq ret raise].
  destruct s as [|w s]; [discriminate|].
  destruct (outcome w); intros [= <- <- <-]; cbn; lia.
Qed.

Lemma suspending_await_unit s : suspending_at await_unit s.
Proof.
  intros e a s' e'. cbv [await_unit suspend mbind M_bind seq ret raise].
  destruct s as [|w s]; [discriminate|].
  destruct (outcome w); intros [= <- <- <-]; cbn; lia.
Qed.

(** Fuel above the length of the script is enough for every loop. *)
Lemma orderly_wait_for_get fuel : forall q s,
  (length s < fuel)%nat ->
  orderly_at (wait_for_get fuel q) s /\ suspending_at (wait_for_get fuel q) s.
Proof.
  induction fuel as [|fuel IH]; intros q s Hf; [lia|].
  cbv [orderly_at suspending_at].
  cbv [wait_for_get suspend mbind M_bind seq get modify ret mret M_ret raise].
  fold wait_for_get.
  destruct s as [|w s].
  { split; intros e; intros; simplify_eq; done. }
  cbn [length] in Hf. destruct (IH q s ltac:(lia)) as [IHo IHs].
  split; intros e.
  - intros r s' e'. destruct (outcome w).
    + destruct (queues (others w e) !! q) as [[|item rest]|].
      * intros H. destruct (IHo _ _ _ _ H). cbn [length]. split; [lia|done].
      * intros [= <- <- <-]. cbn [length]. split; [lia|done].
      * intros H. destruct (IHo _ _ _ _ H). cbn [length]. split; [lia|done].
    + destruct (queues (others w e) !! q) as [[|item rest]|].
      * intros H. destruct (IHo _ _ _ _ H). cbn [length]. split; [lia|done].
      * intros [= <- <- <-]. cbn [length]. split; [lia|done].
      * intros H. destruct (IHo _ _ _ _ H). cbn [length]. split; [lia|done].
    + intros [= <- <- <-]. cbn [length]. split; [lia|done].
  - intros a s' e'. destruct (outcome w).
    + destruct (queues (others w e) !! q) as [[|item rest]|].
      * intros H. pose proof (IHs _ _ _ _ H). cbn [length]. lia.
      * intros [= <- <- <-]. cbn [length]. lia.
      * intros H. pose proof (IHs _ _ _ _ H). cbn [length]. lia.
    + destruct (queues (others w e) !! q) as [[|item rest]|].
      * intros H. pose proof (IHs _ _ _ _ H). cbn [length]. lia.
      * intros [= <- <- <-]. cbn [length]. lia.
      * intros H. pose proof (IHs _ _ _ _ H). cbn [length]. lia.
    + discriminate.
Qed.

Lemma orderly_get_item q : orderly (with_fuel (fun fuel => wait_for_get fuel q)).
Proof. intros s. unfold with_fuel. apply orderly_wait_for_get. lia. Qed.

Lemma suspending_get_item q s :
  suspending_at (with_fuel (fun fuel => wait_for_get fuel q)) s.
Proof. unfold with_fuel. apply orderly_wait_for_get. lia. Qed.

Lemma orderly_acquire fuel : forall s, (length s < fuel)%nat -> orderly_at (acquire fuel) s.
Proof.
  induction fuel as [|fuel IH]; intros s Hf; [lia|].
  intros e r s' e'.
  cbv [acquire await_unit suspend mbind M_bind seq get modify ret mret M_ret raise].
  fold acquire.
  destruct (locked e); [|intros [= <- <- <-]; done].
  destruct s as [|w s]; [intros [= <- <- <-]; done|]. cbn [length] in Hf.
  destruct (outcome w) as [| |x].
  - intros H. destruct (IH s ltac:(lia) _ _ _ _ H). cbn [length]. split; [lia|done].
  - intros H. destruct (IH s ltac:(lia) _ _ _ _ H). cbn [length]. split; [lia|done].
  - intros [= <- <- <-]. cbn [length]. split; [lia|done].
Qed.

Lemma orderly_with_lock {A} (body : M A) : orderly body -> orderly (with_lock body).
Proof.
  intros Hb. apply orderly_bind.
  - intros s. unfold with_fuel. apply orderly_acquire. lia.
  - intros _. apply orderly_try_finally; [done|apply orderly_modify].
Qed.

(** The pure calls never run out of fuel: they have no loop of their own
    but [decode_sentence], whose fuel is enough. *)
Lemma encode_length_fuel n : encode_length n <> OutOfFuel.
Proof.
  unfold encode_length, struct.pack_B, struct.pack_H, struct.pack_I.
  repeat match goal with |- context [if ?c then _ else _] => destruct c end;
    run; discriminate.
Qed.

Lemma utf8_encode_fuel s : utf8.encode s <> OutOfFuel.
Proof.
  induction s as [|c s IH]; cbn [utf8.encode]; [discriminate|].
  destruct (utf8.is_scalar c); [|discriminate].
  destruct (utf8.encode s); run; done.
Qed.

Lemma encode_word_fuel w : encode_word w <> OutOfFuel.
Proof.
  unfold encode_word. pose proof (utf8_encode_fuel w).
  destruct (utf8.encode w) as [data| |]; run; try done.
  pose proof (encode_length_fuel (len data)).
  destruct (encode_length (len data)); run; done.
Qed.

Lemma build_sentence_fuel ws : build_sentence ws <> OutOfFuel.
Proof.
  unfold build_sentence.
  assert (H : join_words ws <> OutOfFuel).
  { induction ws as [|w ws IH]; cbn [join_words]; [discriminate|].
    pose proof (encode_word_fuel w). destruct (encode_word w); run; try done.
    destruct (join_words ws); run; done. }
  destruct (join_words ws); run; done.
Qed.

Lemma fromhex_fuel s : hashlib.fromhex s <> OutOfFuel.
Proof.
  assert (H : forall n s, (length s <= n)%nat -> hashlib.fromhex s <> OutOfFuel).
  { clear s. induction n as [|n IH]; intros [|c s] Hl; cbn [hashlib.fromhex];
      try discriminate; cbn [length] in Hl; [lia|].
    destruct (hashlib.is_space c); [apply IH; lia|].
    destruct (hashlib.hex_value c); [|discriminate].
    destruct s as [|d s]; [discriminate|].
    destruct (hashlib.hex_value d); [|discriminate].
    assert (hashlib.fromhex s <> OutOfFuel) by (apply IH; cbn [length] in Hl; lia).
    destruct (hashlib.fromhex s); run; done. }
  by apply (H (length s)).
Qed.

Lemma md5_challenge_response_fuel pw ch : md5_challenge_response pw ch <> OutOfFuel.
Proof.
  unfold md5_challenge_response. destruct ch as [s|]; run; [|discriminate].
  pose proof (fromhex_fuel s). destruct (hashlib.fromhex s); run; try done.
  pose proof (utf8_encode_fuel pw). destruct (utf8.encode pw); run; done.
Qed.

Lemma parse_response_fuel int ws : parse_response int ws <> OutOfFuel.
Proof.
  unfold parse_response. generalize (Response None None []).
  induction ws as [|w ws IH]; intros acc; cbn [parse_words]; [discriminate|].
  assert (H : parse_word int acc w <> OutOfFuel).
  { unfold parse_word, str_index.
    repeat match goal with
    | |- context [if ?c then _ else _] => destruct c
    | |- context [match ?x with Some _ => _ | None => _ end] => destruct x
    end; run; discriminate. }
  destruct (parse_word int acc w); run; done.
Qed.

(** A sentence with a word in it ends after the offset it starts at. *)
Lemma decode_sentence_loop_progress fuel : forall data acc o ws o',
  decode_sentence_loop fuel data acc o = Ok (ws, o') ->
  o <= o' /\ (length acc <= length ws)%nat /\ ((length acc < length ws)%nat -> o < o').
Proof.
  induction fuel as [|fuel IH]; intros data acc o ws o'; cbn [decode_sentence_loop];
    [discriminate|].
  destruct (o <? len data); [|intros [= <- <-]; lia].
  destruct (len data <=? o); [intros [= <- <-]; lia|].
  destruct (decode_length data o) as [[n o1]| |] eqn:Ed; run; try discriminate.
  apply decode_length_progress in Ed as [Hn Ho].
  destruct (Z.eqb_spec n 0); [intros [= <- <-]; lia|].
  destruct (len data <? o1 + n); [discriminate|].
  intros H. apply IH in H as (H1 & H2 & H3). rewrite length_app in *. cbn [length] in *.
  lia.
Qed.

Lemma decode_sentence_progress data o w ws o' :
  decode_sentence data o = Ok (w :: ws, o') -> o < o'.
Proof.
  intros H. apply decode_sentence_loop_progress in H as (_ & _ & H).
  apply H. cbn. lia.
Qed.

Section dispatch_progress.
Variable int : str -> option Z.
Variable cfg : config.

(** [_dispatch_buf] always returns or raises, without suspending, and leaves
    the buffer to its caller. *)
Lemma dispatch_while_total fuel : forall offset s e r s' e',
  (0 < fuel)%nat -> len (buf e) - offset < Z.of_nat fuel ->
  dispatch_while int fuel offset s e = (r, s', e') ->
  r <> OutOfFuel /\ s' = s /\ buf e' = buf e.
Proof.
  induction fuel as [|fuel IH]; intros offset s e r s' e' Hpos Hf; [lia|].
  cbv [dispatch_while mbind M_bind seq get modify ret mret M_ret raise lift out_of_fuel].
  fold (dispatch_while int).
  destruct (Z.ltb_spec offset (len (buf e))) as [Hlt|Hge];
    [|intros [= <- <- <-]; done].
  pose proof (decode_sentence_total (buf e) offset) as Htot.
  destruct (decode_sentence (buf e) offset) as [[[|w ws] o']|x|] eqn:Ed; [| | |done].
  - intros H. apply IH in H; [done|lia|lia].
  - apply decode_sentence_progress in Ed.
    pose proof (parse_response_fuel int (w :: ws)) as Hp.
    destruct (parse_response int (w :: ws)) as [resp|x|]; [| |done].
    + assert (Hput : forall q, buf (put q resp e) = buf e) by done.
      destruct (r_tag resp) as [[tag|]|];
        [destruct (pending e !! tag)|..];
        intros H; apply IH in H; rewrite ?Hput in *; try done; lia.
    + intros [= <- <- <-]. done.
  - destruct x; intros [= <- <- <-]; done.
Qed.

Lemma orderly_dispatch_buf : orderly (_dispatch_buf int).
Proof.
  intros s e r s' e'.
  cbv [_dispatch_buf mbind M_bind seq get modify ret mret M_ret].
  destruct (dispatch_while int (S (length (buf e))) 0 s e) as [[r1 s1] e1] eqn:E.
  apply dispatch_while_total in E as (Hr & -> & _); [|lia|unfold len; lia].
  destruct r1; intros [= <- <- <-]; done.
Qed.
End dispatch_progress.

Lemma orderly_seq_suspending {A B} (m : M A) (k : A -> M B) s :
  orderly_at m s -> suspending_at m s ->
  (forall a s1, (length s1 < length s)%nat -> orderly_at (k a) s1) ->
  orderly_at (seq m k) s.
Proof.
  intros Hm Hs Hk e r s' e'. unfold seq.
  destruct (m s e) as [[r1 s1] e1] eqn:E. destruct (Hm _ _ _ _ E) as [Hl Hf].
  destruct r1 as [a| |].
  - pose proof (Hs _ _ _ _ E) as Hlt.
    intros H. destruct (Hk a s1 Hlt _ _ _ _ H) as [Hl' Hf']. split; [lia|done].
  - intros [= <- <- <-]. done.
  - intros [= <- <- <-]. split; [lia|]. intros _. by apply Hf.
Qed.

Lemma orderly_next_tag : orderly _next_tag.
Proof.
  apply orderly_bind; [apply orderly_get|]. intros e.
  apply orderly_bind; [apply orderly_modify|]. intros _. apply orderly_ret.
Qed.

Lemma orderly_new_queue : orderly new_queue.
Proof.
  apply orderly_bind; [apply orderly_get|]. intros e.
  apply orderly_bind; [apply orderly_modify|]. intros _. apply orderly_ret.
Qed.

Lemma orderly_send_raw data : orderly (_send_raw data).
Proof.
  apply orderly_bind; [apply orderly_get|]. intros e.
  destruct (connected e); [|apply orderly_raise].
  destruct (writer e); [|apply orderly_raise].
  apply orderly_bind; [apply orderly_modify|]. intros _. apply orderly_await_unit.
Qed.

Lemma orderly_read_one tag : orderly (_read_one tag).
Proof.
  apply orderly_bind; [apply orderly_new_queue|]. intros q.
  apply orderly_bind; [apply orderly_modify|]. intros _.
  apply orderly_try_finally; [apply orderly_get_item|apply orderly_modify].
Qed.

Lemma orderly_send_sentence words :
  orderly (sentence ← lift (build_sentence words); _send_raw sentence).
Proof.
  apply orderly_bind; [apply orderly_lift, build_sentence_fuel|].
  intros sentence. apply orderly_send_raw.
Qed.

Lemma orderly_command_while fuel : forall q results s,
  (length s < fuel)%nat -> orderly_at (command_while fuel q results) s.
Proof.
  induction fuel as [|fuel IH]; intros q results s Hf; [lia|].
  cbn [command_while]. apply orderly_seq_suspending;
    [apply orderly_get_item|apply suspending_get_item|].
  intros resp s1 Hs1.
  destruct (type_is resp "!re"); [apply IH; lia|].
  destruct (type_is resp "!done"); [apply orderly_ret|].
  destruct (type_is resp "!trap" || type_is resp "!fatal"); [apply orderly_raise|].
  apply IH. lia.
Qed.

(** [command] answers [OutOfFuel] only while it is still suspended at the
    end of its script. *)
Lemma orderly_command path params queries : orderly (command path params queries).
Proof.
  apply orderly_bind; [apply orderly_next_tag|]. intros tag.
  apply orderly_bind; [apply orderly_new_queue|]. intros q.
  apply orderly_bind; [apply orderly_modify|]. intros _.
  apply orderly_try_finally; [|apply orderly_modify].
  apply orderly_bind; [apply orderly_with_lock, orderly_send_sentence|].
  intros _ s. unfold with_fuel. apply orderly_command_while. lia.
Qed.

Section coroutine_progress.
Variable int : str -> option Z.
Variable cfg : config.

Lemma orderly_catch_read : orderly (catch_OSError read).
Proof.
  intros s e r s' e'. unfold catch_OSError.
  destruct (read s e) as [[r1 s1] e1] eqn:E.
  destruct (orderly_read _ _ _ _ _ E) as [Hl Ho].
  destruct r1 as [a|x|];
    [| |intros [= <- <- <-]; split; [lia|intros _; by apply Ho]].
  - intros [= <- <- <-]. done.
  - destruct (as_OSError x); intros [= <- <- <-]; done.
Qed.

Lemma suspending_catch_read s : suspending_at (catch_OSError read) s.
Proof.
  intros e a s' e'. cbv [catch_OSError read suspend mbind M_bind seq ret raise].
  destruct s as [|w s]; [discriminate|].
  destruct (outcome w) as [| |x]; try (intros [= <- <- <-]; cbn; lia).
  destruct (as_OSError x); intros [= <- <- <-]; cbn; lia.
Qed.

Lemma orderly_receiver_while fuel : forall gen retries s,
  (length s < fuel)%nat -> orderly_at (receiver_while int fuel gen retries) s.
Proof.
  induction fuel as [|fuel IH]; intros gen retries s Hf; [lia|].
  cbn [receiver_while].
  apply orderly_seq_at; [apply orderly_get|]. intros e s0 Hs0.
  destruct (connected e && has_reader e && (conn_gen e =? gen)); [|apply orderly_ret].
  apply orderly_seq_suspending; [apply orderly_catch_read|apply suspending_catch_read|].
  intros [chunk|winerror] s1 Hs1.
  - destruct chunk as [|b chunk]; [apply orderly_ret|].
    apply orderly_seq_at; [apply orderly_modify|]. intros _ s2 Hs2.
    apply orderly_seq_at; [apply orderly_dispatch_buf|]. intros _ s3 Hs3.
    apply IH. lia.
  - destruct (is_transient winerror && (retries <? _MAX_TRANSIENT_RETRIES));
      [|apply orderly_ret].
    apply orderly_seq_at; [apply orderly_await_unit|]. intros _ s2 Hs2.
    apply IH. lia.
Qed.

(** [_receiver_loop] answers [OutOfFuel] only while it is still waiting for
    its transport at the end of its script. *)
Lemma orderly_receiver_loop gen : orderly (_receiver_loop int gen).
Proof.
  apply orderly_try_finally; [|apply orderly_modify].
  intros s e r s' e'. unfold receiver_try, with_fuel.
  destruct (receiver_while int (S (length s)) gen 0 s e) as [[r1 s1] e1] eqn:E.
  destruct (orderly_receiver_while (S (length s)) gen 0 s ltac:(lia) _ _ _ _ E)
    as [Hl Ho].
  destruct r1 as [a|x|];
    [| |intros [= <- <- <-]; split; [lia|intros _; by apply Ho]].
  - intros [= <- <- <-]. done.
  - destruct x; cbn [is_Exception]; intros [= <- <- <-]; done.
Qed.

Lemma orderly_stream_while fuel : forall q s,
  (length s < fuel)%nat -> orderly_at (stream_while fuel q) s.
Proof.
  induction fuel as [|fuel IH]; intros q s Hf; [lia|].
  cbn [stream_while]. apply orderly_seq_suspending;
    [apply orderly_get_item|apply suspending_get_item|].
  intros resp s1 Hs1.
  destruct (type_is resp "!re"); [apply orderly_ret|].
  destruct (type_is resp "!done"); [apply orderly_ret|].
  destruct (type_is resp "!trap" || type_is resp "!fatal"); [apply orderly_raise|].
  apply IH. lia.
Qed.

Lemma orderly_stream_finally tag : orderly (stream_finally tag).
Proof.
  apply orderly_bind; [|intros _; apply orderly_modify].
  apply orderly_try_except; [|intros _; apply orderly_ret].
  apply orderly_bind; [apply orderly_next_tag|]. intros cancel_tag.
  apply orderly_send_sentence.
Qed.

(** A resumed generator answers [OutOfFuel] only while it is still suspended
    at the end of its script. *)
Lemma stream_run_orderly tag q body s e g' r s' e' :
  orderly body ->
  stream_run tag q body s e = (g', r, s', e') ->
  (length s' <= length s)%nat /\ (r = OutOfFuel -> s' = []).
Proof.
  intros Hb. unfold stream_run.
  destruct (body s e) as [[rb s1] e1] eqn:E. destruct (Hb _ _ _ _ _ E) as [Hl Ho].
  destruct (stream_finally tag s1 e1) as [[rf s2] e2] eqn:F.
  destruct (orderly_stream_finally tag _ _ _ _ _ F) as [Hl' Ho'].
  destruct rb as [[attrs|]|x|].
  - intros [= <- <- <- <-]. done.
  - destruct rf; intros [= <- <- <- <-]; (split; [lia|]);
      first [done|intros _; by apply Ho'].
  - destruct rf; intros [= <- <- <- <-]; (split; [lia|]);
      first [done|intros _; by apply Ho'].
  - intros [= <- <- <- <-]. split; [lia|]. intros _. by apply Ho.
Qed.

Lemma orderly_login_ros6 : orderly (_login_ros6 cfg).
Proof.
  apply orderly_bind; [apply orderly_next_tag|]. intros tag.
  apply orderly_bind; [apply orderly_lift, build_sentence_fuel|]. intros sentence.
  apply orderly_bind; [apply orderly_send_raw|]. intros _.
  apply orderly_bind; [apply orderly_read_one|]. intros resp.
  destruct (type_is resp "!trap"); [apply orderly_raise|].
  apply orderly_bind; [apply orderly_lift, md5_challenge_response_fuel|]. intros digest.
  apply orderly_bind; [apply orderly_next_tag|]. intros tag2.
  apply orderly_bind; [apply orderly_lift, build_sentence_fuel|]. intros sentence2.
  apply orderly_bind; [apply orderly_send_raw|]. intros _.
  apply orderly_bind; [apply orderly_read_one|]. intros resp2.
  destruct (type_is resp2 "!trap"); [apply orderly_raise|apply orderly_ret].
Qed.
End coroutine_progress.

(** ** The engine: commands *)

Lemma try_finally_modify {A} (body : M A) f s e r s' e' :
  try_finally body (modify f) s e = (r, s', e') ->
  r <> OutOfFuel ->
  exists e1, body s e = (r, s', e1) /\ e' = f e1.
Proof.
  unfold try_finally, modify. destruct (body s e) as [[r1 s1] e1].
  destruct r1; intros [= <- <- <-]; try done; eauto.
Qed.

(** C5.  Whenever [command] exits -- it returns on a done response, raises
    on an error-kind response, raises on a timeout, or leaves in any other
    way -- the tag it allocated is absent from the pending map.  ([OutOfFuel]
    is a command still suspended when its script ends: it has not exited.) *)
Theorem command_releases_tag path params queries s e r s' e' :
  command path params queries s e = (r, s', e') ->
  r <> OutOfFuel ->
  pending e' !! ((tag_counter e + 1) mod 65535) = None.
Proof.
  unfold command, _next_tag, new_queue, pending_set, pending_pop.
  cbn [mbind M_bind seq get modify ret mret M_ret].
  intros H Hr. apply try_finally_modify in H as (e1 & _ & ->); [|done].
  cbn. apply lookup_delete_eq.
Qed.

(** A command that has not exited is one still suspended when its script
    ends. *)
Lemma command_suspended path params queries s e s' e' :
  command path params queries s e = (OutOfFuel, s', e') -> s' = [].
Proof. intros H. by apply (orderly_command _ _ _ _ _ _ _ _ H). Qed.

(** A connected engine right after [connect] opened the transport. *)
Definition e_connected : engine := established init.

(** The three exits the claim names, on [e_connected]: the command gets tag
    1 and queue 0, and the receiver task delivers the answer while the
    command waits. *)
Definition done_1 : response := Response (Some (lit "!done")) (Some (TagInt 1)) [].
Definition trap_1 : response :=
  Response (Some (lit "!trap")) (Some (TagInt 1)) [(lit "message", AStr (lit "no such command"))].

Lemma command_releases_tag_witness :
  exists e',
    command (lit "/ip/address/print") None None
      [Wake id Completes; Wake (put 0%nat done_1) Completes] e_connected
    = (Ok [], [], e') /\
    pending e' !! 1 = None.
Proof.
  eexists. split; [vm_compute; reflexivity|].
  apply (command_releases_tag (lit "/ip/address/print") None None
           [Wake id Completes; Wake (put 0%nat done_1) Completes] e_connected
           (Ok []) []).
  - vm_compute. reflexivity.
  - discriminate.
Defined.

Lemma command_exit_on_trap :
  exists e',
    command (lit "/bogus") None None
      [Wake id Completes; Wake (put 0%nat trap_1) Completes] e_connected
    = (Raise (APIError (Message (AStr (lit "no such command"))) (AStr [])), [], e') /\
    pending e' !! 1 = None.
Proof. eexists. split; vm_compute; reflexivity. Qed.

Lemma command_exit_on_timeout :
  exists e',
    command (lit "/ip/address/print") None None
      [Wake id Completes; Wake id (Fails TimeoutError)] e_connected
    = (Raise TimeoutError, [], e') /\
    pending e' !! 1 = None.
Proof. eexists. split; vm_compute; reflexivity. Qed.

(** ** The engine: the receiver loop *)

Lemma put_all_queues (l : list qid) : forall e q,
  queues (foldl (fun e q => put q fatal_response e) e l) !! q
  = (fun items => items ++ replicate (length (filter (fun q' => q' = q) l)) fatal_response)
      <$> queues e !! q.
Proof.
  induction l as [|q0 l IH]; intros e q; cbn [foldl].
  - cbn. destruct (queues e !! q); cbn; [rewrite app_nil_r|]; reflexivity.
  - rewrite IH. unfold put. cbn [queues set_queues].
    rewrite filter_cons. destruct (decide (q0 = q)) as [->|Hne].
    + rewrite lookup_alter_eq. destruct (queues e !! q); cbn; [|done].
      rewrite <- app_assoc. reflexivity.
    + rewrite lookup_alter_ne by done. reflexivity.
Qed.

Lemma put_all_frame (l : list qid) : forall e,
  let e' := foldl (fun e q => put q fatal_response e) e l in
  connected e' = connected e /\ pending e' = pending e /\ conn_gen e' = conn_gen e
  /\ buf e' = buf e /\ writer e' = writer e /\ tag_counter e' = tag_counter e.
Proof.
  induction l as [|q0 l IH]; intros e; cbn [foldl]; [done|].
  destruct (IH (put q0 fatal_response e)) as (-> & -> & -> & -> & -> & ->). done.
Qed.

Lemma registrations_unique e tag q :
  pending e !! tag = Some q ->
  (forall tag', pending e !! tag' = Some q -> tag' = tag) ->
  registrations e q = 1%nat.
Proof.
  intros Hq Hu. unfold registrations.
  pose proof (NoDup_map_to_list (pending e)) as Hnd.
  assert (Hin : (tag, q) ∈ map_to_list (pending e)) by by apply elem_of_map_to_list.
  assert (Hall : forall kv, kv ∈ map_to_list (pending e) -> kv.2 = q -> kv = (tag, q)).
  { intros [k v] Hkv Hv. cbn in Hv. subst v. apply elem_of_map_to_list in Hkv.
    by rewrite (Hu k Hkv). }
  induction (map_to_list (pending e)) as [|[k v] l IH]; [by apply elem_of_nil in Hin|].
  cbn [map snd]. rewrite filter_cons. apply NoDup_cons in Hnd as [Hk Hl].
  destruct (decide (v = q)) as [->|Hne].
  - assert ((k, q) = (tag, q)) as [= ->] by (apply Hall; [left|done]).
    cbn [length]. f_equal.
    assert (Hnone : forall kv, kv ∈ l -> kv.2 <> q).
    { intros kv Hkv Hv. assert (kv = (tag, q)) as -> by (apply Hall; [by right|done]).
      done. }
    clear -Hnone. induction l as [|[k v] l IH]; [done|].
    cbn [map snd]. rewrite filter_cons. destruct (decide (v = q)) as [->|].
    + exfalso. apply (Hnone (k, q)); [left|done].
    + apply IH. intros kv Hkv. apply Hnone. by right.
  - apply IH; [done| |].
    + apply elem_of_cons in Hin as [[= -> ->]|]; done.
    + intros kv Hkv. apply Hall. by right.
Qed.



(** A receiver loop that has not terminated is one still waiting for its
    transport when its script ends. *)
Lemma receiver_loop_suspended int gen s e s' e' :
  _receiver_loop int gen s e = (OutOfFuel, s', e') -> s' = [].
Proof. intros H. by apply (orderly_receiver_loop _ _ _ _ _ _ _ H). Qed.

(** An engine of generation 1 with one command waiting on tag 7. *)
Definition e_waiting : engine :=
  set_pending {[ 7 := 0%nat ]} (set_queues {[ 0%nat := [] ]} (established init)).


(** The loop that still owns the connection: end of stream disconnects the
    engine and wakes the waiting command with the fatal response. *)
Lemma receiver_loop_current :
  exists e',
    _receiver_loop int_decimal 1 [Wake id (Reads [])] e_waiting = (Ok tt, [], e') /\
    connected e' = false /\ queues e' !! 0%nat = Some [fatal_response].
Proof. eexists. split; [vm_compute; reflexivity|]. split; reflexivity. Qed.

(** The three ways out the claim names all end the loop. *)
Lemma receiver_loop_ends (o : await_outcome) :
  o = Reads [] \/ o = Fails (OSError None) \/ o = Fails CancelledError ->
  exists e',
    _receiver_loop int_decimal 1 [Wake id o] e_waiting = (Ok tt, [], e') /\
    connected e' = false.
Proof.
  intros [->|[->| ->]]; eexists; (split; [vm_compute; reflexivity|reflexivity]).
Qed.

(** What the receiver makes of a prefix decoded as a sentence: the sentence
    [!re =name=x .tag=7] reaches the command waiting on tag 7 when it arrives
    in one chunk; cut after its second word, its first two words are dropped
    as an untagged response and the command gets a response with no kind and
    no attributes. *)
Definition sentence_re_7 : bytes :=
  [x03; x21; x72; x65; x07; x3d; x6e; x61; x6d; x65; x3d; x78;
   x06; x2e; x74; x61; x67; x3d; x37; x00].

Lemma split_delivery_differs :
  build_sentence [lit "!re"; lit "=name=x"; lit ".tag=7"] = Ok sentence_re_7 /\
  queues (deliver int_decimal sentence_re_7 e_waiting) !! 0%nat
    = Some [Response (Some (lit "!re")) (Some (TagInt 7)) [(lit "name", AStr (lit "x"))]] /\
  queues (deliver int_decimal (drop 12 sentence_re_7)
            (deliver int_decimal (take 12 sentence_re_7) e_waiting)) !! 0%nat
    = Some [Response None (Some (TagInt 7)) []].
Proof. repeat split; vm_compute; reflexivity. Qed.

(** ** The engine: streams *)





(** A generator whose resumption has not ended is one still suspended when
    its script ends. *)
Lemma anext_suspended g s e g' s' e' :
  anext g s e = (g', OutOfFuel, s', e') -> s' = [].
Proof.
  destruct g as [path params queries|tag q|]; cbn [anext]; [| |discriminate].
  - cbv [_next_tag new_queue pending_set mbind M_bind seq get modify ret mret M_ret].
    intros H. apply stream_run_orderly in H; [by apply H|].
    apply orderly_bind; [apply orderly_with_lock, orderly_send_sentence|].
    intros _ s0. unfold with_fuel. apply orderly_stream_while. lia.
  - intros H. apply stream_run_orderly in H; [by apply H|].
    intros s0. unfold with_fuel. apply orderly_stream_while. lia.
Qed.

(** ** The engine: the MD5 login *)

(** The test suite of RFC 1321, in part. *)
Lemma md5_test_vectors :
  hashlib.hexdigest [] = lit "d41d8cd98f00b204e9800998ecf8427e" /\
  hashlib.hexdigest (map z2b (lit "abc")) = lit "900150983cd24fb0d6963f7d28e17f72" /\
  hashlib.hexdigest
    (map z2b (lit "12345678901234567890123456789012345678901234567890123456789012345678901234567890"))
  = lit "57edf4a22be3c955ac49da2e2107b67a".
Proof. repeat split; vm_compute; reflexivity. Qed.

Lemma login_ros6_rounds cfg s e :
  _login_ros6 cfg s e = seq first_round (second_round cfg) s e.
Proof.
  cbv [_login_ros6 first_round mbind M_bind seq].
  destruct (_next_tag s e) as [[[tag| |] s1] e1]; try reflexivity.
  destruct (lift _ s1 e1) as [[[sentence| |] s2] e2]; try reflexivity.
  destruct (_send_raw sentence s2 e2) as [[[[]| |] s3] e3]; try reflexivity.
Qed.

Lemma wait_for_get_quiet fuel : forall q s e r s' e',
  quiet_script s -> wait_for_get fuel q s e = (r, s', e') ->
  same_transport e e' /\ quiet_script s'.
Proof.
  induction fuel as [|fuel IH]; intros q s e r s' e' Hs H.
  - injection H as <- <- <-. done.
  - cbv [wait_for_get suspend mbind M_bind seq get modify ret mret M_ret raise] in H.
    fold wait_for_get in H.
    destruct s as [|w s2]; [injection H as <- <- <-; done|].
    apply Forall_cons in Hs as [Hw Hs]. destruct (Hw e) as (Hc & Hwr & Ht).
    assert (Hsame : same_transport e (others w e)) by done.
    destruct (outcome w) as [| |x].
    + destruct (queues (others w e) !! q) as [[|item rest]|] eqn:Eq.
      * apply IH in H as [(? & ? & ?) ?]; [|done]. unfold same_transport.
        repeat split; congruence.
      * injection H as <- <- <-. done.
      * apply IH in H as [(? & ? & ?) ?]; [|done]. unfold same_transport.
        repeat split; congruence.
    + destruct (queues (others w e) !! q) as [[|item rest]|] eqn:Eq.
      * apply IH in H as [(? & ? & ?) ?]; [|done]. unfold same_transport.
        repeat split; congruence.
      * injection H as <- <- <-. done.
      * apply IH in H as [(? & ? & ?) ?]; [|done]. unfold same_transport.
        repeat split; congruence.
    + injection H as <- <- <-. done.
Qed.

Lemma read_one_quiet tag s e r s' e' :
  quiet_script s -> _read_one tag s e = (r, s', e') ->
  same_transport e e' /\ quiet_script s'.
Proof.
  intros Hs H.
  cbv [_read_one new_queue pending_set pending_pop try_finally with_fuel
       mbind M_bind seq get modify ret mret M_ret] in H.
  match type of H with context [wait_for_get ?f ?q ?s0 ?e0] =>
    destruct (wait_for_get f q s0 e0) as [[r1 s1] e1] eqn:Hw end.
  apply wait_for_get_quiet in Hw as [(? & ? & ?) ?]; [|done].
  destruct r1; injection H as <- <- <-; done.
Qed.

Lemma md5_challenge_response_ok pw ch cb pwb :
  hashlib.fromhex ch = Ok cb -> utf8.encode pw = Ok pwb ->
  md5_challenge_response pw (AStr ch)
  = Ok (hashlib.hex (hashlib.md5_digest (x00 :: pwb ++ cb))).
Proof.
  intros Hc Hp. unfold md5_challenge_response. rewrite Hc. run. rewrite Hp. run.
  reflexivity.
Qed.

Lemma login_response_sentence_ok cfg digest_bytes tag2 :
  wire_word (lit "=name=" ++ router_client.username cfg) -> len digest_bytes = 16 ->
  0 <= tag2 < 65535 ->
  exists sentence2,
    build_sentence (login_response_words cfg (hashlib.hex digest_bytes) tag2)
    = Ok sentence2.
Proof.
  intros Hu Hd Ht. apply join_words_wire. unfold login_response_words.
  constructor; [|constructor; [|constructor; [|constructor; [|constructor]]]].
  - apply wire_word_ascii; [done|reflexivity|reflexivity].
  - done.
  - apply wire_word_ascii; [done| |].
    + rewrite all_ascii_app, hex_ascii. reflexivity.
    + rewrite len_app, hex_length, Hd. reflexivity.
  - apply wire_word_lit_tag; [done|reflexivity|reflexivity|done].
Qed.

(** C8.  For every password and every challenge hex string that the
    encoder and [bytes.fromhex] accept, the login digest is the lowercase hex
    of MD5(0x00 || password bytes || challenge bytes); for "pw" and
    "deadbeef" it is e225067eda54932e1984963691f14448.  And whenever the first
    round of [_login_ros6] reads a response that is not a trap and whose [ret]
    is the challenge, on a connected engine and with no other task using the
    transport meanwhile, the login writes as its second sentence the words
    [/login], [=name=<username>], [=response=00<digest>], [.tag=<fresh tag>]. *)
Theorem login_digest (cfg : config) (ch : str) (cb pwb : bytes) :
  hashlib.fromhex ch = Ok cb ->
  utf8.encode (router_client.password cfg) = Ok pwb ->
  let digest := hashlib.hex (hashlib.md5_digest (x00 :: pwb ++ cb)) in
  md5_challenge_response (router_client.password cfg) (AStr ch) = Ok digest /\
  md5_challenge_response (lit "pw") (AStr (lit "deadbeef"))
    = Ok (lit "e225067eda54932e1984963691f14448") /\
  forall s e resp s1 e1 written r s' e',
    first_round s e = (Ok resp, s1, e1) ->
    type_is resp "!trap" = false ->
    dict_get (r_attrs resp) (lit "ret") = Some (AStr ch) ->
    wire_word (lit "=name=" ++ router_client.username cfg) ->
    connected e1 = true -> writer e1 = Some written ->
    quiet_script s1 ->
    _login_ros6 cfg s e = (r, s', e') ->
    r <> OutOfFuel ->
    exists sentence2,
      build_sentence
        [lit "/login";
         lit "=name=" ++ router_client.username cfg;
         lit "=response=00" ++ digest;
         lit ".tag=" ++ str_of_int ((tag_counter e1 + 1) mod 65535)]
      = Ok sentence2 /\
      writer e' = Some (written ++ [sentence2]).
Proof.
  intros Hch Hpw digest. subst digest.
  pose proof (md5_challenge_response_ok _ _ _ _ Hch Hpw) as Hd.
  split; [exact Hd|]. split; [vm_compute; reflexivity|].
  intros s e resp s1 e1 written r s' e' H1 Htrap Hret Hname Hcon Hwr Hq Hl Hr.
  set (tag2 := (tag_counter e1 + 1) mod 65535).
  assert (Ht2 : 0 <= tag2 < 65535) by (apply Z.mod_pos_bound; lia).
  destruct (login_response_sentence_ok cfg _ tag2 Hname
              (md5_digest_length (x00 :: pwb ++ cb)) Ht2) as [sentence2 Hs2].
  exists sentence2. split; [exact Hs2|].
  rewrite login_ros6_rounds in Hl. unfold seq in Hl. rewrite H1 in Hl.
  unfold second_round in Hl. rewrite Htrap in Hl.
  unfold attrs_get in Hl. rewrite Hret, Hd in Hl.
  cbv [_next_tag _send_raw await_unit suspend
       mbind M_bind seq get modify ret mret M_ret lift raise] in Hl.
  fold tag2 in Hl. rewrite Hs2 in Hl.
  cbn [connected writer set_tag_counter] in Hl. rewrite Hcon, Hwr in Hl.
  cbn [connected writer set_writer] in Hl.
  destruct s1 as [|w s2]; [injection Hl as <- <- <-; done|].
  apply Forall_cons in Hq as [Hw Hq].
  set (e_sent := set_writer (Some (written ++ [sentence2])) (set_tag_counter tag2 e1)) in *.
  destruct (Hw e_sent) as (_ & Hwr' & _).
  assert (Hdone : writer (others w e_sent) = Some (written ++ [sentence2]))
    by (rewrite Hwr'; reflexivity).
  destruct (outcome w) as [| |x]; [| |injection Hl as <- <- <-; done].
  - destruct (_read_one tag2 s2 (others w e_sent)) as [[r2 s3] e3] eqn:Hr2.
    apply read_one_quiet in Hr2 as [(_ & Hwr3 & _) _]; [|done].
    destruct r2 as [resp2| |]; [destruct (type_is resp2 "!trap")|..];
      injection Hl as <- <- <-; congruence.
  - destruct (_read_one tag2 s2 (others w e_sent)) as [[r2 s3] e3] eqn:Hr2.
    apply read_one_quiet in Hr2 as [(_ & Hwr3 & _) _]; [|done].
    destruct r2 as [resp2| |]; [destruct (type_is resp2 "!trap")|..];
      injection Hl as <- <- <-; congruence.
Qed.

Definition cfg_admin : config := Config (lit "admin") (lit "pw") 6.

(** The device answers the first round with the challenge [deadbeef]. *)
Definition challenge_1 : response :=
  Response (Some (lit "!done")) (Some (TagInt 1)) [(lit "ret", AStr (lit "deadbeef"))].

Lemma quiet_id : quiet id.
Proof. intros e. repeat split. Defined.

Lemma quiet_put q resp : quiet (put q resp).
Proof. intros e. repeat split. Defined.

Lemma login_digest_witness :
  md5_challenge_response (lit "pw") (AStr (lit "deadbeef"))
    = Ok (lit "e225067eda54932e1984963691f14448") /\
  exists sentence1 sentence2 r s' e',
    build_sentence
      [lit "/login"; lit "=name=admin";
       lit "=response=00e225067eda54932e1984963691f14448"; lit ".tag=2"]
    = Ok sentence2 /\
    _login_ros6 cfg_admin
      [Wake id Completes; Wake (put 0%nat challenge_1) Completes;
       Wake id Completes; Wake (put 1%nat done_1) Completes] e_connected
    = (r, s', e') /\
    writer e' = Some ([sentence1] ++ [sentence2]).
Proof.
  pose proof (login_digest cfg_admin (lit "deadbeef") [xde; xad; xbe; xef]
                (map z2b (lit "pw")) eq_refl eq_refl) as (_ & Hpw & Hlogin).
  split; [exact Hpw|].
  set (s := [Wake id Completes; Wake (put 0%nat challenge_1) Completes;
             Wake id Completes; Wake (put 1%nat done_1) Completes]).
  destruct (first_round s e_connected) as [[r1 s1] e1] eqn:H1.
  destruct (_login_ros6 cfg_admin s e_connected) as [[r s'] e'] eqn:Hl.
  assert (Hr : r <> OutOfFuel)
    by (vm_compute in Hl; injection Hl as <- _ _; discriminate).
  assert (H1' := H1). vm_compute in H1'. injection H1' as <- <- <-.
  match type of H1 with _ = (_, _, ?e) => set (e1 := e) in * end.
  assert (Hq : quiet_script [Wake id Completes; Wake (put 1%nat done_1) Completes]).
  { constructor; [exact quiet_id|]. constructor; [exact (quiet_put _ _)|constructor]. }
  assert (Hname : wire_word (lit "=name=" ++ router_client.username cfg_admin)).
  { apply wire_word_ascii; [discriminate|reflexivity|reflexivity]. }
  destruct (Hlogin s e_connected _ _ e1 _ r s' e' H1 eq_refl eq_refl Hname eq_refl
              eq_refl Hq Hl Hr) as (sentence2 & Hs2 & Hw).
  eexists _, sentence2, r, s', e'. split; [exact Hs2|]. split; [reflexivity|exact Hw].
Defined.

(** A login that has not ended is one still suspended when its script ends. *)
Lemma login_ros6_suspended cfg s e s' e' :
  _login_ros6 cfg s e = (OutOfFuel, s', e') -> s' = [].
Proof. intros H. by apply (orderly_login_ros6 _ _ _ _ _ _ H). Qed.

(** ** The manager *)

Import router_manager.

Lemma creates_only_step m m1 m' r :
  _entries m1 = _entries m -> _active m1 = _active m -> registry m1 = registry m ->
  next_router m1 = S (next_router m) ->
  (forall r0, (r0 < next_router m)%nat -> routers m1 !! r0 = routers m !! r0) ->
  creates_only m1 m' r -> creates_only m m' r.
Proof.
  intros He Ha Hg Hn Hr (He' & Ha' & Hg' & Hn' & Hr' & Hid).
  unfold creates_only. rewrite He', Ha', Hg', He, Ha, Hg.
  split; [done|]. split; [done|]. split; [done|]. split; [lia|]. split.
  - intros r0 Hr0. rewrite Hr' by lia. by apply Hr.
  - intros rid0 v E. specialize (Hid rid0 v E). lia.
Qed.

Lemma creates_only_here m m1 r :
  _entries m1 = _entries m -> _active m1 = _active m -> registry m1 = registry m ->
  next_router m1 = S (next_router m) ->
  (forall r0, (r0 < next_router m)%nat -> routers m1 !! r0 = routers m !! r0) ->
  (forall rid v, r = Ok (Some rid, v) -> rid = next_router m) ->
  creates_only m m1 r.
Proof.
  intros He Ha Hg Hn Hr Hid. unfold creates_only. rewrite He, Ha, Hg, Hn.
  split; [done|]. split; [done|]. split; [done|]. split; [lia|]. split; [done|].
  intros rid0 v E. specialize (Hid rid0 v E). lia.
Qed.

Lemma try_versions_frame w versions : forall m r m',
  try_versions w versions m = (r, m') -> creates_only m m' r.
Proof.
  induction versions as [|ver versions IH]; intros m r m' H; cbn [try_versions] in H.
  - injection H as <- <-. unfold creates_only. repeat split; try done; lia.
  - set (r1 := next_router m) in *.
    assert (Hins : forall obj obj' r0, (r0 < r1)%nat ->
      (<[r1 := obj']> (<[r1 := obj]> (routers m)) : gmap rid router_obj) !! r0
      = routers m !! r0)
      by (intros; rewrite !lookup_insert_ne by lia; done).
    assert (Hins1 : forall obj r0, (r0 < r1)%nat ->
      (<[r1 := obj]> (routers m) : gmap rid router_obj) !! r0 = routers m !! r0)
      by (intros; rewrite !lookup_insert_ne by lia; done).
    destruct (attempt_with w ver) as [x| |x|res].
    + destruct (router_client.is_Exception x).
      * apply IH in H. eapply creates_only_step; [..|exact H]; try done.
        intros; by apply Hins1.
      * injection H as <- <-. apply creates_only_here; try done.
        intros; by apply Hins1.
    + apply IH in H. eapply creates_only_step; [..|exact H]; try done.
      intros; by apply Hins1.
    + destruct (router_client.is_Exception x).
      * apply IH in H. eapply creates_only_step; [..|exact H]; try done.
        intros; by apply Hins.
      * injection H as <- <-. apply creates_only_here; try done.
        intros; by apply Hins.
    + destruct res as [|kv res].
      * apply IH in H. eapply creates_only_step; [..|exact H]; try done.
        intros; by apply Hins.
      * injection H as <- <-. apply creates_only_here; try done.
        -- intros; by apply Hins.
        -- by intros rid v [= <- _].
Qed.

Lemma commit_entry_spec user_id entry m :
  let m' := commit_entry user_id entry m in
  entry_of m' user_id (alias entry) = Some entry /\
  (forall u a, (u, a) <> (user_id, alias entry) -> entry_of m' u a = entry_of m u a) /\
  _active m' = match _active m !! user_id with
               | None => <[user_id := Some (alias entry)]> (_active m)
               | Some _ => _active m
               end /\
  routers m' = routers m /\ next_router m' = next_router m.
Proof.
  unfold commit_entry, entry_of.
  set (m1 := match _entries m !! user_id with
             | None => set_entries (<[user_id := []]> (_entries m)) m
             | Some _ => m end).
  assert (H1 : default [] (_entries m1 !! user_id) = default [] (_entries m !! user_id)
               /\ _active m1 = _active m /\ routers m1 = routers m
               /\ next_router m1 = next_router m
               /\ forall u, u <> user_id -> _entries m1 !! u = _entries m !! u).
  { unfold m1. destruct (_entries m !! user_id) eqn:E; cbn.
    - rewrite E. done.
    - rewrite lookup_insert_eq. repeat split; try done.
      intros u Hu. by rewrite lookup_insert_ne. }
  destruct H1 as (Hd & Ha & Hr & Hn & Ho).
  set (m2 := set_entries _ m1).
  assert (Ha2 : _active m2 = _active m) by done.
  rewrite Ha2.
  assert (He : forall mm, _entries mm = _entries m2 ->
     dict_get (default [] (_entries mm !! user_id)) (alias entry) = Some entry /\
     (forall u a, (u, a) <> (user_id, alias entry) ->
        dict_get (default [] (_entries mm !! u)) a
        = dict_get (default [] (_entries m !! u)) a)).
  { intros mm ->. unfold m2. cbn [_entries set_entries]. split.
    - rewrite lookup_insert_eq. cbn. rewrite dict_get_set.
      by destruct (decide (alias entry = alias entry)).
    - intros u a Hne. destruct (decide (u = user_id)) as [->|Hu].
      + rewrite lookup_insert_eq. cbn. rewrite dict_get_set, Hd.
        destruct (decide (alias entry = a)) as [<-|]; [congruence|done].
      + rewrite lookup_insert_ne by done. by rewrite Ho. }
  destruct (_active m !! user_id) eqn:Eact.
  - destruct (He m2 eq_refl) as [H1 H2].
    split; [exact H1|]. split; [exact H2|]. split; [exact Ha2|]. done.
  - match goal with |- context [set_active ?v m2] => set (m3 := set_active v m2) end.
    assert (E3 : _entries m3 = _entries m2) by reflexivity.
    destruct (He m3 E3) as [H1 H2].
    split; [exact H1|]. split; [exact H2|]. done.
Qed.

(** C10.  If [add_router] succeeds for a [(user_id, alias)] that already has
    an entry, then: the entry under that pair is the new one, built from the
    arguments alone and holding a router object that did not exist before;
    every router object that existed -- the one of the old entry among them
    -- is exactly as it was, so the old engine was not closed; the active
    alias map is unchanged when the user has an entry in it and gains
    [user_id -> alias] only when the user has none; and the entry of every
    other pair is unchanged.  (Router objects are told apart by identity:
    [fresh_ids] says every existing one was created earlier.) *)
Theorem add_router_replaces w user_id alias_ host_ username_ password_ port_ use_ssl_
    ros_version_ standalone_ m msg m' old :
  fresh_ids m ->
  entry_of m user_id alias_ = Some old ->
  add_router w user_id alias_ host_ username_ password_ port_ use_ssl_ ros_version_
    standalone_ m = (Ok (true, msg), m') ->
  exists r version,
    (* the old entry is replaced wholesale by the new one, on a new router object *)
    routers m !! r = None /\
    entry_of m' user_id alias_
      = Some (Entry alias_ host_ username_ password_ port_ use_ssl_ ros_version_
                standalone_ user_id (Some r) version) /\
    (* no router object that existed is touched: the old engine is not closed *)
    (forall r0, is_Some (routers m !! r0) -> routers m' !! r0 = routers m !! r0) /\
    (forall r0 obj, router old = Some r0 -> routers m !! r0 = Some obj ->
       routers m' !! r0 = Some obj) /\
    (* the active alias is only set when the user had none *)
    (is_Some (_active m !! user_id) -> _active m' = _active m) /\
    (_active m !! user_id = None -> _active m' = <[user_id := Some alias_]> (_active m)) /\
    (* every other entry is unchanged *)
    (forall u a, (u, a) <> (user_id, alias_) -> entry_of m' u a = entry_of m u a).
Proof.
  intros Hfresh Hold H. unfold add_router, _create_and_connect in H.
  destruct (try_versions w _ m) as [r1 m1] eqn:Ht.
  apply try_versions_frame in Ht as (He & Ha & _ & Hn & Hr & Hid).
  destruct r1 as [[[rid|] version]| |]; try discriminate.
  specialize (Hid rid version eq_refl).
  set (entry := Entry alias_ host_ username_ password_ port_ use_ssl_ ros_version_
                  standalone_ user_id (Some rid) version) in *.
  pose proof (commit_entry_spec user_id entry m1) as (Hnew & Hoth & Hact & Hrt & _).
  cbn zeta in *. set (m2 := commit_entry user_id entry m1) in *.
  unfold _save_registry in H. destruct (save_raises w); [discriminate|].
  injection H as _ <-.
  assert (Hent : forall u a, entry_of m1 u a = entry_of m u a)
    by (intros; unfold entry_of; by rewrite He).
  exists rid, version. unfold entry_of in *. cbn [_entries _active routers set_registry].
  split.
  { destruct (routers m !! rid) eqn:E; [|done].
    assert (rid < next_router m)%nat by (apply Hfresh; eauto). lia. }
  split; [exact Hnew|].
  assert (Hkeep : forall r0, is_Some (routers m !! r0) -> routers m2 !! r0 = routers m !! r0).
  { intros r0 Hr0. rewrite Hrt. apply Hr. by apply Hfresh. }
  split; [exact Hkeep|]. split.
  { intros r0 obj _ Hobj. rewrite Hkeep; [done|by rewrite Hobj]. }
  rewrite Hact, Ha. split.
  { intros [a Hsome]. by rewrite Hsome. }
  split.
  { intros Hnone. by rewrite Hnone. }
  intros u a Hne. rewrite Hoth by done. apply Hent.
Qed.

(** A manager in which user 42 has the router "home" on a connected engine,
    and a device that answers the probe of the new connection. *)
Definition entry_home : RouterEntry :=
  Entry (lit "home") (lit "10.0.0.1") (lit "admin") (lit "pw") 8728 false 6 false 42
    (Some 0%nat) 6.

Definition m_home : manager :=
  Manager {[ 42 := [(lit "home", entry_home)] ]} {[ 42 := Some (lit "home") ]}
    {[ 0%nat := RouterObj 6 true false ]} 1%nat ∅.

Definition w_up : world :=
  World (fun _ => Resource [(lit "version", AStr (lit "6.49"))]) None.

Lemma fresh_ids_home : fresh_ids m_home.
Proof.
  intros r [obj Hr]. unfold m_home in Hr. cbn [routers] in Hr.
  apply lookup_singleton_Some in Hr as [<- _]. cbn. lia.
Defined.

Lemma add_router_replaces_witness :
  exists m' r version,
    add_router w_up 42 (lit "home") (lit "10.0.0.2") (lit "admin") (lit "pw2") 8728
      false 6 false m_home
    = (Ok (true, ConnectedTo (lit "10.0.0.2") 6 (lit "home")), m') /\
    entry_of m' 42 (lit "home")
      = Some (Entry (lit "home") (lit "10.0.0.2") (lit "admin") (lit "pw2") 8728 false
                6 false 42 (Some r) version) /\
    routers m' !! 0%nat = Some (RouterObj 6 true false) /\
    _active m' = _active m_home.
Proof.
  destruct (add_router w_up 42 (lit "home") (lit "10.0.0.2") (lit "admin") (lit "pw2")
              8728 false 6 false m_home) as [res m'] eqn:Hrun.
  assert (Hres : res = Ok (true, ConnectedTo (lit "10.0.0.2") 6 (lit "home")))
    by (vm_compute in Hrun; injection Hrun as <- _; reflexivity).
  subst res.
  destruct (add_router_replaces w_up 42 (lit "home") (lit "10.0.0.2") (lit "admin")
              (lit "pw2") 8728 false 6 false m_home _ m' entry_home
              fresh_ids_home eq_refl Hrun)
    as (r & version & _ & Hnew & _ & Hold & Hact & _).
  exists m', r, version. split; [reflexivity|]. split; [exact Hnew|].
  split; [exact (Hold 0%nat _ eq_refl eq_refl)|].
  apply Hact. eexists. reflexivity.
Defined.

(* ===================================================================== *)
(** * Part IV.  Further properties of the code                            *)
(* ===================================================================== *)

(** ** The length prefix *)

Lemma encode_length_negative n : n < 0 -> encode_length n = Raise StructError.
Proof. intros Hn. unfold encode_length, struct.pack_B. cmp. reflexivity. Qed.

Lemma encode_length_range n l : encode_length n = Ok l -> 0 <= n < 2 ^ 32.
Proof.
  intros H. destruct (Z.lt_ge_cases n 0) as [Hneg|Hpos].
  { rewrite encode_length_negative in H by done. discriminate. }
  destruct (Z.lt_ge_cases n (2 ^ 32)) as [Hlt|Hge]; [lia|].
  rewrite encode_length_oversized in H by done. discriminate.
Qed.

Lemma encode_length_raises n x : encode_length n = Raise x -> x = StructError.
Proof.
  intros H. destruct (Z.lt_ge_cases n 0) as [Hn|Hn].
  { rewrite encode_length_negative in H by done. by injection H as <-. }
  destruct (Z.lt_ge_cases n (2 ^ 32)) as [Hlt|Hge].
  { destruct (encode_length_class n ltac:(lia)) as (first & rest & He & _).
    rewrite He in H. discriminate. }
  rewrite encode_length_oversized in H by done. by injection H as <-.
Qed.

(** X1.  [encode_length] returns bytes exactly for the lengths from 0 to
    2^32 - 1; a negative length and a length of 2^32 or more raise
    [struct.error]. *)
Theorem encode_length_domain (n : Z) :
  ((exists l, encode_length n = Ok l) <-> 0 <= n < 2 ^ 32) /\
  (n < 0 \/ 2 ^ 32 <= n -> encode_length n = Raise StructError).
Proof.
  split; [split|].
  - intros [l H]. by apply encode_length_range in H.
  - intros Hn. destruct (encode_length_class n Hn) as (first & rest & He & _).
    by eexists.
  - intros [Hn|Hn]; [by apply encode_length_negative|by apply encode_length_oversized].
Qed.

(** X2.  The length prefixes form a prefix code: when the prefix of [n] is
    the beginning of the prefix of [m], the two lengths are equal and the
    two prefixes are the same bytes.  In particular [encode_length] is
    injective. *)
Theorem encode_length_prefix_free (n m : Z) (l1 l2 rest : bytes) :
  encode_length n = Ok l1 -> encode_length m = Ok l2 -> l2 = l1 ++ rest ->
  n = m /\ rest = [].
Proof.
  intros H1 H2 ->.
  pose proof (encode_length_range _ _ H1) as Hn.
  pose proof (encode_length_range _ _ H2) as Hm.
  pose proof (decode_encode_length n l1 [] rest Hn H1) as D1.
  pose proof (decode_encode_length m (l1 ++ rest) [] [] Hm H2) as D2.
  cbn [app] in D1, D2. rewrite app_nil_r in D2. rewrite D1 in D2.
  injection D2 as Hnm Hlen. split; [done|].
  rewrite len_nil, len_app in Hlen.
  destruct rest; [done|]. rewrite len_cons in Hlen. pose proof (len_nonneg rest). lia.
Qed.

Lemma encode_length_prefix_free_witness :
  encode_length 300 = Ok [x81; x2c] /\ 300 = 300 /\ @nil byte = [].
Proof.
  split; [reflexivity|].
  exact (encode_length_prefix_free 300 300 [x81; x2c] [x81; x2c] [] eq_refl eq_refl eq_refl).
Defined.

Lemma slice_length {A} (l : list A) a b :
  0 <= a <= b ->
  len (slice l a b) = Z.min b (len l) - Z.min a (len l).
Proof.
  intros H. unfold slice, slice_bound, len.
  destruct (Z.ltb_spec a 0); [lia|]. destruct (Z.ltb_spec b 0); [lia|].
  rewrite length_take, length_drop. lia.
Qed.

Lemma unpack_H_spec l :
  if decide (length l = 2%nat)
  then exists v, struct.unpack_H l = Ok v /\ 0 <= v
  else struct.unpack_H l = Raise StructError.
Proof.
  destruct l as [|b0 [|b1 [|b2 l]]]; cbn; try reflexivity.
  eexists. split; [reflexivity|].
  pose proof (b2z_range b0). pose proof (b2z_range b1). lia.
Qed.

Lemma unpack_I_spec l :
  if decide (length l = 4%nat)
  then exists v, struct.unpack_I l = Ok v /\ 0 <= v < 2 ^ 32
  else struct.unpack_I l = Raise StructError.
Proof.
  destruct l as [|b0 [|b1 [|b2 [|b3 [|b4 l]]]]]; cbn; try reflexivity.
  eexists. split; [reflexivity|].
  pose proof (b2z_range b0). pose proof (b2z_range b1).
  pose proof (b2z_range b2). pose proof (b2z_range b3). lia.
Qed.

Lemma land_ones_bound v k : 0 <= k -> 0 <= Z.land v (Z.ones k) < 2 ^ k.
Proof. intros Hk. rewrite Z.land_ones by done. apply Z.mod_pos_bound. lia. Qed.

Lemma index_lookup {A} (l : list A) i :
  0 <= i ->
  index l i = match l !! Z.to_nat i with Some x => Ok x | None => Raise IndexError end.
Proof.
  intros Hi. unfold index. destruct (Z.ltb_spec i 0); [lia|].
  destruct (l !! Z.to_nat i) eqn:E.
  - apply lookup_lt_Some in E. unfold len. cmp. reflexivity.
  - apply lookup_ge_None in E. unfold len. cmp; reflexivity.
Qed.

(** What [decode_length] answers at an offset that is not negative. *)
Lemma decode_length_classes (data : bytes) (offset : Z) :
  0 <= offset ->
  match data !! Z.to_nat offset with
  | None => decode_length data offset = Raise IndexError
  | Some b =>
      let w := length_width (b2z b) in
      if offset + w <=? len data
      then exists n, decode_length data offset = Ok (n, offset + w) /\
                     0 <= n < length_bound (b2z b)
      else decode_length data offset = Raise StructError
  end.
Proof.
  intros Ho. unfold decode_length. rewrite index_lookup by done. unfold bytes in *.
  destruct (data !! Z.to_nat offset) as [b|] eqn:Eb; rewrite ?Eb; [|reflexivity].
  apply lookup_lt_Some in Eb. run. pose proof (b2z_range b) as Hb.
  assert (Hlen : offset < len data) by (unfold len; lia).
  unfold length_width, length_bound. cbv zeta.
  destruct (Z.ltb_spec (b2z b) 0x80).
  { cmp. eexists. split; [reflexivity|lia]. }
  destruct (Z.ltb_spec (b2z b) 0xC0).
  { pose proof (unpack_H_spec (slice data offset (offset + 2))) as Hu.
    pose proof (slice_length data offset (offset + 2) ltac:(lia)) as Hs.
    unfold len in Hs at 1.
    destruct (Z.leb_spec (offset + 2) (len data)).
    - destruct (decide _) as [|Hne]; [|lia].
      destruct Hu as (v & -> & Hv). run. eexists. split; [reflexivity|].
      apply (land_ones_bound v 14). lia.
    - destruct (decide _) as [Heq|]; [lia|]. rewrite Hu. reflexivity. }
  destruct (Z.ltb_spec (b2z b) 0xE0).
  { pose proof (unpack_I_spec (x00 :: slice data offset (offset + 3))) as Hu.
    pose proof (slice_length data offset (offset + 3) ltac:(lia)) as Hs.
    unfold len in Hs at 1. cbn [length] in Hu.
    destruct (Z.leb_spec (offset + 3) (len data)).
    - destruct (decide _) as [|Hne]; [|lia].
      destruct Hu as (v & -> & Hv). run. eexists. split; [reflexivity|].
      apply (land_ones_bound v 21). lia.
    - destruct (decide _) as [Heq|]; [lia|]. rewrite Hu. reflexivity. }
  destruct (Z.ltb_spec (b2z b) 0xF0).
  { pose proof (unpack_I_spec (slice data offset (offset + 4))) as Hu.
    pose proof (slice_length data offset (offset + 4) ltac:(lia)) as Hs.
    unfold len in Hs at 1.
    destruct (Z.leb_spec (offset + 4) (len data)).
    - destruct (decide _) as [|Hne]; [|lia].
      destruct Hu as (v & -> & Hv). run. eexists. split; [reflexivity|].
      apply (land_ones_bound v 28). lia.
    - destruct (decide _) as [Heq|]; [lia|]. rewrite Hu. reflexivity. }
  pose proof (unpack_I_spec (slice data (offset + 1) (offset + 5))) as Hu.
  pose proof (slice_length data (offset + 1) (offset + 5) ltac:(lia)) as Hs.
  unfold len in Hs at 1.
  destruct (Z.leb_spec (offset + 5) (len data)).
  - destruct (decide _) as [|Hne]; [|lia].
    destruct Hu as (v & -> & Hv). run. eexists. split; [reflexivity|lia].
  - destruct (decide _) as [Heq|]; [lia|]. rewrite Hu. reflexivity.
Qed.

(** X3.  [decode_length] at an offset that is not negative: past the end of
    the data it raises [IndexError]; otherwise the first byte alone fixes the
    width of the prefix (1 to 5 bytes).  When the data holds that many bytes
    from the offset on, the length is returned with the offset moved by the
    width, and it lies below the bound of the class; when the data stops
    short, [struct.error] is raised. *)
Theorem decode_length_cases (data : bytes) (offset : Z) :
  0 <= offset ->
  match data !! Z.to_nat offset with
  | None => decode_length data offset = Raise IndexError
  | Some b =>
      let w := length_width (b2z b) in
      if offset + w <=? len data
      then exists n, decode_length data offset = Ok (n, offset + w) /\
                     0 <= n < length_bound (b2z b)
      else decode_length data offset = Raise StructError
  end.
Proof. apply decode_length_classes. Qed.

Lemma decode_length_cases_witness :
  (exists n, decode_length [x00; xc1; x00; x05] 1 = Ok (n, 4) /\ 0 <= n < 0x200000) /\
  decode_length [x00; xc1; x00] 1 = Raise StructError /\
  decode_length [x00; xc1; x00] 3 = Raise IndexError.
Proof.
  split; [exact (decode_length_cases [x00; xc1; x00; x05] 1 ltac:(lia))|].
  split; [exact (decode_length_cases [x00; xc1; x00] 1 ltac:(lia))|].
  exact (decode_length_cases [x00; xc1; x00] 3 ltac:(lia)).
Defined.

(** ** Building and decoding sentences *)

Lemma utf8_encode_raises s x : utf8.encode s = Raise x -> x = UnicodeEncodeError.
Proof.
  induction s as [|c s IH]; cbn [utf8.encode]; [discriminate|].
  destruct (utf8.is_scalar c); [|by intros [= <-]].
  destruct (utf8.encode s) as [d|y|]; run; try discriminate.
  intros [= <-]. by apply IH.
Qed.

Lemma encode_word_cases w :
  match encode_word w with
  | Ok bs => fits w
  | Raise x => ~ fits w /\ (x = UnicodeEncodeError \/ x = StructError)
  | OutOfFuel => False
  end.
Proof.
  unfold encode_word, fits. pose proof (utf8_encode_fuel w) as Hf.
  destruct (utf8.encode w) as [data|x|] eqn:Ee; run; [| |done].
  - pose proof (encode_length_fuel (len data)) as Hl.
    destruct (encode_length (len data)) as [l|x|] eqn:El; run; [| |done].
    + apply encode_length_range in El. exists data. split; [done|lia].
    + split; [|right; by apply encode_length_raises in El].
      intros (data' & [= <-] & Hlen).
      destruct (encode_length_class (len data)) as (first & rest & He & _).
      { pose proof (len_nonneg data). lia. }
      rewrite He in El. discriminate.
  - split; [|left; by apply utf8_encode_raises in Ee].
    intros (data' & [=] & _).
Qed.

Lemma join_words_cases ws :
  match join_words ws with
  | Ok bs => Forall fits ws
  | Raise x => ~ Forall fits ws /\ (x = UnicodeEncodeError \/ x = StructError)
  | OutOfFuel => False
  end.
Proof.
  induction ws as [|w ws IH]; cbn [join_words]; [constructor|].
  pose proof (encode_word_cases w) as Hw.
  destruct (encode_word w) as [e|x|]; run; [| |done].
  - destruct (join_words ws) as [rest|x|]; run; [| |done].
    + by constructor.
    + destruct IH as [Hn Hx]. split; [|done]. intros H.
      apply Forall_cons in H as [_ H]. done.
  - destruct Hw as [Hn Hx]. split; [|done]. intros H.
    apply Forall_cons in H as [H _]. done.
Qed.

(** X4.  [build_sentence] returns bytes exactly when every word is accepted
    by the strict UTF-8 encoder and is shorter than 2^32 bytes encoded (an
    empty word is accepted).  Otherwise it raises [UnicodeEncodeError] or
    [struct.error], and nothing else. *)
Theorem build_sentence_domain (ws : list str) :
  ((exists bs, build_sentence ws = Ok bs) <-> Forall fits ws) /\
  (forall x, build_sentence ws = Raise x -> x = UnicodeEncodeError \/ x = StructError).
Proof.
  unfold build_sentence. pose proof (join_words_cases ws) as H.
  destruct (join_words ws) as [body|x|]; run; [| |done].
  - split; [|discriminate]. split; [done|]. intros _. by eexists.
  - destruct H as [Hn Hx]. split; [|by intros y [= <-]].
    split; [by intros [bs [=]]|done].
Qed.

(** A sentence is read where it lies in a buffer. *)
Lemma decode_at_sentence W s pre post :
  Forall wire_word W -> build_sentence W = Ok s ->
  decode_sentence (pre ++ s ++ post) (len pre) = Ok (W, len pre + len s).
Proof.
  intros HW Hs. unfold build_sentence in Hs.
  destruct (join_words W) as [body| |] eqn:Hj; run; try discriminate.
  injection Hs as <-. unfold decode_sentence.
  rewrite <- (app_assoc body [x00] post). cbn [app].
  pose proof (join_words_length W body HW Hj) as Hl.
  rewrite (decode_loop_sentence W HW body pre post [] _ Hj).
  - rewrite len_app, len_cons, len_nil. cbn [app]. f_equal. f_equal. lia.
  - rewrite !len_app, len_cons. unfold len. lia.
Qed.

(** X5.  Framing: a built sentence is decoded where it lies in a buffer.
    Whatever bytes come before it and after it, [decode_sentence] at the
    offset where the sentence starts returns its words and the offset right
    after its terminator -- so sentences sent back to back are read one after
    the other, each from the offset the previous call returned. *)
Theorem decode_sentence_framing (W : list str) (s pre post : bytes) :
  Forall wire_word W -> build_sentence W = Ok s ->
  decode_sentence (pre ++ s ++ post) (len pre) = Ok (W, len pre + len s).
Proof. apply decode_at_sentence. Qed.

Lemma decode_sentence_framing_witness :
  build_sentence [lit "ab"] = Ok [x02; x61; x62; x00] /\
  decode_sentence ([x02; x61; x62; x00] ++ [x02; x61; x62; x00] ++ [x01; x21])
    (len [x02; x61; x62; x00])
  = Ok ([lit "ab"], len [x02; x61; x62; x00] + len [x02; x61; x62; x00]).
Proof.
  split; [reflexivity|].
  apply (decode_sentence_framing [lit "ab"]); [|reflexivity].
  constructor; [exact wire_word_ab|constructor].
Defined.

Lemma decode_values_nonempty b bs : utf8.decode_values (b :: bs) <> [].
Proof.
  cbn [utf8.decode_values].
  repeat match goal with
  | |- context [if ?c then _ else _] => destruct c
  | |- context [match ?l with [] => _ | _ :: _ => _ end] => destruct l
  end; discriminate.
Qed.

Lemma decode_length_in_bounds (data : bytes) o n o1 :
  0 <= o -> decode_length data o = Ok (n, o1) -> o < o1 <= len data.
Proof.
  intros Ho H. pose proof (decode_length_classes data o Ho) as Hc.
  destruct (data !! Z.to_nat o) as [b|]; [|congruence].
  cbv zeta in Hc.
  destruct (Z.leb_spec (o + length_width (b2z b)) (len data)); [|congruence].
  destruct Hc as (n' & Hd & _). rewrite Hd in H. injection H as <- <-.
  split; [|done]. unfold length_width. cmp.
Qed.

Lemma decode_length_raises (data : bytes) o x :
  0 <= o < len data -> decode_length data o = Raise x -> x = StructError.
Proof.
  intros Ho H. pose proof (decode_length_classes data o ltac:(lia)) as Hc.
  destruct (data !! Z.to_nat o) as [b|] eqn:E.
  - cbv zeta in Hc. destruct (Z.leb_spec (o + length_width (b2z b)) (len data)).
    + destruct Hc as (n' & Hd & _). congruence.
    + congruence.
  - apply lookup_ge_None in E. unfold len in Ho. lia.
Qed.

Lemma decode_sentence_loop_bounds fuel : forall data acc o,
  0 <= o ->
  match decode_sentence_loop fuel data acc o with
  | Ok (ws, o') =>
      o <= o' /\ (o' <= len data \/ o' = o) /\
      (Forall (fun w => w <> []) acc -> Forall (fun w => w <> []) ws)
  | Raise x => x = BufferError \/ x = StructError
  | OutOfFuel => True
  end.
Proof.
  induction fuel as [|fuel IH]; intros data acc o Ho; cbn [decode_sentence_loop]; [done|].
  destruct (Z.ltb_spec o (len data)); [|split; [lia|split; [by right|done]]].
  destruct (Z.leb_spec (len data) o); [lia|].
  destruct (decode_length data o) as [[n o1]|x|] eqn:Ed; run; [| |done].
  - pose proof (decode_length_in_bounds _ _ _ _ Ho Ed) as Hb.
    pose proof (decode_length_progress _ _ _ _ Ed) as [Hn _].
    destruct (Z.eqb_spec n 0); [split; [lia|split; [left; lia|done]]|].
    destruct (Z.ltb_spec (len data) (o1 + n)); [by left|].
    specialize (IH data (acc ++ [utf8.decode_replace (slice data o1 (o1 + n))]) (o1 + n)
                  ltac:(lia)).
    destruct (decode_sentence_loop fuel data _ (o1 + n)) as [[ws o']|x|]; [|done|done].
    destruct IH as (I1 & I2 & I3). split; [lia|]. split; [lia|].
    intros Hacc. apply I3. apply Forall_app. split; [done|].
    constructor; [|constructor].
    pose proof (slice_length data o1 (o1 + n) ltac:(lia)) as Hs.
    unfold utf8.decode_replace.
    destruct (slice data o1 (o1 + n)) as [|b bs]; [rewrite len_nil in Hs; lia|].
    cbn [map]. apply decode_values_nonempty.
  - right. by apply (decode_length_raises data o).
Qed.

(** What [decode_sentence] answers at an offset that is not negative. *)
Lemma decode_sentence_outcome (data : bytes) (offset : Z) :
  0 <= offset ->
  match decode_sentence data offset with
  | Ok (ws, o') =>
      offset <= o' /\ (o' <= len data \/ o' = offset) /\ Forall (fun w => w <> []) ws
  | Raise x => x = BufferError \/ x = StructError
  | OutOfFuel => False
  end.
Proof.
  intros Ho. unfold decode_sentence.
  pose proof (decode_sentence_loop_bounds (S (Z.to_nat (len data - offset))) data []
                offset Ho) as H.
  pose proof (decode_sentence_total data offset) as Ht. unfold decode_sentence in Ht.
  destruct (decode_sentence_loop _ data [] offset) as [[ws o']|x|]; [|done|done].
  destruct H as (H1 & H2 & H3). split; [done|]. split; [done|]. apply H3. constructor.
Qed.

(** X6.  [decode_sentence] at an offset that is not negative always returns
    or raises, and what it raises is [BufferError] or [struct.error] only
    (never [IndexError], never a decoding error).  When it returns, the new
    offset is not before the old one and not past the end of the data (it is
    the old offset when that one already was at or past the end), and none of
    the words returned is empty. *)
Theorem decode_sentence_bounds (data : bytes) (offset : Z) :
  0 <= offset ->
  match decode_sentence data offset with
  | Ok (ws, o') =>
      offset <= o' /\ (o' <= len data \/ o' = offset) /\ Forall (fun w => w <> []) ws
  | Raise x => x = BufferError \/ x = StructError
  | OutOfFuel => False
  end.
Proof. apply decode_sentence_outcome. Qed.

Lemma decode_sentence_bounds_witness :
  (0 <= 4 /\ (4 <= len [x02; xff; x62; x00; x05] \/ 4 = 0) /\
   Forall (fun w : str => w <> []) [[0xFFFD; 98]]) /\
  (BufferError = BufferError \/ BufferError = StructError).
Proof.
  split.
  - exact (decode_sentence_bounds [x02; xff; x62; x00; x05] 0 ltac:(lia)).
  - exact (decode_sentence_bounds [x02; xff; x62; x00; x05] 4 ltac:(lia)).
Defined.

(** ** Parsing responses *)

Section parse_domain.
Variable int : str -> option Z.

Lemma find_char_split c s i :
  find_char c s = Some i -> exists k v, s = k ++ c :: v.
Proof.
  revert i. induction s as [|x s IH]; intros i; cbn [find_char]; [done|].
  destruct (Z.eqb_spec x c) as [->|Hne]; [intros _; by exists [], s|].
  destruct (find_char c s) as [j|]; [|done]. intros _.
  destruct (IH j eq_refl) as (k & v & ->). by exists (x :: k), v.
Qed.

Lemma parse_word_cases acc w :
  match parse_word int acc w with
  | Ok _ => well_formed w
  | Raise x => ~ well_formed w /\ x = ValueError
  | OutOfFuel => False
  end.
Proof.
  destruct (parse_word int acc w) as [acc'|x|] eqn:E.
  - intros Ha. unfold parse_word in E.
    fold (is_kind w) (is_tag w) (is_attr w) (is_query w) in E.
    pose proof (word_kinds w) as Hk. destruct w as [|c w]; [done|].
    destruct Hk as (Hkind & Hattr & _ & Htag). rewrite Ha in Hattr.
    destruct (Z.eqb_spec c 61) as [->|]; [|done].
    rewrite Hkind in E. cbn [Z.eqb Pos.eqb] in E.
    destruct (is_tag (61 :: w)) eqn:Et; [specialize (Htag eq_refl); lia|].
    rewrite Ha in E. unfold str_index in E.
    destruct (find_char 61 (slice_from (61 :: w) 1)) as [i|] eqn:Ef; [|discriminate].
    rewrite slice_from_nonneg in Ef by (rewrite len_cons; pose proof (len_nonneg w); lia).
    change (Z.to_nat 1) with 1%nat in Ef. cbn [drop] in Ef. rewrite drop_0 in Ef.
    apply find_char_split in Ef as (k & v & ->). by exists k, v.
  - assert (Hx : x = ValueError).
    { unfold parse_word, str_index in E.
      repeat match type of E with
      | context [if ?c then _ else _] => destruct c
      | context [match ?x with Some _ => _ | None => _ end] => destruct x
      end; run; try discriminate. by injection E as <-. }
    split; [|done]. intros Hw.
    destruct (parse_word_spec int acc w Hw) as (acc' & Hp & _). congruence.
  - revert E. unfold parse_word, str_index.
    repeat match goal with
    | |- context [if ?c then _ else _] => destruct c
    | |- context [match ?x with Some _ => _ | None => _ end] => destruct x
    end; run; discriminate.
Qed.

Lemma parse_words_cases words : forall acc,
  match parse_words int acc words with
  | Ok _ => Forall well_formed words
  | Raise x => ~ Forall well_formed words /\ x = ValueError
  | OutOfFuel => False
  end.
Proof.
  induction words as [|w words IH]; intros acc; cbn [parse_words]; [constructor|].
  pose proof (parse_word_cases acc w) as Hw.
  destruct (parse_word int acc w) as [acc'|x|]; run; [| |done].
  - specialize (IH acc'). destruct (parse_words int acc' words) as [r|x|]; [| |done].
    + by constructor.
    + destruct IH as [Hn ->]. split; [|done]. intros H.
      apply Forall_cons in H as [_ H]. done.
  - destruct Hw as [Hn ->]. split; [|done]. intros H.
    apply Forall_cons in H as [H _]. done.
Qed.

(** X7.  [parse_response] returns a response exactly when every word that
    begins with [=] has a second [=]; otherwise it raises [ValueError], and it
    raises nothing else. *)
Theorem parse_response_domain (words : list str) :
  ((exists r, parse_response int words = Ok r) <-> Forall well_formed words) /\
  (forall x, parse_response int words = Raise x -> x = ValueError).
Proof.
  unfold parse_response.
  pose proof (parse_words_cases words (Response None None [])) as H.
  destruct (parse_words int _ words) as [r|x|]; [| |done].
  - split; [|discriminate]. split; [done|]. intros _. by eexists.
  - destruct H as [Hn ->]. split; [|by intros y [= <-]].
    split; [by intros [r [=]]|done].
Qed.

Lemma parse_word_irrelevant acc w : relevant w = false -> parse_word int acc w = Ok acc.
Proof.
  unfold relevant, parse_word. fold (is_kind w) (is_tag w) (is_attr w) (is_query w).
  intros H. apply orb_false_elim in H as [H Hq]. apply orb_false_elim in H as [H Ha].
  apply orb_false_elim in H as [Hk Ht]. by rewrite Hk, Ht, Ha, Hq.
Qed.

Lemma parse_words_relevant words : forall acc,
  parse_words int acc (filter relevant words) = parse_words int acc words.
Proof.
  induction words as [|w words IH]; intros acc; [done|].
  rewrite filter_cons. cbn [parse_words]. destruct (relevant w) eqn:E.
  - destruct (decide _) as [|Hn]; [|done]. cbn [parse_words].
    destruct (parse_word int acc w); run; [apply IH|done|done].
  - destruct (decide _) as [Hy|]; [done|].
    rewrite parse_word_irrelevant by done. run. apply IH.
Qed.

(** X8.  [parse_response] ignores every word that begins with none of [!],
    [.tag=], [=] and [?] (the command path, a bare [.tag], the empty word):
    leaving such words out changes neither the response nor the exception. *)
Theorem parse_response_ignores (words : list str) :
  parse_response int (filter relevant words) = parse_response int words.
Proof. apply parse_words_relevant. Qed.

End parse_domain.

(** ** The login digest *)

Lemma hex_digit_lower v : 0 <= v < 16 -> lower_hex (hashlib.hex_digit v) = true.
Proof. intros. unfold lower_hex, hashlib.hex_digit. cmp; reflexivity. Qed.

Lemma hex_lower data : forallb lower_hex (hashlib.hex data) = true.
Proof.
  induction data as [|b data IH]; [done|].
  cbn [hashlib.hex flat_map app forallb].
  pose proof (b2z_range b).
  rewrite !hex_digit_lower by dm. exact IH.
Qed.

Lemma fromhex_raises s x : hashlib.fromhex s = Raise x -> x = ValueError.
Proof.
  assert (H : forall n s, (length s <= n)%nat ->
                          hashlib.fromhex s = Raise x -> x = ValueError).
  { clear s. induction n as [|n IH]; intros [|c s] Hl; cbn [hashlib.fromhex];
      try discriminate; cbn [length] in Hl; [lia|].
    destruct (hashlib.is_space c); [apply IH; lia|].
    destruct (hashlib.hex_value c); [|by intros [= <-]].
    destruct s as [|d s]; [by intros [= <-]|].
    destruct (hashlib.hex_value d); [|by intros [= <-]].
    destruct (hashlib.fromhex s) eqn:E; run; try discriminate.
    intros [= <-]. apply (IH s); [cbn [length] in Hl; lia|done]. }
  by apply (H (length s)).
Qed.

(** X9.  Whenever [md5_challenge_response] returns, the digest is 32
    lowercase hexadecimal digits.  It raises [ValueError] (a challenge that is
    not hexadecimal), [TypeError] (a challenge that is not text) or
    [UnicodeEncodeError] (a password the encoder refuses), and nothing
    else. *)
Theorem md5_challenge_response_shape (password : str) (challenge : attr_value) :
  match md5_challenge_response password challenge with
  | Ok digest => len digest = 32 /\ forallb lower_hex digest = true
  | Raise x => x = ValueError \/ x = TypeError \/ x = UnicodeEncodeError
  | OutOfFuel => False
  end.
Proof.
  unfold md5_challenge_response. destruct challenge as [s|]; run; [|auto].
  pose proof (fromhex_fuel s) as Hf.
  destruct (hashlib.fromhex s) as [cb|x|] eqn:E; run; [| |done].
  - pose proof (utf8_encode_fuel password) as Hp.
    destruct (utf8.encode password) as [pw|x|] eqn:Ep; run; [| |done].
    + unfold hashlib.hexdigest. split; [|apply hex_lower].
      rewrite hex_length, md5_digest_length. reflexivity.
    + right. right. by apply utf8_encode_raises in Ep.
  - left. by apply fromhex_raises in E.
Qed.

(** ** The engine: tags and command words *)

Lemma next_tags_run n : forall s e,
  exists e',
    next_tags n s e
    = (Ok (map (fun i => (tag_counter e + Z.of_nat i) mod 65535) (List.seq 1 n)), s, e').
Proof.
  induction n as [|n IH]; intros s e; [by eexists|].
  cbn [next_tags].
  cbv [_next_tag mbind M_bind router_client.seq get modify ret mret M_ret].
  destruct (IH s (set_tag_counter ((tag_counter e + 1) mod 65535) e)) as [e' ->].
  exists e'. cbn [List.seq map tag_counter set_tag_counter]. f_equal. f_equal. f_equal.
  f_equal. rewrite <- (List.seq_shift n 1), map_map. apply map_ext. intros i.
  rewrite Zplus_mod_idemp_l. f_equal. lia.
Qed.

(** X10.  Tags do not repeat within a cycle: any run of up to 65535
    consecutive calls of [_next_tag] returns pairwise distinct tags, all
    between 0 and 65534, whatever the counter was; the calls never suspend.
    (After 65534 comes 0.) *)
Theorem next_tag_cycle (n : nat) (s : script) (e : engine) :
  Z.of_nat n <= 65535 ->
  exists ts e',
    next_tags n s e = (Ok ts, s, e') /\
    length ts = n /\ NoDup ts /\ Forall (fun t => 0 <= t < 65535) ts.
Proof.
  intros Hn. destruct (next_tags_run n s e) as [e' H].
  eexists _, e'. split; [exact H|]. split; [by rewrite length_map, List.length_seq|].
  split.
  - apply (NoDup_fmap_2_strong (fun i => (tag_counter e + Z.of_nat i) mod 65535)).
    + intros x y Hx Hy Hxy. apply elem_of_seq in Hx, Hy.
      revert Hxy. generalize (tag_counter e). intros c Hxy.
      apply Nat2Z.inj.
      assert (H1 := Z.div_mod (c + Z.of_nat x) 65535 ltac:(lia)).
      assert (H2 := Z.div_mod (c + Z.of_nat y) 65535 ltac:(lia)).
      rewrite Hxy in H1. lia.
    + apply NoDup_seq.
  - apply Forall_forall. intros t Ht. apply list_elem_of_fmap in Ht as (i & -> & _).
    apply Z.mod_pos_bound. lia.
Qed.

Lemma next_tag_cycle_witness :
  exists ts e',
    next_tags 3 [] (set_tag_counter 65533 init) = (Ok ts, [], e') /\
    ts = [65534; 0; 1] /\ NoDup ts.
Proof.
  destruct (next_tag_cycle 3 [] (set_tag_counter 65533 init) ltac:(lia))
    as (ts & e' & H & _ & Hnd & _).
  exists ts, e'. split; [exact H|]. split; [|exact Hnd].
  vm_compute in H. by injection H as <- _.
Defined.

Section build_parse.
Variable int : str -> option Z.

Lemma split_eq_fresh k v : 61 ∉ k -> split_eq (k ++ 61 :: v) = Some (k, v).
Proof.
  induction k as [|c k IH]; intros Hk; cbn [app split_eq]; [done|].
  apply not_elem_of_cons in Hk as [Hc Hk].
  destruct (Z.eqb_spec c 61); [congruence|]. by rewrite IH.
Qed.

Lemma param_word_eq kv : param_word kv = 61 :: kv.1 ++ 61 :: default [] kv.2.
Proof.
  destruct kv as [k [v|]]; cbn [param_word fst snd default]; [|reflexivity].
  destruct (decide (v = [])) as [->|]; reflexivity.
Qed.

Lemma parse_word_param acc kv :
  61 ∉ kv.1 ->
  parse_word int acc (param_word kv)
  = Ok (Response (r_type acc) (r_tag acc)
          (dict_set (r_attrs acc) kv.1 (AStr (default [] kv.2)))).
Proof.
  intros Hk. rewrite param_word_eq. unfold parse_word.
  destruct (attr_slices _ _ _ (split_eq_fresh kv.1 (default [] kv.2) Hk)) as (Hi & Hkey & Hval).
  cbn [lit startswith]. change (Z.of_N (N_of_ascii "!")) with 33.
  change (Z.of_N (N_of_ascii "=")) with 61. change (Z.of_N (N_of_ascii ".")) with 46.
  cbn [Z.eqb Pos.eqb andb]. rewrite Hi. run. by rewrite Hkey, Hval.
Qed.

Lemma parse_word_query acc q :
  is_query q = true ->
  parse_word int acc q = Ok (Response (r_type acc) (r_tag acc) (dict_set (r_attrs acc) q ATrue)).
Proof.
  intros Hq. unfold parse_word. fold (is_kind q) (is_tag q) (is_attr q) (is_query q).
  pose proof (word_kinds q) as Hk. destruct q as [|c q]; [done|].
  destruct Hk as (Hkind & Hattr & Hquery & Htag). rewrite Hq in Hquery.
  destruct (Z.eqb_spec c 63) as [->|]; [|done].
  rewrite Hkind, Hattr, Hq. cbn [Z.eqb Pos.eqb].
  destruct (is_tag (63 :: q)); [specialize (Htag eq_refl); lia|done].
Qed.

Lemma parse_word_tag acc tag :
  int (str_of_int tag) = Some tag ->
  parse_word int acc (lit ".tag=" ++ str_of_int tag)
  = Ok (Response (r_type acc) (Some (TagInt tag)) (r_attrs acc)).
Proof.
  intros Hi. unfold parse_word.
  assert (Hs : slice_from (lit ".tag=" ++ str_of_int tag) 5 = str_of_int tag).
  { rewrite slice_from_nonneg.
    - change (Z.to_nat 5) with 5%nat. reflexivity.
    - rewrite len_app. pose proof (len_nonneg (str_of_int tag)).
      change (len (lit ".tag=")) with 5. lia. }
  rewrite Hs, Hi. reflexivity.
Qed.

Lemma parse_words_app (a b : list str) : forall acc,
  parse_words int acc (a ++ b) = parse_words int acc a ≫= fun r => parse_words int r b.
Proof.
  induction a as [|w a IH]; intros acc; [done|].
  cbn [app parse_words]. destruct (parse_word int acc w); run; [apply IH|done|done].
Qed.

Lemma parse_words_params params : forall acc,
  Forall (fun kv => 61 ∉ kv.1) params ->
  parse_words int acc (map param_word params)
  = Ok (Response (r_type acc) (r_tag acc)
          (writes_all (r_attrs acc) (map (fun kv => (kv.1, AStr (default [] kv.2))) params))).
Proof.
  induction params as [|kv params IH]; intros acc Hk; [by destruct acc|].
  apply Forall_cons in Hk as [Hkv Hk]. cbn [map parse_words].
  rewrite parse_word_param by done. run. by rewrite IH.
Qed.

Lemma parse_words_queries qs : forall acc,
  Forall (fun q => is_query q = true) qs ->
  parse_words int acc qs
  = Ok (Response (r_type acc) (r_tag acc)
          (writes_all (r_attrs acc) (map (fun q => (q, ATrue)) qs))).
Proof.
  induction qs as [|q qs IH]; intros acc Hq; [by destruct acc|].
  apply Forall_cons in Hq as [Hq Hqs]. cbn [map parse_words].
  rewrite parse_word_query by done. run. by rewrite IH.
Qed.

Lemma dict_get_None {V} (d : dict V) k : dict_get d k = None <-> k ∉ map fst d.
Proof.
  induction d as [|[k0 v0] d IH]; cbn [dict_get map fst].
  - split; [intros _; apply not_elem_of_nil|done].
  - rewrite not_elem_of_cons. destruct (decide (k0 = k)) as [->|Hne].
    + split; [done|]. intros [H _]. done.
    + rewrite IH. split; [intros H; split; [congruence|done]|by intros [_ H]].
Qed.

Lemma dict_set_fresh {V} (d : dict V) k v :
  k ∉ map fst d -> dict_set d k v = d ++ [(k, v)].
Proof.
  induction d as [|[k0 v0] d IH]; cbn [dict_set map fst app]; [done|].
  rewrite not_elem_of_cons. intros [Hne Hk].
  destruct (decide (k0 = k)); [congruence|]. by rewrite IH.
Qed.

Lemma writes_all_fresh (ws : dict attr_value) : forall d,
  NoDup (map fst d ++ map fst ws) -> writes_all d ws = d ++ ws.
Proof.
  induction ws as [|[k v] ws IH]; intros d Hnd; cbn [writes_all foldl]; [by rewrite app_nil_r|].
  cbn [map fst snd] in *. fold (writes_all (dict_set d k v) ws).
  assert (Hk : k ∉ map fst d).
  { apply NoDup_app in Hnd as (_ & Hd & _). intros Hin. apply (Hd k Hin). left. }
  rewrite dict_set_fresh by done. rewrite IH.
  - by rewrite <- app_assoc.
  - rewrite map_app. cbn [map fst]. rewrite <- app_assoc. exact Hnd.
Qed.

Lemma build_words_eq path params qs tag :
  _build_words path (Some params) (Some qs) tag
  = path :: map param_word params ++ qs ++ [lit ".tag=" ++ str_of_int tag].
Proof.
  unfold _build_words. destruct params as [|kv params], qs as [|q qs]; cbn [map app];
    rewrite <- ?app_assoc; cbn [app]; rewrite ?app_nil_r; reflexivity.
Qed.

(** X11.  The words [_build_words] makes for a command read back, through
    [parse_response], as what was asked: the tag is the command's tag, there
    is no kind, and the attributes are the parameters in order, each under its
    key with its value (the empty text for [None] and for the empty string),
    followed by the query words as flags.  This holds when the path begins
    with none of the four markers, no key holds an [=], the query words begin
    with [?], the keys and query words are pairwise distinct, and [int] reads
    the numeral of the tag back. *)
Theorem build_words_parse (path : str) (params : dict (option str)) (qs : list str)
    (tag : Z) :
  relevant path = false ->
  Forall (fun kv => 61 ∉ kv.1) params ->
  Forall (fun q => is_query q = true) qs ->
  NoDup (map fst params ++ qs) ->
  int (str_of_int tag) = Some tag ->
  parse_response int (_build_words path (Some params) (Some qs) tag)
  = Ok (Response None (Some (TagInt tag)) (sent_attrs params qs)).
Proof.
  intros Hp Hk Hq Hnd Hi. rewrite build_words_eq. unfold parse_response.
  cbn [parse_words]. rewrite parse_word_irrelevant by done. run.
  rewrite parse_words_app, parse_words_params by done. run.
  rewrite parse_words_app, parse_words_queries by done. run.
  cbn [parse_words r_type r_tag r_attrs]. rewrite parse_word_tag by done. run.
  cbn [r_type r_attrs]. do 2 f_equal. unfold sent_attrs.
  rewrite !writes_all_fresh; [done|..].
  - cbn [map app]. apply NoDup_app in Hnd as (H & _). by rewrite map_map.
  - rewrite writes_all_fresh.
    + cbn [app]. rewrite !map_map. cbn [fst]. by rewrite map_id.
    + cbn [map app]. apply NoDup_app in Hnd as (H & _). by rewrite map_map.
Qed.

End build_parse.

Lemma build_words_parse_witness :
  parse_response int_decimal
    (_build_words (lit "/ip/address/add")
       (Some [(lit "address", Some (lit "10.0.0.1/24")); (lit "comment", None)])
       (Some [lit "?disabled=no"]) 7)
  = Ok (Response None (Some (TagInt 7))
          [(lit "address", AStr (lit "10.0.0.1/24")); (lit "comment", AStr []);
           (lit "?disabled=no", ATrue)]).
Proof.
  apply (build_words_parse int_decimal (lit "/ip/address/add")
           [(lit "address", Some (lit "10.0.0.1/24")); (lit "comment", None)]
           [lit "?disabled=no"] 7).
  - reflexivity.
  - compute_done.
  - compute_done.
  - compute_done.
  - reflexivity.
Defined.

(** ** The engine: dispatching the receive buffer *)

Lemma delivered_refl e : delivered e e.
Proof.
  repeat split. intros q. destruct (queues e !! q) as [items|]; [|done].
  exists []. by rewrite app_nil_r.
Qed.

Lemma delivered_trans e1 e2 e3 : delivered e1 e2 -> delivered e2 e3 -> delivered e1 e3.
Proof.
  intros (A1 & A2 & A3 & A4 & A5 & A6 & A7 & A8 & A9)
         (B1 & B2 & B3 & B4 & B5 & B6 & B7 & B8 & B9).
  repeat split; try congruence. intros q. specialize (A9 q). specialize (B9 q).
  destruct (queues e1 !! q) as [items|].
  - destruct A9 as [m1 A9]. rewrite A9 in B9. destruct B9 as [m2 B9].
    exists (m1 ++ m2). by rewrite app_assoc.
  - by rewrite A9 in B9.
Qed.

Lemma delivered_put q resp e : delivered e (put q resp e).
Proof.
  repeat split. intros q'. unfold put. cbn [queues set_queues].
  destruct (decide (q = q')) as [->|Hne].
  - rewrite lookup_alter_eq. destruct (queues e !! q'); cbn; [by eexists|done].
  - rewrite lookup_alter_ne by done. destruct (queues e !! q'); [|done].
    exists []. by rewrite app_nil_r.
Qed.

Lemma delivered_route resp e : delivered e (route resp e).
Proof.
  unfold route. destruct (r_tag resp) as [[tag|]|]; try apply delivered_refl.
  destruct (pending e !! tag); [apply delivered_put|apply delivered_refl].
Qed.

Section dispatch_facts.
Variable int : str -> option Z.

Lemma dispatch_step e offset w ws o' resp s fuel :
  offset < len (buf e) ->
  decode_sentence (buf e) offset = Ok (w :: ws, o') ->
  parse_response int (w :: ws) = Ok resp ->
  dispatch_while int (S fuel) offset s e = dispatch_while int fuel o' s (route resp e).
Proof.
  intros Hlt Hd Hp. cbn [dispatch_while].
  cbv [mbind M_bind router_client.seq get modify ret mret M_ret raise lift out_of_fuel].
  destruct (Z.ltb_spec offset (len (buf e))); [|lia]. rewrite Hd, Hp.
  unfold route. destruct (r_tag resp) as [[tag|]|]; try reflexivity.
  destruct (pending e !! tag); reflexivity.
Qed.

Lemma dispatch_while_frame fuel : forall offset s e r s' e',
  0 <= offset ->
  dispatch_while int fuel offset s e = (r, s', e') ->
  delivered e e' /\ buf e' = buf e /\
  match r with
  | Ok o' => offset <= o'
  | Raise x => x = StructError \/ x = ValueError
  | OutOfFuel => True
  end.
Proof.
  induction fuel as [|fuel IH]; intros offset s e r s' e' Ho.
  { intros [= <- <- <-]. split; [apply delivered_refl|done]. }
  destruct (Z.ltb_spec offset (len (buf e))) as [Hlt|Hge].
  2:{ cbn [dispatch_while].
      cbv [mbind M_bind router_client.seq get modify ret mret M_ret raise lift out_of_fuel].
      destruct (Z.ltb_spec offset (len (buf e))); [lia|].
      intros [= <- <- <-]. split; [apply delivered_refl|]. split; [done|lia]. }
  pose proof (decode_sentence_outcome (buf e) offset Ho) as Hb.
  destruct (decode_sentence (buf e) offset) as [[[|w ws] o']|x|] eqn:Ed; [| | |done].
  - cbn [dispatch_while].
    cbv [mbind M_bind router_client.seq get modify ret mret M_ret raise lift out_of_fuel].
    destruct (Z.ltb_spec offset (len (buf e))); [|lia]. rewrite Ed.
    fold (dispatch_while int). intros Hrun. apply IH in Hrun as (H1 & H2 & H3); [|lia].
    split; [done|]. split; [done|]. destruct r; try done. lia.
  - pose proof (parse_words_cases int (w :: ws) (Response None None [])) as Hx.
    fold (parse_response int (w :: ws)) in Hx.
    destruct (parse_response int (w :: ws)) as [resp|x|] eqn:Ep; [| |done].
    + rewrite (dispatch_step e offset w ws o' resp s fuel Hlt Ed Ep).
      destruct Hb as (Hb1 & _).
      intros H. apply IH in H as (H1 & H2 & H3); [|lia].
      split; [exact (delivered_trans _ _ _ (delivered_route resp e) H1)|].
      split; [rewrite H2; unfold route; destruct (r_tag resp) as [[tag|]|]; try done;
              by destruct (pending e !! tag)|].
      destruct r; try done. lia.
    + cbn [dispatch_while].
      cbv [mbind M_bind router_client.seq get modify ret mret M_ret raise lift out_of_fuel].
      destruct (Z.ltb_spec offset (len (buf e))); [|lia]. rewrite Ed, Ep.
      intros [= <- <- <-]. split; [apply delivered_refl|]. split; [done|].
      right. by destruct Hx.
  - cbn [dispatch_while].
    cbv [mbind M_bind router_client.seq get modify ret mret M_ret raise lift out_of_fuel].
    destruct (Z.ltb_spec offset (len (buf e))); [|lia]. rewrite Ed.
    destruct Hb as [->| ->].
    + intros [= <- <- <-]. split; [apply delivered_refl|]. split; [done|lia].
    + intros [= <- <- <-]. split; [apply delivered_refl|]. split; [done|by left].
Qed.

(** X12.  [_dispatch_buf] never suspends and always returns or raises; it
    never lets [BufferError] out.  Whatever the buffer holds, it changes
    nothing of the engine but the queues, which only grow, and the buffer.
    When it returns, the new buffer is the old one without some of its first
    bytes; when it raises -- [struct.error] or [ValueError], nothing else --
    the buffer is left as it was. *)
Theorem dispatch_buf_frame (s : script) (e : engine) :
  exists r e',
    _dispatch_buf int s e = (r, s, e') /\
    delivered e e' /\
    match r with
    | Ok _ => exists n, buf e' = drop n (buf e)
    | Raise x => buf e' = buf e /\ (x = StructError \/ x = ValueError)
    | OutOfFuel => False
    end.
Proof.
  cbv [_dispatch_buf mbind M_bind router_client.seq get modify ret mret M_ret].
  destruct (dispatch_while int (S (length (buf e))) 0 s e) as [[r1 s1] e1] eqn:E.
  pose proof E as E2.
  apply dispatch_while_total in E2 as (Hr & -> & _); [|lia|unfold len; lia].
  apply dispatch_while_frame in E as (Hd & Hb & Hx); [|lia].
  destruct r1 as [o|x|]; [| |done].
  - eexists _, _. split; [reflexivity|]. split.
    + destruct Hd as (A1 & A2 & A3 & A4 & A5 & A6 & A7 & A8 & A9). by repeat split.
    + cbn [buf set_buf]. rewrite Hb. unfold slice_from. by eexists.
  - eexists _, _. split; [reflexivity|]. done.
Qed.

Lemma dispatch_sentences Ws : forall ss resps pre rest fuel s e,
  Forall2 (fun W bs => W <> [] /\ Forall wire_word W /\ build_sentence W = Ok bs) Ws ss ->
  Forall2 (fun W resp => parse_response int W = Ok resp) Ws resps ->
  buf e = pre ++ concat ss ++ rest ->
  rest = [] \/ decode_sentence (buf e) (len (pre ++ concat ss)) = Raise BufferError ->
  (length Ws < fuel)%nat ->
  dispatch_while int fuel (len pre) s e
  = (Ok (len (pre ++ concat ss)), s, foldl (fun e resp => route resp e) e resps).
Proof.
  induction Ws as [|W Ws IH]; intros ss resps pre rest fuel s e Hs Hr Hb Hrest Hf.
  - apply Forall2_nil_inv_l in Hs as ->. apply Forall2_nil_inv_l in Hr as ->.
    cbn [concat foldl app] in *. rewrite (app_nil_r pre) in *.
    destruct fuel as [|fuel]; [cbn in Hf; lia|]. cbn [dispatch_while].
    cbv [mbind M_bind router_client.seq get modify ret mret M_ret raise lift out_of_fuel].
    destruct Hrest as [->|Hrest].
    + rewrite app_nil_r in Hb. rewrite Hb.
      destruct (Z.ltb_spec (len pre) (len pre)); [lia|done].
    + rewrite Hrest. by destruct (len pre <? len (buf e)).
  - apply Forall2_cons_inv_l in Hs as (bs & ss' & (HW & Hwire & Hbs) & Hs & ->).
    apply Forall2_cons_inv_l in Hr as (resp & resps' & Hp & Hr & ->).
    destruct fuel as [|fuel]; [cbn in Hf; lia|]. cbn [concat foldl] in *.
    destruct W as [|w W]; [done|].
    assert (Hd : decode_sentence (buf e) (len pre) = Ok (w :: W, len pre + len bs)).
    { rewrite Hb, <- app_assoc. by apply decode_at_sentence. }
    assert (Hne : 0 < len bs).
    { unfold build_sentence in Hbs. destruct (join_words (w :: W)); try discriminate.
      cbn in Hbs. injection Hbs as <-. rewrite len_app. change (len [x00]) with 1.
      pose proof (len_nonneg a). lia. }
    rewrite (dispatch_step e (len pre) w W (len pre + len bs) resp s fuel); [| |done|done].
    2:{ rewrite Hb, !len_app. pose proof (len_nonneg (concat ss')).
        pose proof (len_nonneg rest). lia. }
    assert (Hbuf : buf (route resp e) = buf e).
    { unfold route. destruct (r_tag resp) as [[tag|]|]; try done.
      by destruct (pending e !! tag). }
    rewrite <- len_app.
    rewrite (IH ss' resps' (pre ++ bs) rest fuel s (route resp e) Hs Hr).
    + by rewrite <- app_assoc.
    + by rewrite Hbuf, Hb, <- !app_assoc.
    + rewrite Hbuf. destruct Hrest as [->|Hrest]; [by left|right].
      by rewrite <- app_assoc.
    + cbn [length] in Hf. lia.
Qed.

(** X13.  A buffer that holds complete sentences, followed by nothing or by
    the beginning of a word that is not complete yet, is dispatched in full:
    every sentence is parsed and routed, in order, to the queue registered
    under its tag (a response with no integer tag or with a tag nobody waits
    for is dropped), and exactly the incomplete rest stays in the buffer. *)
Theorem dispatch_buf_delivers (Ws : list (list str)) (ss : list bytes)
    (resps : list response) (rest : bytes) (s : script) (e : engine) :
  Forall2 (fun W bs => W <> [] /\ Forall wire_word W /\ build_sentence W = Ok bs) Ws ss ->
  Forall2 (fun W resp => parse_response int W = Ok resp) Ws resps ->
  buf e = concat ss ++ rest ->
  rest = [] \/ decode_sentence (buf e) (len (concat ss)) = Raise BufferError ->
  _dispatch_buf int s e
  = (Ok tt, s, set_buf rest (foldl (fun e resp => route resp e) e resps)).
Proof.
  intros Hs Hr Hb Hrest.
  cbv [_dispatch_buf mbind M_bind router_client.seq get modify ret mret M_ret].
  rewrite (dispatch_sentences Ws ss resps [] rest _ s e Hs Hr Hb Hrest).
  - cbn [app]. f_equal. f_equal.
    assert (Hbuf : forall rs e0, buf (foldl (fun e resp => route resp e) e0 rs) = buf e0).
    { induction rs as [|r rs IH]; intros e0; [done|]. cbn [foldl]. rewrite IH.
      unfold route. destruct (r_tag r) as [[tag|]|]; try done.
      by destruct (pending e0 !! tag). }
    rewrite Hbuf, Hb. rewrite slice_from_nonneg.
    + unfold len. rewrite Nat2Z.id. by rewrite drop_app_length.
    + rewrite len_app. pose proof (len_nonneg (concat ss)). pose proof (len_nonneg rest). lia.
  - rewrite Hb, length_app.
    assert (length Ws <= length (concat ss))%nat; [|lia].
    clear -Hs. induction Hs as [|W bs Ws ss (HW & _ & Hbs) Hs IH]; [done|].
    cbn [concat length]. rewrite length_app.
    unfold build_sentence in Hbs. destruct (join_words W); try discriminate.
    cbn in Hbs. injection Hbs as <-. rewrite length_app. cbn [length]. lia.
Qed.
End dispatch_facts.

Lemma dispatch_buf_delivers_witness :
  _dispatch_buf int_decimal [] (set_buf (sentence_re_7 ++ [x05; x61]) e_waiting)
  = (Ok tt, [],
     set_buf [x05; x61]
       (put 0%nat
          (Response (Some (lit "!re")) (Some (TagInt 7)) [(lit "name", AStr (lit "x"))])
          e_waiting)).
Proof.
  apply (dispatch_buf_delivers int_decimal
           [[lit "!re"; lit "=name=x"; lit ".tag=7"]] [sentence_re_7]
           [Response (Some (lit "!re")) (Some (TagInt 7)) [(lit "name", AStr (lit "x"))]]
           [x05; x61] [] (set_buf (sentence_re_7 ++ [x05; x61]) e_waiting)).
  - constructor; [|constructor]. split; [discriminate|]. split; [|reflexivity].
    repeat (constructor; [apply wire_word_ascii; [discriminate|reflexivity|reflexivity]|]).
    constructor.
  - constructor; [reflexivity|constructor].
  - reflexivity.
  - right. reflexivity.
Defined.

(** ** The engine: commands, connections and streams *)

Lemma set_queues_id e : set_queues (queues e) e = e.
Proof. by destruct e. Qed.

Lemma take_arrived q resp e :
  queues e !! q = Some [] ->
  set_queues (<[q := []]> (queues (put q resp e))) (put q resp e) = e.
Proof.
  intros Hq. unfold put. cbn [queues set_queues].
  assert (E : <[q := []]> (alter (fun items => items ++ [resp]) q (queues e)) = queues e).
  { apply map_eq. intros q'. destruct (decide (q = q')) as [->|Hne].
    - by rewrite lookup_insert_eq.
    - by rewrite lookup_insert_ne, lookup_alter_ne. }
  destruct e. cbn in *. by rewrite E.
Qed.

Lemma get_arrived q resp s e :
  queues e !! q = Some [] ->
  with_fuel (fun fuel => wait_for_get fuel q) (arrives q resp :: s) e = (Ok resp, s, e).
Proof.
  intros Hq. unfold with_fuel. cbn [length wait_for_get].
  cbv [suspend mbind M_bind router_client.seq get modify ret mret M_ret raise arrives
       others outcome].
  assert (Hp : queues (put q resp e) !! q = Some [resp]).
  { unfold put. cbn [queues set_queues]. by rewrite lookup_alter_eq, Hq. }
  rewrite Hp. by rewrite take_arrived.
Qed.

Lemma type_is_excl resp a b :
  type_is resp a = true -> lit a <> lit b -> type_is resp b = false.
Proof.
  unfold type_is. intros Ha Hne. apply bool_decide_eq_true in Ha.
  apply bool_decide_eq_false. rewrite Ha. congruence.
Qed.

Lemma terminal_not_row fin : terminal fin = true -> is_row fin = false.
Proof.
  unfold terminal, is_row. intros H.
  apply orb_prop in H as [H|H]; [apply orb_prop in H as [H|H]|];
    apply (type_is_excl _ _ _ H); discriminate.
Qed.

Lemma command_while_ends q fin resps : forall acc fuel e,
  queues e !! q = Some [] ->
  (length resps < fuel)%nat ->
  Forall (fun r => terminal r = false) resps ->
  terminal fin = true ->
  command_while fuel q acc (map (arrives q) (resps ++ [fin])) e
  = (answer_of (acc ++ map r_attrs (filter is_row resps)) fin, [], e).
Proof.
  induction resps as [|r resps IH]; intros acc fuel e Hq Hf Ht Hfin;
    (destruct fuel as [|fuel]; [cbn in Hf; lia|]); cbn [app map command_while].
  - cbv [mbind M_bind router_client.seq]. rewrite get_arrived by done.
    pose proof (terminal_not_row fin Hfin) as Hrow. unfold is_row in Hrow.
    rewrite Hrow. unfold answer_of. rewrite app_nil_r.
    destruct (type_is fin "!done") eqn:Hd; [done|].
    unfold terminal in Hfin. rewrite Hd in Hfin. cbn [orb] in Hfin. by rewrite Hfin.
  - apply Forall_cons in Ht as [Hr Ht]. cbv [mbind M_bind router_client.seq].
    rewrite get_arrived by done. rewrite filter_cons. fold (is_row r).
    unfold terminal in Hr. apply orb_false_elim in Hr as [Hr Hfatal].
    apply orb_false_elim in Hr as [Hdone Htrap].
    destruct (is_row r) eqn:E.
    + destruct (decide _) as [|Hn]; [|done]. cbn [map].
      rewrite IH; [|done|cbn in Hf; lia|done|done].
      by rewrite <- app_assoc.
    + destruct (decide _) as [Hy|]; [done|].
      rewrite Hdone, Htrap, Hfatal. cbn [orb].
      apply IH; [done|cbn in Hf; lia|done|done].
Qed.

(** X14.  What [command] answers.  On a connected engine with the lock
    free, when the responses of the command arrive one per wake-up and the
    first done, trap or fatal response among them is the last one: on done
    [command] returns the attributes of the [!re] responses before it, in the
    order they arrived; on trap or fatal it raises [APIError] with the
    [message] attribute (or else the text of all attributes) and the
    [category] attribute (or else the empty text), and the rows collected so
    far are lost.  A response of any other kind is skipped.  Either way
    [command] has written exactly its sentence, its queue is empty, the lock
    is free again and its tag is released. *)
Theorem command_outcome path params queries (resps : list response) (fin : response)
    (sentence : bytes) (written : list bytes) (e : engine) :
  let tag := (tag_counter e + 1) mod 65535 in
  let q := next_queue e in
  connected e = true -> writer e = Some written -> locked e = false ->
  build_sentence (_build_words path params queries tag) = Ok sentence ->
  Forall (fun r => terminal r = false) resps ->
  terminal fin = true ->
  exists e',
    command path params queries
      (Wake id Completes :: map (arrives q) (resps ++ [fin])) e
    = (answer_of (map r_attrs (filter is_row resps)) fin, [], e') /\
    writer e' = Some (written ++ [sentence]) /\
    pending e' = delete tag (pending e) /\
    queues e' !! q = Some [] /\
    tag_counter e' = tag /\ locked e' = false /\ connected e' = true.
Proof.
  intros tag q Hc Hw Hl Hs Ht Hfin.
  unfold command.
  cbv [_next_tag new_queue pending_set pending_pop with_lock with_fuel _send_raw
       await_unit suspend try_finally lift
       mbind M_bind router_client.seq get modify ret mret M_ret raise].
  cbn [length acquire].
  cbv [mbind M_bind router_client.seq get modify ret mret M_ret raise].
  cbn [locked set_pending set_next_queue set_queues set_tag_counter tag_counter next_queue].
  rewrite Hl. fold tag. rewrite Hs.
  cbn [connected writer set_locked set_pending set_next_queue set_queues set_tag_counter].
  rewrite Hc, Hw. cbn [outcome others]. cbv [id]. subst q.
  match goal with |- context [command_while ?f _ [] _ ?e0] =>
    rewrite (command_while_ends (next_queue e) fin resps [] f e0) end; try done.
  - cbn [app]. unfold answer_of.
    destruct (type_is fin "!done"); (eexists; split; [reflexivity|]);
      cbn [writer pending queues tag_counter locked connected set_pending set_locked
           set_writer set_queues set_next_queue set_tag_counter];
      (split; [done|]); (split; [apply delete_insert_eq|]);
      (split; [apply lookup_insert_eq|done]).
  - cbn [queues set_locked set_writer set_pending set_queues set_next_queue set_tag_counter].
    apply lookup_insert_eq.
  - rewrite length_map, length_app. cbn. lia.
Qed.

(** Responses of a command with tag 1: two rows and one of a kind the loop
    does not know. *)
Definition row_1 (name : string) : response :=
  Response (Some (lit "!re")) (Some (TagInt 1)) [(lit "name", AStr (lit name))].

Definition odd_1 : response := Response (Some (lit "!empty")) (Some (TagInt 1)) [].

Lemma command_outcome_witness :
  (exists e',
     command (lit "/interface/print") None None
       [Wake id Completes; arrives 0%nat (row_1 "ether1"); arrives 0%nat odd_1;
        arrives 0%nat (row_1 "ether2"); arrives 0%nat done_1] e_connected
     = (Ok [[(lit "name", AStr (lit "ether1"))]; [(lit "name", AStr (lit "ether2"))]],
        [], e') /\
     pending e' = delete 1 (pending e_connected)) /\
  (exists e',
     command (lit "/interface/print") None None
       [Wake id Completes; arrives 0%nat (row_1 "ether1"); arrives 0%nat trap_1]
       e_connected
     = (Raise (APIError (Message (AStr (lit "no such command"))) (AStr [])), [], e') /\
     pending e' = delete 1 (pending e_connected)).
Proof.
  split.
  - destruct (command_outcome (lit "/interface/print") None None
                [row_1 "ether1"; odd_1; row_1 "ether2"] done_1 _ [] e_connected
                eq_refl eq_refl eq_refl eq_refl
                ltac:(repeat constructor) eq_refl)
      as (e' & Hrun & _ & Hp & _).
    exists e'. split; [exact Hrun|exact Hp].
  - destruct (command_outcome (lit "/interface/print") None None
                [row_1 "ether1"] trap_1 _ [] e_connected
                eq_refl eq_refl eq_refl eq_refl
                ltac:(repeat constructor) eq_refl)
      as (e' & Hrun & _ & Hp & _).
    exists e'. split; [exact Hrun|exact Hp].
Defined.

(** X27.  A command that is waiting when the connection is lost does not
    hang.  On a connected engine with the lock free, where every registered
    queue was created earlier: when the receiver loop of the current
    connection exits while [command] waits for its first response, the
    [finally] of the loop puts a fatal response into the queue of the command,
    and [command] raises [APIError] "disconnected" with an empty category.
    The engine is then disconnected and the tag of the command is released. *)
Theorem command_woken_by_disconnect path params queries (sentence : bytes)
    (written : list bytes) (e : engine) :
  let tag := (tag_counter e + 1) mod 65535 in
  connected e = true -> writer e = Some written -> locked e = false ->
  registered_before e ->
  build_sentence (_build_words path params queries tag) = Ok sentence ->
  exists e',
    command path params queries
      [Wake id Completes; Wake (receiver_finally (conn_gen e)) Completes] e
    = (Raise (APIError (Message (AStr (lit "disconnected"))) (AStr [])), [], e') /\
    connected e' = false /\
    pending e' = delete tag (pending e).
Proof.
  intros tag Hc Hw Hl Hreg Hs.
  unfold command.
  cbv [_next_tag new_queue pending_set pending_pop with_lock with_fuel _send_raw
       await_unit suspend try_finally lift
       mbind M_bind router_client.seq get modify ret mret M_ret raise].
  cbn [length acquire].
  cbv [mbind M_bind router_client.seq get modify ret mret M_ret raise].
  cbn [locked set_pending set_next_queue set_queues set_tag_counter tag_counter next_queue].
  rewrite Hl. fold tag. rewrite Hs.
  cbn [connected writer set_locked set_pending set_next_queue set_queues set_tag_counter].
  rewrite Hc, Hw. cbn [outcome others]. cbv [id].
  cbn [command_while length].
  cbv [with_fuel mbind M_bind router_client.seq]. cbn [length wait_for_get].
  cbv [suspend mbind M_bind router_client.seq get modify ret mret M_ret raise].
  cbn [outcome others].
  set (e3 := set_locked false _).
  assert (Hg : conn_gen e3 = conn_gen e) by done.
  assert (Hp3 : pending e3 = <[tag := next_queue e]> (pending e)) by done.
  assert (Hq3 : queues e3 = <[next_queue e := []]> (queues e)) by done.
  assert (Hfin : queues (receiver_finally (conn_gen e) e3) !! next_queue e
                 = Some [fatal_response]).
  { unfold receiver_finally. rewrite Hg, Z.eqb_refl.
    rewrite put_all_queues. cbn [queues set_connected]. rewrite Hq3, lookup_insert_eq.
    cbn. f_equal.
    change (filter _ _) with
      (filter (fun q' => q' = next_queue e)
         (map snd (map_to_list (pending (set_connected false e3))))).
    fold (registrations (set_connected false e3) (next_queue e)).
    rewrite (registrations_unique _ tag); [done| |].
    - cbn [pending set_connected]. rewrite Hp3. apply lookup_insert_eq.
    - cbn [pending set_connected]. rewrite Hp3. intros tag' Ht'.
      destruct (decide (tag' = tag)) as [|Hne]; [done|].
      rewrite lookup_insert_ne in Ht' by done. apply Hreg in Ht'. lia. }
  rewrite Hfin.
  eexists. split; [reflexivity|].
  cbn [connected pending set_pending set_queues].
  assert (Hfr : connected (receiver_finally (conn_gen e) e3) = false /\
                pending (receiver_finally (conn_gen e) e3) = pending e3).
  { unfold receiver_finally. rewrite Hg, Z.eqb_refl.
    destruct (put_all_frame (map snd (map_to_list (pending (set_connected false e3))))
                (set_connected false e3)) as (-> & -> & _). done. }
  destruct Hfr as [-> ->]. split; [done|]. rewrite Hp3. apply delete_insert_eq.
Qed.

Lemma registered_before_connected : registered_before e_connected.
Proof. intros t q H. cbn in H. by rewrite lookup_empty in H. Qed.

Lemma command_woken_by_disconnect_witness :
  exists e',
    command (lit "/interface/print") None None
      [Wake id Completes; Wake (receiver_finally 1) Completes] e_connected
    = (Raise (APIError (Message (AStr (lit "disconnected"))) (AStr [])), [], e') /\
    connected e' = false.
Proof.
  destruct (command_woken_by_disconnect (lit "/interface/print") None None _ []
              e_connected eq_refl eq_refl eq_refl registered_before_connected eq_refl)
    as (e' & Hrun & Hc & _).
  exists e'. split; [exact Hrun|exact Hc].
Defined.

(** The outcomes of [connect] once the connection is open. *)
Ltac after_login cfg s0 e0 :=
  destruct (_login cfg s0 e0) as [[?r1 ?s2] ?e2];
  match goal with
  | r1 : result unit |- _ => destruct r1 as [[]|?x|]
  end;
  [ match goal with
    | e2 : engine |- _ =>
        destruct (connected e2) eqn:?Hc; cbn [negb orb];
        [ destruct (negb _); intros [= <- <- <-];
          (split; [discriminate|]); (split; [done || discriminate|]); discriminate
        | intros [= <- <- <-];
          (split; [discriminate|]); (split; [discriminate|]); discriminate ]
    end
  | match goal with
    | x : exn |- _ =>
        destruct (is_Exception x) eqn:?Hx; intros [= <- <- <-];
        (split; [try discriminate; by intros ? [= <-]|]);
        (split; [discriminate|]); discriminate
    end
  | intros [= <- <- <-];
    (split; [discriminate|]); (split; [discriminate|]); discriminate ].

(** X15.  [connect] never raises an [Exception]: whatever goes wrong it
    answers [False] (only a cancellation passes through).  When it answers
    [True] the engine is connected.  When opening the connection fails with an
    [Exception], it answers [False] right away, marks the engine disconnected
    and touches nothing else -- no generation is used up and no login is
    attempted. *)
Theorem connect_outcome (cfg : config) (s : script) (e : engine) r s' e' :
  connect cfg s e = (r, s', e') ->
  (forall x, r = Raise x -> is_Exception x = false) /\
  (r = Ok true -> connected e' = true) /\
  (forall f x s0, s = Wake f (Fails x) :: s0 -> is_Exception x = true ->
     r = Ok false /\ s' = s0 /\ e' = set_connected false (f e)).
Proof.
  unfold connect, try_except_Exception.
  cbv [await_unit suspend mbind M_bind router_client.seq get modify ret mret M_ret raise].
  destruct s as [|w s0].
  { intros [= <- <- <-]. split; [discriminate|]. split; discriminate. }
  destruct w as [f o]. cbn [outcome others].
  destruct o as [| |x].
  - after_login cfg s0 (established (f e)).
  - after_login cfg s0 (established (f e)).
  - destruct (is_Exception x) eqn:Hx; intros [= <- <- <-].
    + split; [discriminate|]. split; [discriminate|]. by intros f0 y s1 [= -> -> ->] _.
    + split; [by intros y [= <-]|]. split; [discriminate|].
      intros f0 y s1 [= -> -> ->]. congruence.
Qed.

Lemma connect_outcome_witness :
  exists e',
    connect cfg_admin [Wake id (Fails (OSError None))] init = (Ok false, [], e') /\
    e' = set_connected false init.
Proof.
  destruct (connect cfg_admin [Wake id (Fails (OSError None))] init)
    as [[r s'] e'] eqn:Hrun.
  destruct (connect_outcome cfg_admin _ _ _ _ _ Hrun) as (_ & _ & H).
  destruct (H id (OSError None) [] eq_refl eq_refl) as (-> & -> & ->).
  by eexists.
Defined.

(** X16.  [close] never raises an [Exception] (a failure of [wait_closed]
    is swallowed).  As long as no other task reconnects the engine meanwhile,
    the engine is disconnected afterwards, nothing was written, and every
    later [_send_raw] raises [ConnectionError] without writing. *)
Theorem close_disconnects (s : script) (e : engine) r s' e' :
  close s e = (r, s', e') -> r <> OutOfFuel ->
  (forall x, r = Raise x -> is_Exception x = false) /\
  (quiet_script s ->
     connected e' = false /\ writer e' = writer e /\
     forall data s0, _send_raw data s0 e' = (Raise ConnectionError, s0, e')).
Proof.
  unfold close, try_except_Exception.
  cbv [await_unit suspend mbind M_bind router_client.seq get modify ret mret M_ret raise].
  cbn [writer set_connected].
  assert (Hsend : forall e0, connected e0 = false ->
            forall data s0, _send_raw data s0 e0 = (Raise ConnectionError, s0, e0)).
  { intros e0 H0 data s0.
    cbv [_send_raw mbind M_bind router_client.seq get modify ret mret M_ret raise].
    by rewrite H0. }
  destruct (writer e) as [written|] eqn:Hw.
  - destruct s as [|[f o] s0]; [intros [= <- <- <-]; done|]. cbn [outcome others].
    assert (Hq : quiet_script (Wake f o :: s0) ->
                 connected (f (set_connected false e)) = false /\
                 writer (f (set_connected false e)) = writer e).
    { intros Hs. apply Forall_cons in Hs as [Hf _]. cbn [others] in Hf.
      destruct (Hf (set_connected false e)) as (-> & -> & _). done. }
    destruct o as [| |x]; [| |destruct (is_Exception x) eqn:Hx]; intros [= <- <- <-] _.
    + split; [discriminate|]. intros Hs. destruct (Hq Hs) as [H1 H2].
      rewrite Hw in H2. split; [done|]. split; [done|]. by apply Hsend.
    + split; [discriminate|]. intros Hs. destruct (Hq Hs) as [H1 H2].
      rewrite Hw in H2. split; [done|]. split; [done|]. by apply Hsend.
    + split; [discriminate|]. intros Hs. destruct (Hq Hs) as [H1 H2].
      rewrite Hw in H2. split; [done|]. split; [done|]. by apply Hsend.
    + split; [by intros y [= <-]|]. intros Hs. destruct (Hq Hs) as [H1 H2].
      rewrite Hw in H2. split; [done|]. split; [done|]. by apply Hsend.
  - intros [= <- <- <-] _. split; [discriminate|]. intros _.
    split; [done|]. split; [done|]. by apply Hsend.
Qed.

Lemma close_disconnects_witness :
  exists e',
    close [Wake id Completes] e_connected = (Ok tt, [], e') /\
    connected e' = false /\
    _send_raw [x00] [] e' = (Raise ConnectionError, [], e').
Proof.
  destruct (close [Wake id Completes] e_connected) as [[r s'] e'] eqn:Hrun.
  assert (Hr : r = Ok tt) by (vm_compute in Hrun; by injection Hrun as <- _ _).
  assert (Hs : s' = []) by (vm_compute in Hrun; by injection Hrun as _ <- _).
  subst r s'.
  destruct (close_disconnects _ _ _ _ _ Hrun ltac:(discriminate)) as (_ & H).
  destruct H as (Hc & _ & Hsend).
  { constructor; [exact quiet_id|constructor]. }
  exists e'. split; [reflexivity|]. split; [exact Hc|apply Hsend].
Defined.

(** X17.  The ROS7 login sends the password in plain text: its one
    sentence is [/login =name=<username> =password=<password> .tag=<tag>].
    When the response is not a trap the login is done, with nothing more
    written; when it is a trap that carries no challenge ([ret] missing or
    empty) the login raises [APIError] "Authentication failed" with the
    attributes of the trap.  Either way the tag is released. *)
Theorem login_ros7_plain (cfg : config) (e : engine) (written : list bytes)
    (resp : response) (sentence : bytes) :
  let tag := (tag_counter e + 1) mod 65535 in
  let q := next_queue e in
  connected e = true -> writer e = Some written ->
  build_sentence
    [lit "/login"; lit "=name=" ++ router_client.username cfg;
     lit "=password=" ++ router_client.password cfg;
     lit ".tag=" ++ str_of_int tag] = Ok sentence ->
  type_is resp "!trap" = false \/
    truthy (attrs_get (r_attrs resp) "ret" (AStr [])) = false ->
  exists e',
    _login_ros7 cfg [Wake id Completes; arrives q resp] e
    = (if type_is resp "!trap"
       then Raise (APIError (AuthenticationFailed (r_attrs resp)) (AStr []))
       else Ok tt, [], e') /\
    writer e' = Some (written ++ [sentence]) /\
    pending e' = delete tag (pending e) /\
    tag_counter e' = tag.
Proof.
  intros tag q Hc Hw Hs Hr. unfold _login_ros7.
  cbv [_next_tag _send_raw await_unit suspend lift _read_one new_queue pending_set
       pending_pop try_finally
       mbind M_bind router_client.seq get modify ret mret M_ret raise].
  fold tag. rewrite Hs. cbn [connected writer set_tag_counter]. rewrite Hc, Hw.
  cbn [outcome others]. cbv [id].
  cbn [next_queue set_writer set_tag_counter set_queues set_next_queue set_pending
       pending queues].
  subst q.
  match goal with |- context [with_fuel _ [arrives _ resp] ?e0] =>
    rewrite (get_arrived (next_queue e) resp [] e0) end.
  2:{ cbn [queues set_pending set_next_queue set_queues]. apply lookup_insert_eq. }
  assert (Hfin : forall r0 : result unit, exists e',
    (r0, @nil wake,
     set_pending
       (delete tag
          (pending
             (set_pending (<[tag:=next_queue e]> (pending e))
                (set_next_queue (S (next_queue e))
                   (set_queues (<[next_queue e:=[]]> (queues e))
                      (set_writer (Some (written ++ [sentence]))
                         (set_tag_counter tag e)))))))
       (set_pending (<[tag:=next_queue e]> (pending e))
          (set_next_queue (S (next_queue e))
             (set_queues (<[next_queue e:=[]]> (queues e))
                (set_writer (Some (written ++ [sentence]))
                   (set_tag_counter tag e)))))) = (r0, [], e') /\
    writer e' = Some (written ++ [sentence]) /\
    pending e' = delete tag (pending e) /\ tag_counter e' = tag).
  { intros r0. eexists. split; [reflexivity|]. cbn. split; [done|].
    split; [apply delete_insert_eq|done]. }
  destruct (type_is resp "!trap") eqn:Ht.
  - destruct Hr as [Hr|Hr]; [done|]. rewrite Hr. apply Hfin.
  - apply Hfin.
Qed.

Lemma login_ros7_plain_witness :
  exists sentence e',
    build_sentence [lit "/login"; lit "=name=admin"; lit "=password=pw"; lit ".tag=1"]
    = Ok sentence /\
    _login_ros7 (Config (lit "admin") (lit "pw") 7)
      [Wake id Completes; arrives 0%nat done_1] e_connected
    = (Ok tt, [], e') /\
    writer e' = Some [sentence].
Proof.
  destruct (login_ros7_plain (Config (lit "admin") (lit "pw") 7) e_connected [] done_1 _
              eq_refl eq_refl eq_refl (or_introl eq_refl))
    as (e' & Hrun & Hw & _).
  eexists _, e'. split; [reflexivity|]. split; [exact Hrun|exact Hw].
Defined.

(** *** Rounds of the login *)

Lemma bind_next_tag {A} (k : Z -> M A) s e :
  (tag ← _next_tag; k tag) s e
  = k ((tag_counter e + 1) mod 65535) s
      (set_tag_counter ((tag_counter e + 1) mod 65535) e).
Proof. reflexivity. Qed.

Lemma bind_lift {A B} (r : result A) (a : A) (k : A -> M B) s e :
  r = Ok a -> (x ← lift r; k x) s e = k a s e.
Proof. by intros ->. Qed.

Lemma bind_lift_raise {A B} (r : result A) x (k : A -> M B) s e :
  r = Raise x -> (a ← lift r; k a) s e = (Raise x, s, e).
Proof. by intros ->. Qed.

Lemma round_run {A} sentence tag resp e written s (k : response -> M A) :
  connected e = true -> writer e = Some written ->
  (_send_raw sentence;; resp ← _read_one tag; k resp)
    (Wake id Completes :: arrives (next_queue e) resp :: s) e
  = k resp s (after_round tag sentence written e).
Proof.
  intros Hc Hw.
  cbv [_send_raw await_unit suspend _read_one new_queue pending_set pending_pop
       try_finally mbind M_bind router_client.seq get modify ret mret M_ret raise].
  rewrite Hc, Hw. cbn [outcome others]. cbv [id].
  cbn [next_queue set_writer set_queues set_next_queue set_pending pending queues].
  match goal with |- context [with_fuel _ (arrives _ resp :: s) ?e0] =>
    rewrite (get_arrived (next_queue e) resp s e0) end.
  - reflexivity.
  - cbn [queues set_pending set_next_queue set_queues]. apply lookup_insert_eq.
Qed.

Lemma after_round_frame tag sentence written e :
  let e' := after_round tag sentence written e in
  connected e' = connected e /\ conn_gen e' = conn_gen e /\
  writer e' = Some (written ++ [sentence]) /\ buf e' = buf e /\
  tag_counter e' = tag_counter e /\ next_queue e' = S (next_queue e) /\
  pending e' = delete tag (pending e).
Proof. cbn. repeat split. apply delete_insert_eq. Qed.

Lemma login_ros7_accepted cfg e written resp sentence s :
  connected e = true -> writer e = Some written ->
  build_sentence
    [lit "/login"; lit "=name=" ++ router_client.username cfg; lit "=password=" ++ router_client.password cfg;
     lit ".tag=" ++ str_of_int ((tag_counter e + 1) mod 65535)] = Ok sentence ->
  type_is resp "!trap" = false ->
  _login_ros7 cfg (Wake id Completes :: arrives (next_queue e) resp :: s) e
  = (Ok tt, s,
     after_round ((tag_counter e + 1) mod 65535) sentence written
       (set_tag_counter ((tag_counter e + 1) mod 65535) e)).
Proof.
  intros Hc Hw Hs Ht. unfold _login_ros7.
  rewrite bind_next_tag. rewrite (bind_lift _ _ _ _ _ Hs).
  set (tag := (tag_counter e + 1) mod 65535).
  change (next_queue e) with (next_queue (set_tag_counter tag e)).
  rewrite (round_run (A := unit) sentence tag resp (set_tag_counter tag e) written s);
    [|done|done].
  by rewrite Ht.
Qed.

(** X28.  A ROS7 connect from end to end.  When [open_connection] returns,
    the login sentence is drained and the router answers it with anything but
    a trap, [connect] returns [True]: the engine is connected under the next
    generation, with an empty receive buffer, a transport that has carried
    exactly the one login sentence (name and password in plain text), and the
    tag of the login released. *)
Theorem connect_plain (cfg : config) (e : engine) (f : engine -> engine)
    (resp : response) (sentence : bytes) :
  let e1 := established (f e) in
  let tag := (tag_counter e1 + 1) mod 65535 in
  7 <= router_client.ros_version cfg ->
  build_sentence
    [lit "/login"; lit "=name=" ++ router_client.username cfg; lit "=password=" ++ router_client.password cfg;
     lit ".tag=" ++ str_of_int tag] = Ok sentence ->
  type_is resp "!trap" = false ->
  exists e',
    connect cfg [Wake f Completes; Wake id Completes; arrives (next_queue e1) resp] e
    = (Ok true, [], e') /\
    connected e' = true /\ conn_gen e' = conn_gen (f e) + 1 /\
    writer e' = Some [sentence] /\ buf e' = [] /\
    pending e' = delete tag (pending (f e)).
Proof.
  intros e1 tag Hv Hs Ht. unfold connect, try_except_Exception.
  assert (Hlogin : _login cfg [Wake id Completes; arrives (next_queue e1) resp] e1
                   = (Ok tt, [], after_round tag sentence [] (set_tag_counter tag e1))).
  { unfold _login. destruct (Z.leb_spec 7 (router_client.ros_version cfg)); [|lia].
    by apply login_ros7_accepted. }
  cbv [await_unit suspend mbind M_bind router_client.seq get modify ret mret M_ret raise].
  cbn [outcome others]. fold e1. rewrite Hlogin.
  destruct (after_round_frame tag sentence [] (set_tag_counter tag e1))
    as (Hc & Hg & Hw & Hb & _ & _ & Hp).
  cbv zeta in *. rewrite Hc, Hg. cbn [connected conn_gen set_tag_counter].
  assert (Hc1 : connected e1 = true) by done. rewrite Hc1, Z.eqb_refl. cbn [negb orb].
  eexists. split; [reflexivity|]. rewrite Hc, Hg, Hw, Hb, Hp.
  repeat split.
Qed.

Lemma connect_plain_witness :
  exists sentence e',
    build_sentence [lit "/login"; lit "=name=admin"; lit "=password=pw"; lit ".tag=1"]
    = Ok sentence /\
    connect (Config (lit "admin") (lit "pw") 7)
      [Wake id Completes; Wake id Completes; arrives 0%nat done_1] init
    = (Ok true, [], e') /\
    connected e' = true /\ writer e' = Some [sentence].
Proof.
  destruct (connect_plain (Config (lit "admin") (lit "pw") 7) init id done_1 _
              ltac:(cbn; lia) eq_refl eq_refl)
    as (e' & Hrun & Hc & _ & Hw & _).
  eexists _, e'. split; [reflexivity|]. split; [exact Hrun|]. split; [exact Hc|exact Hw].
Defined.

(** X29.  How the ROS6 login fails in its first round.  It writes the one
    sentence [/login .tag=<tag>]; when the answer is a trap it raises
    [APIError] "Login rejected" with the attributes of the trap, and when the
    answer is no trap but [md5_challenge_response] raises on its [ret]
    attribute (empty text when missing), that exception leaves the login.
    In both cases nothing more is written and the tag is released. *)
Theorem login_ros6_rejected (cfg : config) (e : engine) (written : list bytes)
    (resp : response) (sentence : bytes) :
  let tag := (tag_counter e + 1) mod 65535 in
  let challenge := attrs_get (r_attrs resp) "ret" (AStr []) in
  let e' := after_round tag sentence written (set_tag_counter tag e) in
  connected e = true -> writer e = Some written ->
  build_sentence [lit "/login"; lit ".tag=" ++ str_of_int tag] = Ok sentence ->
  (type_is resp "!trap" = true ->
   _login_ros6 cfg [Wake id Completes; arrives (next_queue e) resp] e
   = (Raise (APIError (LoginRejected (r_attrs resp)) (AStr [])), [], e')) /\
  (forall x,
     type_is resp "!trap" = false ->
     md5_challenge_response (router_client.password cfg) challenge = Raise x ->
     _login_ros6 cfg [Wake id Completes; arrives (next_queue e) resp] e
     = (Raise x, [], e')) /\
  writer e' = Some (written ++ [sentence]) /\
  pending e' = delete tag (pending e).
Proof.
  intros tag challenge e' Hc Hw Hs.
  assert (Hrun : forall k : response -> M unit,
    (tag ← _next_tag;
     sentence ← lift (build_sentence [lit "/login"; lit ".tag=" ++ str_of_int tag]);
     _send_raw sentence;; resp ← _read_one tag; k resp)
      [Wake id Completes; arrives (next_queue e) resp] e
    = k resp [] e').
  { intros k. rewrite bind_next_tag. fold tag. rewrite (bind_lift _ _ _ _ _ Hs).
    change (next_queue e) with (next_queue (set_tag_counter tag e)).
    by rewrite (round_run sentence tag resp (set_tag_counter tag e) written []). }
  split; [|split].
  - intros Ht. unfold _login_ros6. rewrite Hrun. by rewrite Ht.
  - intros x Ht Hx. unfold _login_ros6. rewrite Hrun. rewrite Ht.
    fold challenge. by rewrite (bind_lift_raise _ _ _ _ _ Hx).
  - destruct (after_round_frame tag sentence written (set_tag_counter tag e))
      as (_ & _ & Hw' & _ & _ & _ & Hp). done.
Qed.

Lemma login_ros6_rejected_witness :
  exists sentence,
    build_sentence [lit "/login"; lit ".tag=1"] = Ok sentence /\
    _login_ros6 cfg_admin [Wake id Completes; arrives 0%nat trap_1] e_connected
    = (Raise (APIError (LoginRejected [(lit "message", AStr (lit "no such command"))])
                (AStr [])), [],
       after_round 1 sentence [] (set_tag_counter 1 e_connected)).
Proof.
  eexists. split; [reflexivity|].
  destruct (login_ros6_rejected cfg_admin e_connected [] trap_1 _ eq_refl eq_refl eq_refl)
    as (Htrap & _).
  exact (Htrap eq_refl).
Defined.

(** X30.  The MD5 fallback of the ROS7 login.  When the plain-text login
    is answered by a trap that carries a challenge (a [ret] attribute that is
    not empty), the login takes the next tag and sends a second sentence
    [/login =name=<username> =response=00<digest> .tag=<tag2>] with the digest
    of the password and the challenge; it raises [APIError] "Authentication
    failed" with the attributes of the second answer when that is a trap, and
    is done otherwise.  Both sentences have been written, in this order, and
    both tags are released. *)
Theorem login_ros7_fallback (cfg : config) (e : engine) (written : list bytes)
    (resp resp2 : response) (sentence sentence2 : bytes) (ch digest : str) :
  let tag := (tag_counter e + 1) mod 65535 in
  let tag2 := (tag + 1) mod 65535 in
  let e1 := after_round tag sentence written (set_tag_counter tag e) in
  let e2 := after_round tag2 sentence2 (written ++ [sentence]) (set_tag_counter tag2 e1) in
  connected e = true -> writer e = Some written ->
  build_sentence
    [lit "/login"; lit "=name=" ++ router_client.username cfg; lit "=password=" ++ router_client.password cfg;
     lit ".tag=" ++ str_of_int tag] = Ok sentence ->
  type_is resp "!trap" = true ->
  attrs_get (r_attrs resp) "ret" (AStr []) = AStr ch -> ch <> [] ->
  md5_challenge_response (router_client.password cfg) (AStr ch) = Ok digest ->
  build_sentence
    [lit "/login"; lit "=name=" ++ router_client.username cfg; lit "=response=00" ++ digest;
     lit ".tag=" ++ str_of_int tag2] = Ok sentence2 ->
  _login_ros7 cfg
    [Wake id Completes; arrives (next_queue e) resp;
     Wake id Completes; arrives (S (next_queue e)) resp2] e
  = (if type_is resp2 "!trap"
     then Raise (APIError (AuthenticationFailed (r_attrs resp2)) (AStr []))
     else Ok tt, [], e2) /\
  writer e2 = Some (written ++ [sentence] ++ [sentence2]) /\
  pending e2 = delete tag2 (delete tag (pending e)).
Proof.
  intros tag tag2 e1 e2 Hc Hw Hs Ht Hch Hne Hd Hs2. split.
  - unfold _login_ros7. rewrite bind_next_tag. fold tag.
    rewrite (bind_lift _ _ _ _ _ Hs).
    change (next_queue e) with (next_queue (set_tag_counter tag e)) at 1.
    rewrite (round_run sentence tag resp (set_tag_counter tag e) written); [|done|done].
    fold e1. rewrite Ht, Hch.
    assert (Htr : truthy (AStr ch) = true) by (by destruct ch).
    rewrite Htr. rewrite (bind_lift _ _ _ _ _ Hd). rewrite bind_next_tag.
    change (tag_counter e1) with tag. fold tag2.
    unfold login_response_words. rewrite (bind_lift _ _ _ _ _ Hs2).
    change (S (next_queue e)) with (next_queue (set_tag_counter tag2 e1)).
    rewrite (round_run sentence2 tag2 resp2 (set_tag_counter tag2 e1)
               (written ++ [sentence]) []); [|done|done].
    fold e2. by destruct (type_is resp2 "!trap").
  - destruct (after_round_frame tag2 sentence2 (written ++ [sentence])
                (set_tag_counter tag2 e1)) as (_ & _ & Hw2 & _ & _ & _ & Hp2).
    destruct (after_round_frame tag sentence written (set_tag_counter tag e))
      as (_ & _ & _ & _ & _ & _ & Hp1).
    cbv zeta in *. fold e1 in Hp1. fold e2 in Hw2, Hp2.
    rewrite Hw2, Hp2. cbn [pending set_tag_counter]. rewrite Hp1.
    by rewrite <- app_assoc.
Qed.

(** A trap that carries a challenge. *)
Definition challenge_trap_1 : response :=
  Response (Some (lit "!trap")) (Some (TagInt 1)) [(lit "ret", AStr (lit "00"))].

Lemma login_ros7_fallback_witness :
  exists sentence digest sentence2 e',
    build_sentence [lit "/login"; lit "=name=admin"; lit "=password=pw"; lit ".tag=1"]
    = Ok sentence /\
    md5_challenge_response (lit "pw") (AStr (lit "00")) = Ok digest /\
    build_sentence
      [lit "/login"; lit "=name=admin"; lit "=response=00" ++ digest; lit ".tag=2"]
    = Ok sentence2 /\
    _login_ros7 (Config (lit "admin") (lit "pw") 7)
      [Wake id Completes; arrives 0%nat challenge_trap_1;
       Wake id Completes; arrives 1%nat done_1] e_connected
    = (Ok tt, [], e') /\
    writer e' = Some ([] ++ [sentence] ++ [sentence2]).
Proof.
  destruct (md5_challenge_response (lit "pw") (AStr (lit "00"))) as [digest| |] eqn:Hd;
    try (vm_compute in Hd; discriminate).
  destruct (build_sentence
              [lit "/login"; lit "=name=admin"; lit "=response=00" ++ digest;
               lit ".tag=2"]) as [sentence2| |] eqn:Hs2;
    try (vm_compute in Hd; injection Hd as <-; vm_compute in Hs2; discriminate).
  destruct (login_ros7_fallback (Config (lit "admin") (lit "pw") 7) e_connected []
              challenge_trap_1 done_1 _ sentence2 (lit "00") digest
              eq_refl eq_refl eq_refl eq_refl eq_refl ltac:(discriminate) Hd Hs2)
    as (Hrun & Hw & _).
  eexists _, digest, sentence2, _. split; [reflexivity|].
  split; [exact Hd || reflexivity|]. split; [exact Hs2|].
  split; [exact Hrun|exact Hw].
Defined.

Section retry.
Variable int : str -> option Z.





End retry.


Lemma stream_while_yields q row skipped : forall fuel s e,
  queues e !! q = Some [] ->
  (length skipped < fuel)%nat ->
  Forall (fun r => terminal r = false /\ is_row r = false) skipped ->
  is_row row = true ->
  stream_while fuel q (map (arrives q) (skipped ++ [row]) ++ s) e
  = (Ok (Some (r_attrs row)), s, e).
Proof.
  induction skipped as [|r skipped IH]; intros fuel s e Hq Hf Hs Hrow;
    (destruct fuel as [|fuel]; [cbn in Hf; lia|]); cbn [app map stream_while].
  - cbv [mbind M_bind router_client.seq]. rewrite get_arrived by done.
    unfold is_row in Hrow. by rewrite Hrow.
  - apply Forall_cons in Hs as [[Hr Hn] Hs]. cbv [mbind M_bind router_client.seq].
    rewrite get_arrived by done. unfold is_row in Hn. rewrite Hn.
    unfold terminal in Hr. apply orb_false_elim in Hr as [Hr Hfatal].
    apply orb_false_elim in Hr as [Hdone Htrap].
    rewrite Hdone, Htrap, Hfatal. cbn [orb].
    apply IH; [done|cbn in Hf; lia|done|done].
Qed.

(** X19.  [stream] yields the rows as they arrive.  The first resumption
    registers a fresh queue under a fresh tag, writes the sentence of the
    command and yields the attributes of the first [!re] response, skipping
    responses that are neither rows nor done, trap or fatal.  The generator
    then stays suspended with its tag registered, and every further resumption
    yields the next row that arrives and leaves the engine as it was. *)
Theorem stream_yields path params queries (skipped : list response) (row : response)
    (sentence : bytes) (written : list bytes) (e : engine) :
  let tag := (tag_counter e + 1) mod 65535 in
  let q := next_queue e in
  connected e = true -> writer e = Some written -> locked e = false ->
  build_sentence (_build_words path params queries tag) = Ok sentence ->
  Forall (fun r => terminal r = false /\ is_row r = false) skipped ->
  is_row row = true ->
  exists e',
    anext (stream path params queries)
      (Wake id Completes :: map (arrives q) (skipped ++ [row])) e
    = (Suspended tag q, Ok (Item (r_attrs row)), [], e') /\
    writer e' = Some (written ++ [sentence]) /\
    pending e' = <[tag := q]> (pending e) /\
    queues e' !! q = Some [] /\
    (forall row2 s2,
       is_row row2 = true ->
       anext (Suspended tag q) (arrives q row2 :: s2) e'
       = (Suspended tag q, Ok (Item (r_attrs row2)), s2, e')).
Proof.
  intros tag q Hc Hw Hl Hs Hsk Hrow. unfold stream, anext, stream_run.
  cbv [_next_tag new_queue pending_set with_lock with_fuel _send_raw
       await_unit suspend try_finally lift
       mbind M_bind router_client.seq get modify ret mret M_ret raise].
  cbn [length acquire].
  cbv [mbind M_bind router_client.seq get modify ret mret M_ret raise].
  cbn [locked set_pending set_next_queue set_queues set_tag_counter tag_counter next_queue].
  rewrite Hl. fold tag. rewrite Hs.
  cbn [connected writer set_locked set_pending set_next_queue set_queues set_tag_counter].
  rewrite Hc, Hw. cbn [outcome others]. cbv [id]. subst q.
  match goal with |- context [stream_while ?f _ ?s0 ?e0] =>
    pose proof (stream_while_yields (next_queue e) row skipped f [] e0) as Hrun end.
  rewrite app_nil_r in Hrun. rewrite Hrun; clear Hrun.
  - eexists. split; [reflexivity|].
    cbn [writer pending queues set_pending set_locked set_writer set_queues
         set_next_queue set_tag_counter].
    split; [done|]. split; [done|]. split; [apply lookup_insert_eq|].
    intros row2 s2 Hrow2. unfold with_fuel.
    pose proof (stream_while_yields (next_queue e) row2 [] (S (length (arrives (next_queue e) row2 :: s2))) s2) as Hrun.
    cbn [app map] in Hrun. rewrite Hrun; [done| |cbn; lia|done|done].
    cbn [queues set_pending set_locked set_writer set_queues set_next_queue set_tag_counter].
    apply lookup_insert_eq.
  - cbn [queues set_locked set_writer set_pending set_queues set_next_queue set_tag_counter].
    apply lookup_insert_eq.
  - rewrite length_map, length_app. cbn. lia.
  - done.
  - done.
Qed.

Lemma stream_yields_witness :
  exists e',
    anext (stream (lit "/log/print") (Some [(lit "follow", None)]) None)
      [Wake id Completes; arrives 0%nat odd_1; arrives 0%nat (row_1 "a")] e_connected
    = (Suspended 1 0%nat, Ok (Item [(lit "name", AStr (lit "a"))]), [], e') /\
    pending e' !! 1 = Some 0%nat.
Proof.
  destruct (stream_yields (lit "/log/print") (Some [(lit "follow", None)]) None
              [odd_1] (row_1 "a") _ [] e_connected
              eq_refl eq_refl eq_refl eq_refl
              ltac:(repeat constructor) eq_refl)
    as (e' & Hrun & _ & Hp & _).
  exists e'. split; [exact Hrun|]. rewrite Hp. apply lookup_insert_eq.
Defined.

(** ** The manager *)

Lemma dict_get_del {V} (d : dict V) k k' :
  dict_get (dict_del d k) k' = if decide (k = k') then None else dict_get d k'.
Proof.
  induction d as [|[k0 v0] d IH]; cbn [dict_del dict_get].
  - by destruct (decide (k = k')).
  - destruct (decide (k0 = k)) as [->|Hne].
    + rewrite IH. destruct (decide (k = k')); done.
    + cbn [dict_get]. rewrite IH. destruct (decide (k0 = k')) as [->|]; [|done].
      by destruct (decide (k = k')).
Qed.

Lemma dict_get_head {V} (d : dict V) k :
  head (dict_keys d) = Some k -> is_Some (dict_get d k).
Proof.
  destruct d as [|[k0 v0] d]; [done|]. cbn. intros [= ->].
  destruct (decide (k = k)); [by eexists|done].
Qed.

(** X20.  [switch_router] succeeds exactly when the user has an entry under
    the alias.  It then sets the active alias and changes nothing else (the
    registry file is not written), and [get_active_entry] and [get_active]
    return that entry and its router -- unless the alias is the empty string,
    which both take for "no active router".  When there is no such entry it
    answers [False] and changes nothing. *)
Theorem switch_router_active (user_id : Z) (alias_ : str) (m : manager) :
  match entry_of m user_id alias_ with
  | Some entry =>
      exists m',
        switch_router user_id alias_ m = (true, m') /\
        _entries m' = _entries m /\ routers m' = routers m /\ registry m' = registry m /\
        _active m' = <[user_id := Some alias_]> (_active m) /\
        get_active_entry user_id m' = (if decide (alias_ = []) then None else Some entry) /\
        get_active user_id m' = (if decide (alias_ = []) then None else router entry)
  | None => switch_router user_id alias_ m = (false, m)
  end.
Proof.
  unfold entry_of, switch_router.
  destruct (_entries m !! user_id) as [routers_|] eqn:E; cbn -[switch_router]; [|done].
  destruct (dict_get routers_ alias_) as [entry|] eqn:Ed; [|done].
  eexists. split; [reflexivity|]. cbn [_entries routers registry _active set_active].
  split; [done|]. split; [done|]. split; [done|]. split; [done|].
  unfold get_active_entry, get_active. cbn [_entries _active set_active].
  rewrite lookup_insert_eq, E. cbn.
  destruct alias_ as [|c a]; [by destruct (decide _)|].
  destruct (decide _); [done|]. by rewrite Ed.
Qed.

(** What [try_versions] returns. *)
Lemma try_versions_result w versions : forall m r v m',
  try_versions w versions m = (Ok (r, v), m') ->
  (next_router m' <= next_router m + length versions)%nat /\
  match r with
  | Some rid =>
      exists ver, ver ∈ versions /\ (v = 7 \/ v = ver) /\
        routers m' !! rid = Some (RouterObj (if ver =? 7 then 7 else 6) true false)
  | None => v = 0
  end.
Proof.
  induction versions as [|ver versions IH]; intros m r v m'; cbn [try_versions length].
  { intros [= <- <- <-]. split; [lia|done]. }
  set (m1 := set_next_router _ _).
  assert (Hn : next_router m1 = S (next_router m)) by done.
  assert (Hrec : forall m2, next_router m2 = next_router m1 ->
            try_versions w versions m2 = (Ok (r, v), m') ->
            (next_router m' <= next_router m + S (length versions))%nat /\
            match r with
            | Some rid =>
                exists ver0, ver0 ∈ ver :: versions /\ (v = 7 \/ v = ver0) /\
                  routers m' !! rid
                  = Some (RouterObj (if ver0 =? 7 then 7 else 6) true false)
            | None => v = 0
            end).
  { intros m2 Hm2 H. apply IH in H as [H1 H2]. split; [lia|].
    destruct r as [rid|]; [|done]. destruct H2 as (ver0 & Hin & Hv & Hr).
    exists ver0. split; [by right|done]. }
  destruct (attempt_with w ver) as [x| |x|res].
  - destruct (router_client.is_Exception x); [by apply Hrec|discriminate].
  - by apply Hrec.
  - destruct (router_client.is_Exception x); [by apply Hrec|discriminate].
  - destruct res as [|kv res]; [by apply Hrec|].
    intros [= <- <- <-]. cbn [next_router set_routers]. split; [lia|].
    exists ver. split; [by left|]. split; [destruct (reports_ros7 _); auto|].
    cbn [routers set_routers]. apply lookup_insert_eq.
Qed.

(** X22.  What [_create_and_connect] returns.  At most two router objects
    are created.  A router that is returned is one created by this call; it is
    connected and was not closed; it is a [RouterROS7] when version 7 was asked
    for and a [RouterROS6] when version 6 was; the version returned with it is
    6 or 7, and 7 when version 7 was asked for.  When no router is returned the
    version is 0. *)
Theorem create_and_connect_result (w : world) (entry : RouterEntry) (m : manager)
    r v m' :
  _create_and_connect w entry m = (Ok (r, v), m') ->
  (next_router m' <= next_router m + 2)%nat /\
  match r with
  | Some rid =>
      (v = 6 \/ v = 7) /\
      (next_router m <= rid < next_router m')%nat /\
      exists class,
        routers m' !! rid = Some (RouterObj class true false) /\
        (class = 6 \/ class = 7) /\
        (ros_version entry = 6 -> class = 6) /\
        (ros_version entry = 7 -> class = 7 /\ v = 7)
  | None => v = 0
  end.
Proof.
  unfold _create_and_connect. intros H.
  pose proof (try_versions_frame _ _ _ _ _ H) as (_ & _ & _ & _ & _ & Hid).
  apply try_versions_result in H as [Hn Hr].
  split.
  { destruct ((ros_version entry =? 6) || (ros_version entry =? 7)); cbn in Hn; lia. }
  destruct r as [rid|]; [|done]. destruct Hr as (ver & Hin & Hv & Hobj).
  specialize (Hid rid v eq_refl).
  destruct (Z.eqb_spec (ros_version entry) 6) as [E6|N6]; cbn [orb] in Hin.
  { apply list_elem_of_singleton in Hin as ->. rewrite E6 in *. cbn in Hobj.
    split; [lia|]. split; [done|]. eexists. split; [exact Hobj|].
    split; [by left|]. split; [done|]. intros; lia. }
  destruct (Z.eqb_spec (ros_version entry) 7) as [E7|N7].
  { apply list_elem_of_singleton in Hin as ->. rewrite E7 in *. cbn in Hobj.
    split; [lia|]. split; [done|]. eexists. split; [exact Hobj|].
    split; [by right|]. split; [intros; lia|]. intros _. split; [done|lia]. }
  assert (Hver : ver = 7 \/ ver = 6).
  { apply elem_of_cons in Hin as [->|Hin]; [by left|].
    apply list_elem_of_singleton in Hin as ->. by right. }
  split; [lia|]. split; [done|]. eexists. split; [exact Hobj|].
  split; [destruct Hver as [-> | ->]; cbn; auto|]. split; intros; lia.
Qed.

(** X21.  When [add_router] answers [False], the message is "Cannot
    connect", and the entries, the active aliases, the registry file and every
    router object that existed are as they were. *)
Theorem add_router_failure w user_id alias_ host_ username_ password_ port_ use_ssl_
    ros_version_ standalone_ m msg m' :
  add_router w user_id alias_ host_ username_ password_ port_ use_ssl_ ros_version_
    standalone_ m = (Ok (false, msg), m') ->
  msg = CannotConnect host_ port_ /\
  _entries m' = _entries m /\ _active m' = _active m /\ registry m' = registry m /\
  (forall r0, (r0 < next_router m)%nat -> routers m' !! r0 = routers m !! r0).
Proof.
  unfold add_router. intros H.
  destruct (_create_and_connect w _ m) as [r1 m1] eqn:Ht.
  unfold _create_and_connect in Ht.
  apply try_versions_frame in Ht as (He & Ha & Hg & _ & Hr & _).
  destruct r1 as [[[rid|] version]| |]; try discriminate.
  - cbn zeta in H. unfold _save_registry in H.
    destruct (save_raises w); discriminate.
  - injection H as <- <-. done.
Qed.

Lemma save_registry_image w m m' :
  _save_registry w m = (Ok tt, m') ->
  _entries m' = _entries m /\ _active m' = _active m /\ routers m' = routers m /\
  next_router m' = next_router m /\
  forall u a, dict_get (default [] (registry m' !! u)) a = saved_entry <$> entry_of m u a.
Proof.
  unfold _save_registry. destruct (save_raises w); [discriminate|].
  intros [= <-]. repeat split. intros u a. unfold entry_of.
  cbn [registry set_registry]. rewrite lookup_fmap.
  destruct (_entries m !! u) as [d|]; cbn; [|done].
  induction d as [|[k v] d IH]; cbn; [done|].
  destruct (decide (k = a)); [done|exact IH].
Qed.

Lemma save_registry_frame w m r m' :
  _save_registry w m = (r, m') ->
  _entries m' = _entries m /\ _active m' = _active m /\ routers m' = routers m.
Proof.
  unfold _save_registry. destruct (save_raises w); by intros [= <- <-].
Qed.

Lemma add_router_success w user_id alias_ host_ username_ password_ port_ use_ssl_
    ros_version_ standalone_ m msg m' :
  add_router w user_id alias_ host_ username_ password_ port_ use_ssl_ ros_version_
    standalone_ m = (Ok (true, msg), m') ->
  exists r v,
    let entry := Entry alias_ host_ username_ password_ port_ use_ssl_ ros_version_
                   standalone_ user_id (Some r) v in
    msg = ConnectedTo host_ v alias_ /\
    entry_of m' user_id alias_ = Some entry /\
    (forall u a,
       dict_get (default [] (registry m' !! u)) a = saved_entry <$> entry_of m' u a) /\
    _active m' = match _active m !! user_id with
                 | None => <[user_id := Some alias_]> (_active m)
                 | Some _ => _active m
                 end.
Proof.
  unfold add_router. intros H.
  destruct (_create_and_connect w _ m) as [r1 m1] eqn:Ht.
  unfold _create_and_connect in Ht.
  apply try_versions_frame in Ht as (He & Ha & _).
  destruct r1 as [[[rid|] version]| |]; try discriminate.
  set (entry := Entry alias_ host_ username_ password_ port_ use_ssl_ ros_version_
                  standalone_ user_id (Some rid) version) in *.
  pose proof (commit_entry_spec user_id entry m1) as (Hnew & _ & Hact & _).
  cbn zeta in *. set (m2 := commit_entry user_id entry m1) in *.
  destruct (_save_registry w m2) as [rs m3] eqn:Hs.
  destruct rs as [[]| |]; try discriminate. injection H as <- <-.
  apply save_registry_image in Hs as (He3 & Ha3 & _ & _ & Hreg).
  assert (Hent : forall u a, entry_of m3 u a = entry_of m2 u a)
    by (intros; unfold entry_of; by rewrite He3).
  exists rid, version. split; [done|]. split; [rewrite Hent; exact Hnew|].
  split; [intros u a; by rewrite Hreg, Hent|].
  rewrite Ha3, Hact, Ha. reflexivity.
Qed.

(** X23.  When [add_router] answers [True]: the message names the host,
    the detected version and the alias; the entry holds the arguments, the
    user as owner, the new router and the detected version; the registry file
    holds every entry of the manager, each without its router and with
    detected version 0; and a user who had no active alias gets this one, so
    that [get_active_entry] and [get_active] return the new entry and router
    (for an alias that is not the empty string). *)
Theorem add_router_saves w user_id alias_ host_ username_ password_ port_ use_ssl_
    ros_version_ standalone_ m msg m' :
  add_router w user_id alias_ host_ username_ password_ port_ use_ssl_ ros_version_
    standalone_ m = (Ok (true, msg), m') ->
  exists r v,
    let entry := Entry alias_ host_ username_ password_ port_ use_ssl_ ros_version_
                   standalone_ user_id (Some r) v in
    msg = ConnectedTo host_ v alias_ /\
    entry_of m' user_id alias_ = Some entry /\
    (forall u a,
       dict_get (default [] (registry m' !! u)) a = saved_entry <$> entry_of m' u a) /\
    (_active m !! user_id = None -> alias_ <> [] ->
       get_active_entry user_id m' = Some entry /\ get_active user_id m' = Some r).
Proof.
  intros H. apply add_router_success in H as (r & v & Hmsg & Hnew & Hreg & Hact).
  exists r, v. cbv zeta in *. split; [done|]. split; [done|]. split; [done|].
  intros Hnone Hne. unfold get_active_entry, get_active.
  rewrite Hact, Hnone, lookup_insert_eq. unfold entry_of in Hnew.
  destruct alias_ as [|c a]; [done|]. by rewrite Hnew.
Qed.

Lemma remove_router_cases w close_raises user_id alias_ m :
  match entry_of m user_id alias_ with
  | None => remove_router w close_raises user_id alias_ m = (Ok false, m)
  | Some entry =>
      exists routers_, _entries m !! user_id = Some routers_ /\
      let m1 := match router entry with Some r => close_router r m | None => m end in
      match router entry, close_raises with
      | Some _, Some x => remove_router w close_raises user_id alias_ m = (Raise x, m1)
      | _, _ =>
          let m2 :=
            set_entries (<[user_id := dict_del routers_ alias_]> (_entries m1)) m1 in
          let m3 :=
            if decide (default None (_active m !! user_id) = Some alias_) then
              set_active (<[user_id := head (dict_keys (dict_del routers_ alias_))]>
                            (_active m2)) m2
            else m2 in
          remove_router w close_raises user_id alias_ m
          = (let '(r, m) := _save_registry w m3 in
             match r with
             | Ok _ => (Ok true, m)
             | Raise x => (Raise x, m)
             | OutOfFuel => (OutOfFuel, m)
             end)
      end
  end.
Proof.
  unfold entry_of, remove_router.
  destruct (_entries m !! user_id) as [routers_|] eqn:E; cbn -[decide]; [|done].
  destruct (dict_get routers_ alias_) as [entry|] eqn:Ed; [|done].
  exists routers_. split; [done|].
  destruct (router entry) as [r|]; [destruct close_raises as [x|]|]; try done.
  - cbn [_active _entries close_router set_routers set_entries].
    rewrite lookup_insert_eq. reflexivity.
  - cbn [_active _entries set_entries]. rewrite lookup_insert_eq. reflexivity.
Qed.

Lemma remove_router_success w close_raises user_id alias_ m m' :
  remove_router w close_raises user_id alias_ m = (Ok true, m') ->
  exists entry,
    entry_of m user_id alias_ = Some entry /\
    entry_of m' user_id alias_ = None /\
    (forall u a, (u, a) <> (user_id, alias_) -> entry_of m' u a = entry_of m u a) /\
    (forall r, router entry = Some r ->
       routers m' !! r
       = (fun o => RouterObj (variant o) false true) <$> routers m !! r) /\
    (forall r, router entry <> Some r -> routers m' !! r = routers m !! r) /\
    _active m'
    = (if decide (default None (_active m !! user_id) = Some alias_)
       then <[user_id := head (dict_keys (dict_del
                                  (default [] (_entries m !! user_id)) alias_))]>
              (_active m)
       else _active m) /\
    (forall u a,
       dict_get (default [] (registry m' !! u)) a = saved_entry <$> entry_of m' u a).
Proof.
  intros H. pose proof (remove_router_cases w close_raises user_id alias_ m) as Hc.
  destruct (entry_of m user_id alias_) as [entry|] eqn:Ee; [|congruence].
  destruct Hc as (routers_ & Er & Hc). exists entry. split; [done|].
  set (m1 := match router entry with Some r => close_router r m | None => m end) in *.
  assert (H1 : _entries m1 = _entries m /\ _active m1 = _active m /\
               registry m1 = registry m) by (unfold m1; by destruct (router entry)).
  destruct H1 as (He1 & Ha1 & Hg1).
  cbv zeta in Hc.
  set (m2 := set_entries (<[user_id := dict_del routers_ alias_]> (_entries m1)) m1) in *.
  set (m3 := if decide (default None (_active m !! user_id) = Some alias_)
             then set_active _ m2 else m2) in *.
  assert (Hrun : remove_router w close_raises user_id alias_ m
                 = (let '(r, m) := _save_registry w m3 in
                    match r with
                    | Ok _ => (Ok true, m)
                    | Raise x => (Raise x, m)
                    | OutOfFuel => (OutOfFuel, m)
                    end)).
  { destruct (router entry); [destruct close_raises|]; try done. congruence. }
  rewrite Hrun in H. destruct (_save_registry w m3) as [rs m4] eqn:Hs.
  destruct rs as [[]| |]; try discriminate. injection H as <-.
  apply save_registry_image in Hs as (He4 & Ha4 & Hr4 & _ & Hreg).
  assert (He3 : _entries m3 = _entries m2) by (unfold m3; by destruct (decide _)).
  assert (Hr3 : routers m3 = routers m1) by (unfold m3; by destruct (decide _)).
  assert (Hent : forall u a, entry_of m4 u a = entry_of m2 u a)
    by (intros; unfold entry_of; by rewrite He4, He3).
  assert (Hent3 : forall u a, entry_of m3 u a = entry_of m2 u a)
    by (intros; unfold entry_of; by rewrite He3).
  assert (Hdel : forall u a, entry_of m2 u a
            = if decide ((u, a) = (user_id, alias_)) then None else entry_of m u a).
  { intros u a. unfold entry_of, m2. cbn [_entries set_entries]. rewrite He1.
    destruct (decide (u = user_id)) as [->|Hu].
    - rewrite lookup_insert_eq, Er. cbn. rewrite dict_get_del.
      destruct (decide (alias_ = a)) as [->|Ha].
      + by rewrite decide_True.
      + rewrite decide_False; [done|]. intros [=]. congruence.
    - rewrite lookup_insert_ne by done. rewrite decide_False; [done|]. intros [=]. congruence. }
  split; [rewrite Hent, Hdel; by rewrite decide_True|].
  split; [intros u a Hne; rewrite Hent, Hdel; by rewrite decide_False|].
  rewrite Hr4, Hr3. split.
  { intros r Hr. unfold m1. rewrite Hr. cbn [routers close_router set_routers].
    apply lookup_alter_eq. }
  split.
  { intros r Hr. unfold m1. destruct (router entry) as [r0|]; [|done].
    cbn [routers close_router set_routers]. apply lookup_alter_ne. congruence. }
  split.
  { rewrite Ha4. unfold m3. rewrite Er. cbn [default].
    destruct (decide _); unfold m2; cbn [_active set_active set_entries]; by rewrite ?Ha1. }
  intros u a. by rewrite Hreg, Hent, Hent3.
Qed.

(** X24.  When [remove_router] answers [True]: there was an entry under
    the alias and there is none afterwards; every other entry is unchanged;
    the router of the entry has been closed and no other router object is
    touched; when the alias was the active one, the first remaining alias of
    the user becomes active, or [None] when none remains, and otherwise the
    active aliases are unchanged; and the registry file holds the entries that
    remain. *)
Theorem remove_router_removes w close_raises user_id alias_ m m' :
  remove_router w close_raises user_id alias_ m = (Ok true, m') ->
  exists entry,
    entry_of m user_id alias_ = Some entry /\
    entry_of m' user_id alias_ = None /\
    (forall u a, (u, a) <> (user_id, alias_) -> entry_of m' u a = entry_of m u a) /\
    (forall r, router entry = Some r ->
       routers m' !! r
       = (fun o => RouterObj (variant o) false true) <$> routers m !! r) /\
    (forall r, router entry <> Some r -> routers m' !! r = routers m !! r) /\
    _active m'
    = (if decide (default None (_active m !! user_id) = Some alias_)
       then <[user_id := head (dict_keys (dict_del
                                  (default [] (_entries m !! user_id)) alias_))]>
              (_active m)
       else _active m) /\
    (forall u a,
       dict_get (default [] (registry m' !! u)) a = saved_entry <$> entry_of m' u a).
Proof. apply remove_router_success. Qed.

Lemma active_valid_same m m' :
  _entries m' = _entries m -> _active m' = _active m -> active_valid m -> active_valid m'.
Proof.
  intros He Ha Hv u a. unfold entry_of. rewrite He, Ha. apply Hv.
Qed.

Lemma active_valid_commit user_id entry m :
  active_valid m -> active_valid (commit_entry user_id entry m).
Proof.
  intros Hv u a Hact.
  pose proof (commit_entry_spec user_id entry m) as (Hnew & Hoth & Ha & _).
  cbv zeta in *. rewrite Ha in Hact.
  destruct (decide ((u, a) = (user_id, alias entry))) as [[= -> ->]|Hne].
  { rewrite Hnew. by eexists. }
  rewrite Hoth by done. apply Hv.
  destruct (_active m !! user_id) eqn:E; [done|].
  destruct (decide (u = user_id)) as [->|Hu].
  - rewrite lookup_insert_eq in Hact. injection Hact as <-. done.
  - by rewrite lookup_insert_ne in Hact.
Qed.

Lemma active_valid_add w user_id alias_ host_ username_ password_ port_ use_ssl_
    ros_version_ standalone_ m r m' :
  active_valid m ->
  add_router w user_id alias_ host_ username_ password_ port_ use_ssl_ ros_version_
    standalone_ m = (r, m') ->
  active_valid m'.
Proof.
  intros Hv. unfold add_router.
  destruct (_create_and_connect w _ m) as [r1 m1] eqn:Ht.
  unfold _create_and_connect in Ht.
  apply try_versions_frame in Ht as (He & Ha & _).
  assert (Hv1 : active_valid m1) by by apply (active_valid_same m).
  destruct r1 as [[[rid|] version]| |]; try (intros [= <- <-]; done).
  cbn zeta.
  match goal with |- context [commit_entry user_id ?en m1] =>
    pose proof (active_valid_commit user_id en m1 Hv1) as Hv2;
    set (m2 := commit_entry user_id en m1) in * end.
  destruct (_save_registry w m2) as [rs m3] eqn:Hs.
  apply save_registry_frame in Hs as (He3 & Ha3 & _).
  assert (Hv3 : active_valid m3) by by apply (active_valid_same m2).
  destruct rs as [[]| |]; by intros [= <- <-].
Qed.

Lemma active_valid_switch user_id alias_ m b m' :
  active_valid m -> switch_router user_id alias_ m = (b, m') -> active_valid m'.
Proof.
  intros Hv. unfold switch_router.
  destruct (_entries m !! user_id) as [routers_|] eqn:E; [|by intros [= <- <-]].
  destruct (dict_get routers_ alias_) as [entry|] eqn:Ed; [|by intros [= <- <-]].
  intros [= <- <-] u a. unfold entry_of. cbn [_active _entries set_active].
  destruct (decide (u = user_id)) as [->|Hu].
  - rewrite lookup_insert_eq. intros [= <-]. rewrite E. cbn. by rewrite Ed.
  - rewrite lookup_insert_ne by done. apply Hv.
Qed.

Lemma active_valid_remove w close_raises user_id alias_ m r m' :
  active_valid m -> remove_router w close_raises user_id alias_ m = (r, m') ->
  active_valid m'.
Proof.
  intros Hv H. pose proof (remove_router_cases w close_raises user_id alias_ m) as Hc.
  destruct (entry_of m user_id alias_) as [entry|] eqn:Ee.
  2:{ rewrite Hc in H. by injection H as <- <-. }
  destruct Hc as (routers_ & Er & Hc).
  set (m1 := match router entry with Some r => close_router r m | None => m end) in *.
  assert (H1 : _entries m1 = _entries m /\ _active m1 = _active m)
    by (unfold m1; by destruct (router entry)).
  destruct H1 as (He1 & Ha1).
  assert (Hv1 : active_valid m1) by by apply (active_valid_same m).
  cbv zeta in Hc.
  set (m2 := set_entries (<[user_id := dict_del routers_ alias_]> (_entries m1)) m1) in *.
  set (m3 := if decide (default None (_active m !! user_id) = Some alias_)
             then set_active _ m2 else m2) in *.
  assert (Hv3 : active_valid m3).
  { intros u a. unfold m3, entry_of, m2.
    assert (Hdel : forall a0, a0 <> alias_ \/ u <> user_id ->
              dict_get (default [] (<[user_id := dict_del routers_ alias_]>
                                      (_entries m1) !! u)) a0
              = dict_get (default [] (_entries m !! u)) a0).
    { intros a0 Hne. rewrite He1.
      destruct (decide (u = user_id)) as [->|Hu].
      - rewrite lookup_insert_eq, Er. cbn. rewrite dict_get_del.
        rewrite decide_False; [done|]. destruct Hne; congruence.
      - by rewrite lookup_insert_ne. }
    destruct (decide (default None (_active m !! user_id) = Some alias_)) as [Hd|Hd];
      cbn [_active _entries set_active set_entries].
    - destruct (decide (u = user_id)) as [->|Hu].
      + rewrite !lookup_insert_eq. intros [= Hh]. apply dict_get_head in Hh. exact Hh.
      + rewrite (lookup_insert_ne (_active m1)) by done. rewrite Ha1. intros Hact.
        rewrite Hdel by (by right). by apply Hv.
    - rewrite Ha1. intros Hact. rewrite Hdel; [by apply Hv|].
      destruct (decide (u = user_id)) as [->|Hu]; [|by right]. left.
      intros ->. rewrite Hact in Hd. done. }
  destruct (router entry) as [rr|] eqn:Hrr; [destruct close_raises as [x|]|].
  - rewrite Hc in H. by injection H as <- <-.
  - rewrite Hc in H. destruct (_save_registry w m3) as [rs m4] eqn:Hs.
    apply save_registry_frame in Hs as (He4 & Ha4 & _).
    assert (Hv4 : active_valid m4) by by apply (active_valid_same m3).
    destruct rs as [[]| |]; by injection H as <- <-.
  - assert (Hc' : remove_router w close_raises user_id alias_ m
                  = (let '(r, m) := _save_registry w m3 in
                     match r with
                     | Ok _ => (Ok true, m)
                     | Raise x => (Raise x, m)
                     | OutOfFuel => (OutOfFuel, m)
                     end)) by (by destruct close_raises).
    rewrite Hc' in H. destruct (_save_registry w m3) as [rs m4] eqn:Hs.
    apply save_registry_frame in Hs as (He4 & Ha4 & _).
    assert (Hv4 : active_valid m4) by by apply (active_valid_same m3).
    destruct rs as [[]| |]; by injection H as <- <-.
Qed.

(** X25.  The active alias never dangles.  If every active alias names an
    entry of its user, this still holds after [add_router], [switch_router]
    and [remove_router], however they end; and then [get_active_entry] finds
    an entry for every user whose active alias is not empty. *)
Theorem active_alias_valid (m : manager) :
  active_valid m ->
  (forall w user_id alias_ host_ username_ password_ port_ use_ssl_ ros_version_
          standalone_ r m',
     add_router w user_id alias_ host_ username_ password_ port_ use_ssl_ ros_version_
       standalone_ m = (r, m') -> active_valid m') /\
  (forall user_id alias_ b m',
     switch_router user_id alias_ m = (b, m') -> active_valid m') /\
  (forall w close_raises user_id alias_ r m',
     remove_router w close_raises user_id alias_ m = (r, m') -> active_valid m') /\
  (forall user_id alias_,
     _active m !! user_id = Some (Some alias_) -> alias_ <> [] ->
     is_Some (get_active_entry user_id m)).
Proof.
  intros Hv. split; [|split; [|split]].
  - intros. by eapply active_valid_add.
  - intros. by eapply active_valid_switch.
  - intros. by eapply active_valid_remove.
  - intros u a Hact Hne. unfold get_active_entry. rewrite Hact.
    destruct a as [|c a]; [done|]. by apply Hv.
Qed.

(** X26.  A user who removes their only router and then adds a router has
    a router but no active one: [remove_router] leaves [None] as the active
    alias, [add_router] sets the active alias only for a user with no item in
    the active map, and [get_active_entry] and [get_active] answer [None]. *)
Theorem no_active_after_readd w close_raises w2 user_id alias_ entry alias2 host_
    username_ password_ port_ use_ssl_ ros_version_ standalone_ m m1 msg m2 :
  _entries m !! user_id = Some [(alias_, entry)] ->
  _active m !! user_id = Some (Some alias_) ->
  remove_router w close_raises user_id alias_ m = (Ok true, m1) ->
  add_router w2 user_id alias2 host_ username_ password_ port_ use_ssl_ ros_version_
    standalone_ m1 = (Ok (true, msg), m2) ->
  has_routers user_id m1 = false /\
  has_routers user_id m2 = true /\
  _active m2 !! user_id = Some None /\
  get_active_entry user_id m2 = None /\
  get_active user_id m2 = None.
Proof.
  intros He Ha Hrm Hadd.
  apply remove_router_success in Hrm as (en & Hen & Hgone & Hoth & _ & _ & Hact1 & _).
  apply add_router_success in Hadd as (r & v & _ & Hnew & _ & Hact2).
  cbv zeta in *. rewrite Ha, He in Hact1.
  change (default None (Some (Some alias_))) with (Some alias_) in Hact1.
  change (default [] (Some [(alias_, entry)])) with [(alias_, entry)] in Hact1.
  rewrite decide_True in Hact1 by done.
  assert (Hd : dict_del [(alias_, entry)] alias_ = []).
  { cbn [dict_del]. by rewrite decide_True. }
  rewrite Hd in Hact1.
  assert (Hnone : _active m1 !! user_id = Some None)
    by (rewrite Hact1; apply lookup_insert_eq).
  rewrite Hnone in Hact2. cbv beta iota in Hact2.
  assert (H1 : has_routers user_id m1 = false).
  { unfold has_routers. destruct (_entries m1 !! user_id) as [[|[k e0] d]|] eqn:E; try done.
    destruct (decide (k = alias_)) as [->|Hk].
    - unfold entry_of in Hgone. rewrite E in Hgone. cbn in Hgone.
      by rewrite decide_True in Hgone.
    - specialize (Hoth user_id k ltac:(congruence)). unfold entry_of in Hoth.
      rewrite E, He in Hoth. cbn in Hoth. rewrite decide_True in Hoth by done.
      by rewrite decide_False in Hoth. }
  split; [done|]. split.
  { unfold has_routers. unfold entry_of in Hnew.
    destruct (_entries m2 !! user_id) as [[|kv d]|]; done. }
  assert (Hl : _active m2 !! user_id = Some None) by (rewrite Hact2; exact Hnone).
  split; [exact Hl|]. unfold get_active_entry, get_active.
  destruct (_active m2 !! user_id) as [[a|]|]; [discriminate|done|done].
Qed.

(** *** The manager on a small registry *)

(** No device answers. *)
Definition w_down : world := World (fun _ => ConnectFails) None.

Lemma active_valid_home : active_valid m_home.
Proof.
  intros u a H. unfold m_home in H. cbn [_active] in H.
  apply lookup_singleton_Some in H as [<- [= <-]]. by eexists.
Defined.

Lemma add_router_failure_witness :
  exists m',
    add_router w_down 42 (lit "lab") (lit "10.0.0.9") (lit "admin") (lit "pw") 8728
      false 0 false m_home
    = (Ok (false, CannotConnect (lit "10.0.0.9") 8728), m') /\
    _entries m' = _entries m_home /\ _active m' = _active m_home /\
    next_router m' = 3%nat.
Proof.
  destruct (add_router w_down 42 (lit "lab") (lit "10.0.0.9") (lit "admin") (lit "pw")
              8728 false 0 false m_home) as [res m'] eqn:Hrun.
  assert (Hres : res = Ok (false, CannotConnect (lit "10.0.0.9") 8728))
    by (vm_compute in Hrun; injection Hrun as <- _; reflexivity).
  assert (Hnext : next_router m' = 3%nat)
    by (vm_compute in Hrun; injection Hrun as _ <-; reflexivity).
  subst res.
  destruct (add_router_failure _ _ _ _ _ _ _ _ _ _ _ _ _ Hrun) as (_ & He & Ha & _).
  exists m'. split; [reflexivity|]. split; [exact He|]. split; [exact Ha|exact Hnext].
Defined.

Lemma create_and_connect_result_witness :
  exists m',
    _create_and_connect w_up entry_home m_home = (Ok (Some 1%nat, 6), m') /\
    routers m' !! 1%nat = Some (RouterObj 6 true false) /\
    next_router m' = 2%nat.
Proof.
  destruct (_create_and_connect w_up entry_home m_home) as [res m'] eqn:Hrun.
  assert (Hres : res = Ok (Some 1%nat, 6))
    by (vm_compute in Hrun; injection Hrun as <- _; reflexivity).
  assert (Hnext : next_router m' = 2%nat)
    by (vm_compute in Hrun; injection Hrun as _ <-; reflexivity).
  subst res.
  destruct (create_and_connect_result _ _ _ _ _ _ Hrun)
    as (_ & _ & _ & class & Hobj & _ & H6 & _).
  rewrite (H6 eq_refl) in Hobj.
  exists m'. split; [reflexivity|]. split; [exact Hobj|exact Hnext].
Defined.

Lemma add_router_saves_witness :
  exists m' r,
    add_router w_up 7 (lit "lab") (lit "10.0.0.9") (lit "admin") (lit "pw") 8728
      false 0 false m_home
    = (Ok (true, ConnectedTo (lit "10.0.0.9") 7 (lit "lab")), m') /\
    get_active 7 m' = Some r /\
    dict_get (default [] (registry m' !! 42)) (lit "home") = Some (saved_entry entry_home).
Proof.
  destruct (add_router w_up 7 (lit "lab") (lit "10.0.0.9") (lit "admin") (lit "pw")
              8728 false 0 false m_home) as [res m'] eqn:Hrun.
  assert (Hres : res = Ok (true, ConnectedTo (lit "10.0.0.9") 7 (lit "lab")))
    by (vm_compute in Hrun; injection Hrun as <- _; reflexivity).
  subst res.
  destruct (add_router_saves _ _ _ _ _ _ _ _ _ _ _ _ _ Hrun)
    as (r & v & _ & _ & Hreg & Hact).
  destruct (Hact eq_refl ltac:(discriminate)) as [_ Hr].
  exists m', r. split; [reflexivity|]. split; [exact Hr|].
  rewrite Hreg.
  vm_compute in Hrun. injection Hrun as <-. reflexivity.
Defined.

Lemma remove_router_removes_witness :
  exists m',
    remove_router w_up None 42 (lit "home") m_home = (Ok true, m') /\
    entry_of m' 42 (lit "home") = None /\
    routers m' !! 0%nat = Some (RouterObj 6 false true) /\
    _active m' !! 42 = Some None.
Proof.
  destruct (remove_router w_up None 42 (lit "home") m_home) as [res m'] eqn:Hrun.
  assert (Hres : res = Ok true)
    by (vm_compute in Hrun; injection Hrun as <- _; reflexivity).
  subst res.
  destruct (remove_router_removes _ _ _ _ _ _ Hrun)
    as (entry & Hentry & Hgone & _ & Hclosed & _ & Hact & _).
  injection Hentry as <-.
  exists m'. split; [reflexivity|]. split; [exact Hgone|].
  split; [exact (Hclosed 0%nat eq_refl)|]. rewrite Hact. reflexivity.
Defined.

Lemma active_alias_valid_witness :
  exists m',
    remove_router w_up None 42 (lit "home") m_home = (Ok true, m') /\ active_valid m'.
Proof.
  destruct (remove_router w_up None 42 (lit "home") m_home) as [res m'] eqn:Hrun.
  assert (Hres : res = Ok true)
    by (vm_compute in Hrun; injection Hrun as <- _; reflexivity).
  subst res.
  destruct (active_alias_valid m_home active_valid_home) as (_ & _ & Hrm & _).
  exists m'. split; [reflexivity|]. exact (Hrm _ _ _ _ _ _ Hrun).
Defined.

Lemma no_active_after_readd_witness :
  exists m1 m2,
    remove_router w_up None 42 (lit "home") m_home = (Ok true, m1) /\
    add_router w_up 42 (lit "lab") (lit "10.0.0.9") (lit "admin") (lit "pw") 8728
      false 0 false m1
    = (Ok (true, ConnectedTo (lit "10.0.0.9") 7 (lit "lab")), m2) /\
    has_routers 42 m2 = true /\ get_active 42 m2 = None.
Proof.
  destruct (remove_router w_up None 42 (lit "home") m_home) as [res1 m1] eqn:Hrm.
  assert (Hres1 : res1 = Ok true)
    by (vm_compute in Hrm; injection Hrm as <- _; reflexivity).
  subst res1.
  destruct (add_router w_up 42 (lit "lab") (lit "10.0.0.9") (lit "admin") (lit "pw")
              8728 false 0 false m1) as [res2 m2] eqn:Hadd.
  assert (Hres2 : res2 = Ok (true, ConnectedTo (lit "10.0.0.9") 7 (lit "lab"))).
  { assert (Hm1 := Hrm). vm_compute in Hm1. injection Hm1 as <-.
    vm_compute in Hadd. injection Hadd as <- _. reflexivity. }
  subst res2.
  destruct (no_active_after_readd w_up None w_up 42 (lit "home") entry_home (lit "lab")
              (lit "10.0.0.9") (lit "admin") (lit "pw") 8728 false 0 false m_home m1 _ m2
              eq_refl eq_refl Hrm Hadd) as (_ & Hhas & _ & _ & Hnone).
  exists m1, m2. split; [reflexivity|]. split; [exact Hadd|].
  split; [exact Hhas|exact Hnone].
Defined.
